(** * Session protection of the WlfRyt Google Calendar shell

    A shallow embedding of [src/session-protection.js]: the key manager
    ([getSessionKey], [saveSessionKey]), the AES-256-GCM envelope
    ([encrypt], [decrypt]), the lock state machine ([lock], [unlock],
    [resetLockTimeout], [clearLockTimeout]), the settings store
    ([saveSettings], [getSecurityStatus]), the secure eraser
    ([clearAllData]) and the constructor; of the part of [src/main.js] that
    drives it (the lock window, the IPC handlers, the Security menu, the
    window handlers, [isAllowedUrl]); and of [scripts/update-version.js].

    The class [SessionProtection] is stateful and talks to the file system,
    to Electron's [safeStorage], to Node's [crypto] and to the timer queue.
    Its methods are embedded in a state-and-exception monad over a
    [Machine]: the fields of the object, the file system, the timer queue,
    the oracles that decide what the outside world answers (I/O faults,
    random bytes, Touch ID), and a trace of the observable effects.  What
    the host provides as functions (the JSON codec, the [safeStorage] codec,
    the key stream and the tag of AES-GCM) is a parameter, the class
    [Runtime]; the module [Reference] gives a small executable instance on
    which the methods can be run, and the module [Aes] the same instance
    with AES-256-GCM itself as the cipher.  The main process is a [Shell]
    around the machine, moved by the [Input]s that reach it.

    The first part holds the definitions, the second part the properties:
    the codecs, a weakest-precondition calculus for the monad, then the key
    manager, the cipher, the lock state machine, the settings store and the
    secure eraser, the runs on the reference runtime, and after them the
    constructor, the timers, the main process, navigation and the version
    script. *)

From Stdlib Require Import ZArith Lia List Bool.
From Stdlib.Strings Require Import Ascii String Byte.
From Stdlib Require Import DecimalString DecimalZ DecimalPos.
From stdpp Require Import base gmap strings list.

Local Open Scope string_scope.
Local Open Scope Z_scope.

(** ** Bytes, strings and the hex codec *)

Abbreviation bytes := (list byte).

#[global] Instance byte_eq_dec : EqDecision byte := Byte.byte_eq_dec.

(** JavaScript strings are kept as their UTF-8 bytes: [Buffer.toString('utf8')]
    and the ['utf8'] input encoding of [cipher.update] are the two
    conversions below.  A buffer that is not well-formed UTF-8, which Node
    decodes with replacement characters, is kept as it is. *)
Definition utf8_decode (b : bytes) : string := string_of_list_byte b.
Definition utf8_encode (s : string) : bytes := list_byte_of_string s.

Definition bits8 : Type := bool * (bool * (bool * (bool * (bool * (bool * (bool * bool)))))).

Definition xor_bits (x y : bits8) : bits8 :=
  let '(a0, (a1, (a2, (a3, (a4, (a5, (a6, a7))))))) := x in
  let '(b0, (b1, (b2, (b3, (b4, (b5, (b6, b7))))))) := y in
  (xorb a0 b0, (xorb a1 b1, (xorb a2 b2, (xorb a3 b3,
  (xorb a4 b4, (xorb a5 b5, (xorb a6 b6, xorb a7 b7))))))).

Definition byte_xor (a b : byte) : byte :=
  Byte.of_bits (xor_bits (Byte.to_bits a) (Byte.to_bits b)).

Definition byte_of_N (n : N) : byte :=
  match Byte.of_N (n mod 256) with Some b => b | None => x00 end.

Definition hex_digit (n : N) : ascii :=
  match n with
  | 0 => "0" | 1 => "1" | 2 => "2" | 3 => "3" | 4 => "4" | 5 => "5"
  | 6 => "6" | 7 => "7" | 8 => "8" | 9 => "9" | 10 => "a" | 11 => "b"
  | 12 => "c" | 13 => "d" | 14 => "e" | _ => "f"
  end%N%char.

(** Value of one hex character; [Buffer.from(s, 'hex')] accepts both cases. *)
Definition hex_value (c : ascii) : option N :=
  let n := N_of_ascii c in
  (if (48 <=? n) && (n <=? 57) then Some (n - 48)
   else if (97 <=? n) && (n <=? 102) then Some (n - 87)
   else if (65 <=? n) && (n <=? 70) then Some (n - 55)
   else None)%N.
Arguments hex_value c : simpl never.

(** [buf.toString('hex')]: two lower-case digits per byte. *)
Fixpoint toHex (b : bytes) : string :=
  match b with
  | [] => EmptyString
  | x :: rest =>
      String (hex_digit (Byte.to_N x / 16)%N)
        (String (hex_digit (Byte.to_N x mod 16)%N) (toHex rest))
  end.

(** [Buffer.from(s, 'hex')]: pairs of hex characters are decoded from the
    left; decoding stops at the first pair that is not hex, and a trailing
    single character is dropped.  It never throws on a string. *)
Fixpoint fromHex (s : string) : bytes :=
  match s with
  | String a (String b rest) =>
      match hex_value a, hex_value b with
      | Some h, Some l => byte_of_N (16 * h + l)%N :: fromHex rest
      | _, _ => []
      end
  | _ => []
  end.

(** ** JavaScript values *)

#[local] Set Warnings "-register-all".

Inductive JSValue : Type :=
| VUndefined
| VNull
| VBool (b : bool)
| VNum (n : Z)
| VStr (s : string)
| VArr (items : list JSValue)
| VObj (fields : list (string * JSValue)).

Inductive Platform := Darwin | Win32 | OtherPlatform.

(** ** Numbers

    The numbers of JavaScript are doubles.  The module computes with whole
    numbers only, which are kept as integers: a whole number within 2^53 is
    a double, and the product of two doubles is the double nearest to the
    exact product, the one with the even significand when two are as near.
    A product beyond the largest double, which JavaScript turns into
    [Infinity], is kept as the number it rounds to; [setTimeout], the only
    reader of such a number, treats both alike. *)
Definition nearest_double (z : Z) : Z :=
  let a := Z.abs z in
  if a <=? 2 ^ 53 then z
  else
    let e := Z.log2 a - 52 in
    let q := a / 2 ^ e in
    let r := a mod 2 ^ e in
    let up := negb ((r <? 2 ^ (e - 1)) || ((r =? 2 ^ (e - 1)) && Z.even q)) in
    Z.sgn z * ((if up then q + 1 else q) * 2 ^ e).

(** [a * b] on whole numbers. *)
Definition Number_times (a b : Z) : Z := nearest_double (a * b).

(** ** The collaborators

    What the module consumes from its host: the user-data and application
    directories, the platform name, the SHA-256 digest, Electron's
    [safeStorage] codec, the two halves of
    AES-256-GCM (the CTR key stream and the GHASH tag over the ciphertext)
    and the runtime's [JSON] codec.  [None] stands for a call that throws. *)
Class Runtime := {
  userData : string;
  appPath : string;
  platform : Platform;
  sha256 : bytes -> bytes;
  ss_encrypt : string -> option bytes;
  ss_decrypt : bytes -> option string;
  gcm_keystream : bytes -> bytes -> nat -> byte;
  gcm_mac : bytes -> bytes -> bytes -> bytes;
  JSON_stringify : JSValue -> option string;
  JSON_parse : string -> option JSValue
}.

(** ** The data model *)

(** The settings; [autoLockMinutes] is a whole number of minutes. *)
Record ProtectionSettings := {
  requireBiometric : bool;
  lockOnMinimize : bool;
  autoLockMinutes : Z;
  secureClipboard : bool;
  preventScreenCapture : bool
}.

(** The argument of [saveSettings]: an object holding some of the keys. *)
Record PartialSettings := {
  p_requireBiometric : option bool;
  p_lockOnMinimize : option bool;
  p_autoLockMinutes : option Z;
  p_secureClipboard : option bool;
  p_preventScreenCapture : option bool
}.

(** The object returned by [encrypt]: hex strings and a version number. *)
Record Envelope := {
  iv : string;
  data : string;
  tag : string;
  v : Z
}.

(** The fields of a [SessionProtection] object.  [lockTimeout] is the handle
    returned by [setTimeout], an index into the timer queue. *)
Record SessionProtection := {
  isLocked : bool;
  lockTimeout : option nat;
  lockTimeoutMs : Z;
  settings : ProtectionSettings
}.

(** A file is named by its directory and its base name, the two arguments of
    every [path.join] of the module. *)
Abbreviation Path := (string * string)%type.

Inductive Error :=
| ENOENT | EIO | SafeStorageError | CryptoError | TypeError | SyntaxError.

Inductive Event :=
| EvMkdir (d : string)
| EvWrite (p : Path) (content : bytes)
| EvUnlink (p : Path)
| EvRm (d : string)
| EvLog (level : string) (message : string)
| EvPrompt (reason : string)
| EvGc.

Record FileSystem := {
  dirs : gset string;
  files : gmap Path bytes
}.

(** What the outside world answers.  [io_fault n] tells whether the [n]-th
    fallible file-system call fails with an I/O error, [entropy] is the
    stream read by [crypto.randomBytes], [touch_id n] is the outcome of the
    [n]-th Touch ID prompt. *)
Record Oracles := {
  encryptionAvailable : bool;
  io_fault : nat -> bool;
  entropy : nat -> byte;
  touch_id : nat -> bool;
  gc_exposed : bool
}.

Record Counters := {
  io_tick : nat;
  rng_pos : nat;
  prompts : nat
}.

(** The timer queue of the event loop: due time of every pending timer. *)
Record Timers := {
  now : Z;
  pending : gmap nat Z;
  next_timer : nat
}.

Record Machine := {
  self : SessionProtection;
  fs : FileSystem;
  env : Oracles;
  ticks : Counters;
  loop : Timers;
  trace : list Event
}.

Definition with_self (f : SessionProtection -> SessionProtection) (m : Machine) : Machine :=
  {| self := f (self m); fs := fs m; env := env m; ticks := ticks m;
     loop := loop m; trace := trace m |}.

Definition with_fs (f : FileSystem -> FileSystem) (m : Machine) : Machine :=
  {| self := self m; fs := f (fs m); env := env m; ticks := ticks m;
     loop := loop m; trace := trace m |}.

Definition with_ticks (f : Counters -> Counters) (m : Machine) : Machine :=
  {| self := self m; fs := fs m; env := env m; ticks := f (ticks m);
     loop := loop m; trace := trace m |}.

Definition with_loop (f : Timers -> Timers) (m : Machine) : Machine :=
  {| self := self m; fs := fs m; env := env m; ticks := ticks m;
     loop := f (loop m); trace := trace m |}.

Definition emit (e : Event) (m : Machine) : Machine :=
  {| self := self m; fs := fs m; env := env m; ticks := ticks m;
     loop := loop m; trace := trace m ++ [e] |}.

(** ** The monad of methods: state and exceptions *)

Inductive Result (A : Type) : Type :=
| Ok (a : A)
| Throw (e : Error).
Arguments Ok {A} a.
Arguments Throw {A} e.

Definition M (A : Type) : Type := Machine -> Result A * Machine.

Definition ret {A} (a : A) : M A := fun m => (Ok a, m).

Definition throw {A} (e : Error) : M A := fun m => (Throw e, m).

Definition bind {A B} (c : M A) (k : A -> M B) : M B :=
  fun m =>
    match c m with
    | (Ok a, m') => k a m'
    | (Throw e, m') => (Throw e, m')
    end.

(** [try { c } catch (error) { h error }]: the state reached when [c]
    throws is the state the handler starts from. *)
Definition try_catch {A} (c : M A) (h : Error -> M A) : M A :=
  fun m =>
    match c m with
    | (Ok a, m') => (Ok a, m')
    | (Throw e, m') => h e m'
    end.

Definition gets {A} (f : Machine -> A) : M A := fun m => (Ok (f m), m).

Definition modify (f : Machine -> Machine) : M unit := fun m => (Ok tt, f m).

(** The outcome of running a method and the machine it leaves. *)
Definition result {A} (c : M A) (m : Machine) : Result A := fst (c m).
Definition after {A} (c : M A) (m : Machine) : Machine := snd (c m).

Definition result_value {A} (r : Result A) : option A :=
  match r with
  | Ok a => Some a
  | Throw _ => None
  end.

Declare Scope js_scope.
Delimit Scope js_scope with js.
Notation "'let*' x ':=' c 'in' k" := (bind c (fun x => k))
  (at level 10, x name, c at level 100, k at level 200) : js_scope.
Notation "c ';;' k" := (bind c (fun _ => k))
  (at level 100, k at level 200, right associativity) : js_scope.
Local Open Scope js_scope.

(** [for (let i = 0; i < n; i++) body]. *)
Fixpoint for_loop (n : nat) (body : M unit) : M unit :=
  match n with
  | O => ret tt
  | S n' => body ;; for_loop n' body
  end.

(** ** The primitives of the host *)

Section Host.
Context `{RT : Runtime}.

(** [console.error], [console.warn]: one trace entry. *)
Definition console (level message : string) : M unit :=
  modify (emit (EvLog level message)).

(** Every fallible file-system call first consults the fault oracle. *)
Definition io_step : M unit :=
  fun m =>
    let t := io_tick (ticks m) in
    let m' := with_ticks (fun c => {| io_tick := S t; rng_pos := rng_pos c;
                                      prompts := prompts c |}) m in
    if io_fault (env m) t then (Throw EIO, m') else (Ok tt, m').

(** [fs.existsSync] never throws. *)
Definition existsSync_file (p : Path) : M bool :=
  gets (fun m => bool_decide (is_Some (files (fs m) !! p))).

Definition existsSync_dir (d : string) : M bool :=
  gets (fun m => bool_decide (d ∈ dirs (fs m))).

(** [fs.mkdirSync(d, { recursive: true, mode: 0o700 })]; the directories
    above [d], which the call creates as well, are not recorded. *)
Definition mkdirSync (d : string) : M unit :=
  io_step ;;
  modify (fun m => emit (EvMkdir d)
            (with_fs (fun f => {| dirs := {[d]} ∪ dirs f; files := files f |}) m)).

Definition readFileSync (p : Path) : M bytes :=
  io_step ;;
  let* content := gets (fun m => files (fs m) !! p) in
  match content with
  | Some b => ret b
  | None => throw ENOENT
  end.

(** [fs.writeFileSync(p, content)]: creates or replaces the file; fails when
    the directory of [p] does not exist. *)
Definition writeFileSync (p : Path) (content : bytes) : M unit :=
  io_step ;;
  let* has_dir := existsSync_dir (fst p) in
  if has_dir then
    modify (fun m => emit (EvWrite p content)
              (with_fs (fun f => {| dirs := dirs f; files := <[p := content]> (files f) |}) m))
  else throw ENOENT.

(** [fs.statSync(p).size]. *)
Definition statSync_size (p : Path) : M nat :=
  io_step ;;
  let* content := gets (fun m => files (fs m) !! p) in
  match content with
  | Some b => ret (length b)
  | None => throw ENOENT
  end.

Definition unlinkSync (p : Path) : M unit :=
  io_step ;;
  let* present := existsSync_file p in
  if present then
    modify (fun m => emit (EvUnlink p)
              (with_fs (fun f => {| dirs := dirs f; files := delete p (files f) |}) m))
  else throw ENOENT.

(** [x] is [d] or lies below it. *)
Definition under (d x : string) : bool :=
  bool_decide (x = d) || String.prefix (d +:+ "/") x.

(** [fs.rmSync(d, { recursive: true, force: true })]: removes [d] with all
    that it holds; a missing [d] is not an error. *)
Definition rmSync (d : string) : M unit :=
  io_step ;;
  modify (fun m => emit (EvRm d)
            (with_fs (fun f =>
               {| dirs := filter (fun x => under d x = false) (dirs f);
                  files := filter (fun kv => under d (fst (fst kv)) = false) (files f) |}) m)).

(** [crypto.randomBytes(n)]: the next [n] bytes of the entropy stream. *)
Definition randomBytes (n : nat) : M bytes :=
  fun m =>
    let pos := rng_pos (ticks m) in
    (Ok (map (entropy (env m)) (seq pos n)),
     with_ticks (fun c => {| io_tick := io_tick c; rng_pos := (pos + n)%nat;
                             prompts := prompts c |}) m).

(** [Buffer.alloc(n)]. *)
Definition Buffer_alloc (n : nat) : bytes := repeat x00 n.

(** *** safeStorage *)

Definition isEncryptionAvailable : M bool :=
  gets (fun m => encryptionAvailable (env m)).

Definition encryptString (s : string) : M bytes :=
  let* available := isEncryptionAvailable in
  if available then
    match ss_encrypt s with
    | Some b => ret b
    | None => throw SafeStorageError
    end
  else throw SafeStorageError.

Definition decryptString (b : bytes) : M string :=
  let* available := isEncryptionAvailable in
  if available then
    match ss_decrypt b with
    | Some s => ret s
    | None => throw SafeStorageError
    end
  else throw SafeStorageError.

(** *** AES-256-GCM

    GCM is counter mode followed by a tag over the ciphertext: the
    ciphertext is the plaintext xored with the key stream of (key, iv), the
    tag is [gcm_mac key iv ciphertext], and decryption releases the
    plaintext only if the presented tag matches. *)

Definition crypt_from (key iv : bytes) (start : nat) (input : bytes) : bytes :=
  map (fun '(i, x) => byte_xor x (gcm_keystream key iv i))
      (combine (seq start (length input)) input).

Definition gcm_crypt (key iv input : bytes) : bytes := crypt_from key iv 0 input.

(** [crypto.createCipheriv('aes-256-gcm', key, iv)] and
    [crypto.createDecipheriv]: the key is 32 bytes and the iv is not empty,
    or the call throws. *)
Definition createCipheriv (key iv : bytes) : M (bytes * bytes) :=
  if (length key =? 32)%nat && negb (length iv =? 0)%nat
  then ret (key, iv) else throw CryptoError.

Definition createDecipheriv (key iv : bytes) : M (bytes * bytes) :=
  createCipheriv key iv.

(** [cipher.update(text, 'utf8', 'hex') + cipher.final('hex')]. *)
Definition cipher_update_final (cipher : bytes * bytes) (text : string) : string :=
  toHex (gcm_crypt (fst cipher) (snd cipher) (utf8_encode text)).

(** [cipher.getAuthTag()], after [final]. *)
Definition getAuthTag (cipher : bytes * bytes) (text : string) : bytes :=
  gcm_mac (fst cipher) (snd cipher)
    (gcm_crypt (fst cipher) (snd cipher) (utf8_encode text)).

(** [decipher.setAuthTag(tag)]: a tag of 4, 8 or 12 to 16 bytes, or the call
    throws. *)
Definition valid_tag_length (n : nat) : bool :=
  (n =? 4)%nat || (n =? 8)%nat || ((12 <=? n)%nat && (n <=? 16)%nat).

Definition setAuthTag (authTag : bytes) : M unit :=
  if valid_tag_length (length authTag) then ret tt else throw CryptoError.

(** [decipher.update(data, 'hex', 'utf8') + decipher.final('utf8')]:
    [update] rejects a hex string of odd length; [final] throws unless the
    tag set before is the leading part, of the length set, of the tag of the
    ciphertext. *)
Definition decipher_update_final (decipher : bytes * bytes) (authTag : bytes)
    (data : string) : M string :=
  if Nat.odd (String.length data) then throw TypeError
  else
    let ciphertext := fromHex data in
    let expected := gcm_mac (fst decipher) (snd decipher) ciphertext in
    if bool_decide (authTag = take (length authTag) expected)
    then ret (utf8_decode (gcm_crypt (fst decipher) (snd decipher) ciphertext))
    else throw CryptoError.

(** [JSON.stringify(data)] as the argument of [cipher.update]: a value that
    [JSON.stringify] rejects, or maps to [undefined], makes the statement
    throw. *)
Definition stringify (data : JSValue) : M string :=
  match JSON_stringify data with
  | Some text => ret text
  | None => throw TypeError
  end.

Definition parse (text : string) : M JSValue :=
  match JSON_parse text with
  | Some value => ret value
  | None => throw SyntaxError
  end.

(** *** Timers

    [setTimeout(callback, ms)]: Node replaces a delay below 1 or above
    2^31-1 by 1.  The only callback the module ever registers is
    [() => this.lock()], so a pending timer is its due time. *)
Definition timer_delay (ms : Z) : Z :=
  if (1 <=? ms) && (ms <=? 2147483647) then ms else 1.

Definition setTimeout (ms : Z) : M nat :=
  fun m =>
    let id := next_timer (loop m) in
    (Ok id,
     with_loop (fun l => {| now := now l;
                            pending := <[id := now l + timer_delay ms]> (pending l);
                            next_timer := S id |}) m).

Definition clearTimeout (id : nat) : M unit :=
  modify (with_loop (fun l => {| now := now l; pending := delete id (pending l);
                                 next_timer := next_timer l |})).

(** [systemPreferences.promptTouchID(reason)]: resolves or rejects. *)
Definition promptTouchID (reason : string) : M unit :=
  fun m =>
    let n := prompts (ticks m) in
    let m' := emit (EvPrompt reason)
                (with_ticks (fun c => {| io_tick := io_tick c; rng_pos := rng_pos c;
                                         prompts := S n |}) m) in
    if touch_id (env m) n then (Ok tt, m') else (Throw EIO, m').

End Host.

(** ** The class [SessionProtection] *)

Section Methods.
Context `{RT : Runtime}.

(** [path.join(app.getPath('userData'), 'secure-session')] and the three
    files kept in it. *)
Definition dataPath : string := userData +:+ "/" +:+ "secure-session".
Definition keyFile : Path := (dataPath, ".session-key").
Definition configFile : Path := (dataPath, ".security-config").
Definition integrityFile : Path := (dataPath, ".integrity").

Definition default_settings : ProtectionSettings :=
  {| requireBiometric := false;
     lockOnMinimize := false;
     autoLockMinutes := 30;
     secureClipboard := true;
     preventScreenCapture := false |}.

(** The assignments at the head of the constructor. *)
Definition new_object : SessionProtection :=
  {| isLocked := false;
     lockTimeout := None;
     lockTimeoutMs := 30 * 60 * 1000;
     settings := default_settings |}.

Definition set_isLocked (b : bool) : M unit :=
  modify (with_self (fun o =>
    {| isLocked := b; lockTimeout := lockTimeout o;
       lockTimeoutMs := lockTimeoutMs o; settings := settings o |})).

Definition set_lockTimeout (h : option nat) : M unit :=
  modify (with_self (fun o =>
    {| isLocked := isLocked o; lockTimeout := h;
       lockTimeoutMs := lockTimeoutMs o; settings := settings o |})).

Definition set_lockTimeoutMs (ms : Z) : M unit :=
  modify (with_self (fun o =>
    {| isLocked := isLocked o; lockTimeout := lockTimeout o;
       lockTimeoutMs := ms; settings := settings o |})).

Definition set_settings (s : ProtectionSettings) : M unit :=
  modify (with_self (fun o =>
    {| isLocked := isLocked o; lockTimeout := lockTimeout o;
       lockTimeoutMs := lockTimeoutMs o; settings := s |})).

(** [{ ...settings, ...newSettings }]. *)
Definition merge_settings (s : ProtectionSettings) (p : PartialSettings) : ProtectionSettings :=
  {| requireBiometric := default (requireBiometric s) (p_requireBiometric p);
     lockOnMinimize := default (lockOnMinimize s) (p_lockOnMinimize p);
     autoLockMinutes := default (autoLockMinutes s) (p_autoLockMinutes p);
     secureClipboard := default (secureClipboard s) (p_secureClipboard p);
     preventScreenCapture := default (preventScreenCapture s) (p_preventScreenCapture p) |}.

(** The settings object as a JavaScript value, keys in insertion order. *)
Definition settings_value (s : ProtectionSettings) : JSValue :=
  VObj [ ("requireBiometric", VBool (requireBiometric s));
         ("lockOnMinimize", VBool (lockOnMinimize s));
         ("autoLockMinutes", VNum (autoLockMinutes s));
         ("secureClipboard", VBool (secureClipboard s));
         ("preventScreenCapture", VBool (preventScreenCapture s)) ].

(** *** Construction *)

Definition _initSecureDirectory : M unit :=
  try_catch
    (let* present := existsSync_dir dataPath in
     if negb present then mkdirSync dataPath else ret tt)
    (fun error => console "error" "Error creating secure directory:").

(** The keys of a parsed settings file that the module reads back; when a
    key occurs twice the last occurrence counts, and a value of another
    type than the setting's is left out. *)
Fixpoint lookup_field (key : string) (fields : list (string * JSValue)) : option JSValue :=
  match fields with
  | [] => None
  | (k, item) :: rest =>
      match lookup_field key rest with
      | Some later => Some later
      | None => if String.eqb k key then Some item else None
      end
  end.

Definition as_bool (item : option JSValue) : option bool :=
  match item with Some (VBool b) => Some b | _ => None end.

Definition as_number (item : option JSValue) : option Z :=
  match item with Some (VNum n) => Some n | _ => None end.

Definition partial_of_value (value : JSValue) : PartialSettings :=
  match value with
  | VObj fields =>
      {| p_requireBiometric := as_bool (lookup_field "requireBiometric" fields);
         p_lockOnMinimize := as_bool (lookup_field "lockOnMinimize" fields);
         p_autoLockMinutes := as_number (lookup_field "autoLockMinutes" fields);
         p_secureClipboard := as_bool (lookup_field "secureClipboard" fields);
         p_preventScreenCapture := as_bool (lookup_field "preventScreenCapture" fields) |}
  | _ =>
      {| p_requireBiometric := None; p_lockOnMinimize := None;
         p_autoLockMinutes := None; p_secureClipboard := None;
         p_preventScreenCapture := None |}
  end.

Definition _loadSettings : M unit :=
  try_catch
    (let* present := existsSync_file configFile in
     if present then
       let* encryptedConfig := readFileSync configFile in
       let* available := isEncryptionAvailable in
       if available then
         let* decrypted := decryptString encryptedConfig in
         let* parsed := parse decrypted in
         let* current := gets (fun m => settings (self m)) in
         set_settings (merge_settings current (partial_of_value parsed))
       else ret tt
     else ret tt)
    (fun error => console "error" "Error loading security settings:").

(** [storedData.split(':')[1]]: the text between the first colon and the
    next one, [undefined] when there is no colon. *)
Fixpoint up_to_colon (s : string) : string :=
  match s with
  | EmptyString => EmptyString
  | String c rest => if Ascii.eqb c ":" then EmptyString else String c (up_to_colon rest)
  end.

Fixpoint second_field (s : string) : option string :=
  match s with
  | EmptyString => None
  | String c rest => if Ascii.eqb c ":" then Some (up_to_colon rest) else second_field rest
  end.

Definition mainFile : Path := (appPath +:+ "/" +:+ "src", "main.js").

Definition _verifyIntegrity : M unit :=
  try_catch
    (let* present := existsSync_file mainFile in
     if present then
       let* content := readFileSync mainFile in
       let currentHash := toHex (sha256 content) in
       let* recorded := existsSync_file integrityFile in
       if recorded then
         let* storedData := readFileSync integrityFile in
         match second_field (utf8_decode storedData) with
         | Some storedHash =>
             if negb (String.eqb storedHash EmptyString)
                && negb (String.eqb storedHash currentHash)
             then console "warn" "App integrity check failed - files may have been modified"
             else ret tt
         | None => ret tt
         end
       else writeFileSync integrityFile (utf8_encode ("main:" +:+ currentHash))
     else ret tt)
    (fun error => console "error" "Integrity check error:").

Definition constructor : M unit :=
  modify (with_self (fun _ => new_object)) ;;
  _initSecureDirectory ;;
  _loadSettings ;;
  _verifyIntegrity.

(** *** Settings store

    [autoLockMinutes] is a whole number of minutes, as in every call of the
    application (15, 30, 60 and 0); the timeout is the product
    [autoLockMinutes * 60 * 1000] as JavaScript computes it, from the
    left. *)

Definition saveSettings (newSettings : PartialSettings) : M bool :=
  try_catch
    (let* current := gets (fun m => settings (self m)) in
     set_settings (merge_settings current newSettings) ;;
     let* merged := gets (fun m => settings (self m)) in
     set_lockTimeoutMs (Number_times (Number_times (autoLockMinutes merged) 60) 1000) ;;
     let* available := isEncryptionAvailable in
     (if available then
        let* text := stringify (settings_value merged) in
        let* encrypted := encryptString text in
        writeFileSync configFile encrypted
      else ret tt) ;;
     ret true)
    (fun error =>
       console "error" "Error saving security settings:" ;;
       ret false).

(** *** Key manager *)

Definition saveSessionKey (key : string) : M unit :=
  try_catch
    (let* available := isEncryptionAvailable in
     if available then
       let* encryptedKey := encryptString key in
       writeFileSync keyFile encryptedKey
     else
       console "warn" "Secure storage not available - using fallback" ;;
       writeFileSync keyFile (utf8_encode key))
    (fun error => console "error" "Error saving session key:").

Definition getSessionKey : M string :=
  try_catch
    (let* present := existsSync_file keyFile in
     if present then
       let* encryptedKey := readFileSync keyFile in
       let* available := isEncryptionAvailable in
       if available then decryptString encryptedKey
       else ret (utf8_decode encryptedKey)
     else
       let* fresh := randomBytes 32 in
       let newKey := toHex fresh in
       saveSessionKey newKey ;;
       ret newKey)
    (fun error =>
       console "error" "Error retrieving session key:" ;;
       let* fresh := randomBytes 32 in
       let newKey := toHex fresh in
       saveSessionKey newKey ;;
       ret newKey).

(** *** Cipher

    [encrypt] returns the envelope, or [null] ([None]) when anything in its
    body throws.  [decrypt] takes what the caller passes, an envelope or
    [null], and returns the parsed value, or [null] ([VNull]) when anything
    in its body throws. *)

Definition encrypt (payload : JSValue) : M (option Envelope) :=
  try_catch
    (let* sessionKey := getSessionKey in
     let key := fromHex sessionKey in
     let* nonce := randomBytes 16 in
     let* cipher := createCipheriv key nonce in
     let* text := stringify payload in
     let encrypted := cipher_update_final cipher text in
     let authTag := getAuthTag cipher text in
     ret (Some {| iv := toHex nonce;
                  data := encrypted;
                  tag := toHex authTag;
                  v := 2 |}))
    (fun error =>
       console "error" "Encryption error:" ;;
       ret None).

Definition decrypt (encryptedData : option Envelope) : M JSValue :=
  try_catch
    (let* sessionKey := getSessionKey in
     let key := fromHex sessionKey in
     match encryptedData with
     | None => throw TypeError
     | Some envelope =>
         let nonce := fromHex (iv envelope) in
         let authTag := fromHex (tag envelope) in
         let* decipher := createDecipheriv key nonce in
         setAuthTag authTag ;;
         let* decrypted := decipher_update_final decipher authTag (data envelope) in
         parse decrypted
     end)
    (fun error =>
       console "error" "Decryption error:" ;;
       ret VNull).

(** *** Lock state machine *)

Definition clearLockTimeout : M unit :=
  let* handle := gets (fun m => lockTimeout (self m)) in
  match handle with
  | Some id => clearTimeout id ;; set_lockTimeout None
  | None => ret tt
  end.

Definition lock : M bool :=
  set_isLocked true ;;
  clearLockTimeout ;;
  let* gc := gets (fun m => gc_exposed (env m)) in
  (if gc then modify (emit EvGc) else ret tt) ;;
  ret true.

Definition resetLockTimeout : M unit :=
  clearLockTimeout ;;
  let* ms := gets (fun m => lockTimeoutMs (self m)) in
  let* id := setTimeout ms in
  set_lockTimeout (Some id).

Definition authenticateWithBiometrics (reason : string) : M bool :=
  try_catch
    (match platform with
     | Darwin => promptTouchID reason ;; ret true
     | Win32 => ret true
     | OtherPlatform => ret false
     end)
    (fun error =>
       console "error" "Biometric authentication failed:" ;;
       ret false).

Definition unlock_granted : M bool :=
  set_isLocked false ;;
  resetLockTimeout ;;
  ret true.

Definition unlock (useBiometric : bool) : M bool :=
  let* required := gets (fun m => requireBiometric (settings (self m))) in
  if useBiometric && required then
    let* authenticated := authenticateWithBiometrics "Unlock WlfRyt Google Calendar" in
    if negb authenticated then ret false else unlock_granted
  else unlock_granted.

(** The event loop left idle for [dt] milliseconds: the clock advances and
    every timer that has come due, and is still pending when its turn
    comes, is taken off the queue and runs its callback, [this.lock()]. *)
Fixpoint fire (ids : list nat) : M unit :=
  match ids with
  | [] => ret tt
  | id :: rest =>
      let* entry := gets (fun m => pending (loop m) !! id) in
      match entry with
      | Some _ => clearTimeout id ;; lock ;; fire rest
      | None => fire rest
      end
  end.

Definition due_timers (t : Z) (l : Timers) : list nat :=
  map fst (map_to_list (filter (fun kv => snd kv <= t) (pending l))).

Definition elapse (dt : Z) : M unit :=
  modify (with_loop (fun l => {| now := now l + dt; pending := pending l;
                                 next_timer := next_timer l |})) ;;
  let* l := gets loop in
  fire (due_timers (now l) l).

(** *** Secure eraser *)

Definition secureDelete (filePath : Path) : M unit :=
  let* present := existsSync_file filePath in
  if present then
    let* size := statSync_size filePath in
    let n := if (size =? 0)%nat then 256%nat else size in
    for_loop 3 (let* randomData := randomBytes n in
                writeFileSync filePath randomData) ;;
    writeFileSync filePath (Buffer_alloc n) ;;
    unlinkSync filePath
  else ret tt.

(** The body of the [try] block of [clearAllData]. *)
Definition erase_everything : M bool :=
  secureDelete keyFile ;;
  secureDelete configFile ;;
  secureDelete integrityFile ;;
  let* present := existsSync_dir dataPath in
  (if present then rmSync dataPath else ret tt) ;;
  ret true.

Definition clearAllData : M bool :=
  try_catch erase_everything
    (fun error =>
       console "error" "Error clearing session data:" ;;
       ret false).

(** *** Status and helpers *)

Definition isSecureStorageAvailable : M bool := isEncryptionAvailable.

(** [hashData(data)]. *)
Definition hashData (content : bytes) : string := toHex (sha256 content).

Record SecurityStatus := {
  st_isLocked : bool;
  st_secureStorageAvailable : bool;
  st_sessionProtected : bool;
  st_encryptionAlgorithm : string;
  st_keyStorage : string;
  st_autoLockMinutes : Z;
  st_integrityVerified : bool;
  st_settings : ProtectionSettings
}.

Definition getSecurityStatus : M SecurityStatus :=
  let* locked := gets (fun m => isLocked (self m)) in
  let* available := isSecureStorageAvailable in
  let* protected := existsSync_file keyFile in
  let* available' := isEncryptionAvailable in
  let* minutes := gets (fun m => autoLockMinutes (settings (self m))) in
  let* verified := existsSync_file integrityFile in
  let* current := gets (fun m => settings (self m)) in
  ret {| st_isLocked := locked;
         st_secureStorageAvailable := available;
         st_sessionProtected := protected;
         st_encryptionAlgorithm := "AES-256-GCM";
         st_keyStorage := if available' then "OS Keychain (DPAPI/Keychain)"
                          else "File-based (fallback)";
         st_autoLockMinutes := minutes;
         st_integrityVerified := verified;
         st_settings := current |}.

End Methods.

(** ** Vocabulary of the statements *)

(** [wp c Q m]: running [c] from [m] ends in an outcome and a machine that
    satisfy [Q]. *)
Definition wp {A} (c : M A) (Q : Result A -> Machine -> Prop) (m : Machine) : Prop :=
  Q (result c m) (after c m).

(** The machine after one more fallible file-system call. *)
Definition ticked (m : Machine) : Machine :=
  with_ticks (fun c => {| io_tick := S (io_tick c); rng_pos := rng_pos c;
                          prompts := prompts c |}) m.

(** The bytes that [crypto.randomBytes(n)] draws from [m], and the machine
    it leaves. *)
Definition drawn (n : nat) (m : Machine) : bytes :=
  map (entropy (env m)) (seq (rng_pos (ticks m)) n).

Definition advanced (n : nat) (m : Machine) : Machine :=
  with_ticks (fun c => {| io_tick := io_tick c; rng_pos := (rng_pos c + n)%nat;
                          prompts := prompts c |}) m.


(** The timer queue once the handle held by the object has been cleared. *)
Definition queue_cleared (m : Machine) : gmap nat Z :=
  match lockTimeout (self m) with
  | Some id => delete id (pending (loop m))
  | None => pending (loop m)
  end.

(** The argument [{ autoLockMinutes: n }] of [saveSettings]. *)
Definition auto_lock_only (n : Z) : PartialSettings :=
  {| p_requireBiometric := None; p_lockOnMinimize := None;
     p_autoLockMinutes := Some n; p_secureClipboard := None;
     p_preventScreenCapture := None |}.

(** *** Secure erasure

    [pass_length] is [stats.size || 256], the length of every overwrite.
    [erasure_events p m] is what erasing [p] from [m] adds to the trace when
    nothing fails: three overwrites with successive stretches of the random
    source, one with zeros, and the unlink.  [erase p m] is the machine it
    leaves. *)
Definition pass_length (content : bytes) : nat :=
  if (length content =? 0)%nat then 256%nat else length content.

Definition erasure_events (p : Path) (m : Machine) : list Event :=
  match files (fs m) !! p with
  | Some content =>
      let n := pass_length content in
      let pos := rng_pos (ticks m) in
      let random := entropy (env m) in
      [ EvWrite p (map random (seq pos n));
        EvWrite p (map random (seq (pos + n) n));
        EvWrite p (map random (seq (pos + n + n) n));
        EvWrite p (Buffer_alloc n);
        EvUnlink p ]
  | None => []
  end.

Definition erase (p : Path) (m : Machine) : Machine :=
  match files (fs m) !! p with
  | Some content =>
      {| self := self m;
         fs := {| dirs := dirs (fs m); files := delete p (files (fs m)) |};
         env := env m;
         ticks := {| io_tick := (6 + io_tick (ticks m))%nat;
                     rng_pos := (rng_pos (ticks m) + pass_length content
                                 + pass_length content + pass_length content)%nat;
                     prompts := prompts (ticks m) |};
         loop := loop m;
         trace := trace m ++ erasure_events p m |}
  | None => m
  end.



(** The machine after [fs.rmSync(d, { recursive: true, force: true })]. *)
Definition removed (d : string) (m : Machine) : Machine :=
  emit (EvRm d)
    (with_fs (fun f =>
       {| dirs := filter (fun x => under d x = false) (dirs f);
          files := filter (fun kv => under d (fst (fst kv)) = false) (files f) |})
       (ticked m)).


(** The events that a run from [m] to [m'] added to the trace. *)
Definition new_events (m m' : Machine) : list Event :=
  drop (length (trace m)) (trace m').

(** No file-system call fails from now on. *)
Definition fault_free (m : Machine) : Prop :=
  forall n, (io_tick (ticks m) <= n)%nat -> io_fault (env m) n = false.

Section Vocabulary.
Context `{RT : Runtime}.

(** What the key file holds for a key, and the key read back from a
    content: through [safeStorage] when it is available, raw otherwise. *)
Definition stored_key (available : bool) (key : string) : option bytes :=
  if available then ss_encrypt key else Some (utf8_encode key).

Definition read_key (available : bool) (content : bytes) : option string :=
  if available then ss_decrypt content else Some (utf8_decode content).

(** A session key is 256 bits: its hex text decodes to 32 bytes. *)
Definition key_256 (sessionKey : string) : Prop := length (fromHex sessionKey) = 32%nat.

(** A payload is JSON-serializable when [JSON.stringify] gives a text that
    [JSON.parse] reads back as the payload. *)
Definition json_serializable (payload : JSValue) : Prop :=
  exists text, JSON_stringify payload = Some text /\ JSON_parse text = Some payload.

(** The envelope that [encrypt] builds from the session key, the iv it drew
    and the JSON text, and the value that [decrypt] extracts from an
    envelope under a session key ([None] when its body throws). *)
Definition seal_envelope (sessionKey : string) (nonce : bytes) (text : string) : Envelope :=
  let key := fromHex sessionKey in
  let ciphertext := gcm_crypt key nonce (utf8_encode text) in
  {| iv := toHex nonce;
     data := toHex ciphertext;
     tag := toHex (gcm_mac key nonce ciphertext);
     v := 2 |}.

Definition open_envelope (sessionKey : string) (envelope : Envelope) : option JSValue :=
  let key := fromHex sessionKey in
  let nonce := fromHex (iv envelope) in
  let authTag := fromHex (tag envelope) in
  let ciphertext := fromHex (data envelope) in
  if (length key =? 32)%nat && negb (length nonce =? 0)%nat
     && valid_tag_length (length authTag)
     && negb (Nat.odd (String.length (data envelope)))
     && bool_decide (authTag = take (length authTag) (gcm_mac key nonce ciphertext))
  then JSON_parse (utf8_decode (gcm_crypt key nonce ciphertext))
  else None.


(** What the key manager and the cipher leave alone: the oracles, the
    object, the timers, the directories, every file but the key file; the
    counters only grow. *)
Definition key_frame (m m' : Machine) : Prop :=
  env m' = env m /\ self m' = self m /\ loop m' = loop m /\
  dirs (fs m') = dirs (fs m) /\
  (rng_pos (ticks m) <= rng_pos (ticks m'))%nat /\
  (io_tick (ticks m) <= io_tick (ticks m'))%nat /\
  prompts (ticks m') = prompts (ticks m) /\
  forall p, p <> keyFile -> files (fs m') !! p = files (fs m) !! p.

(** Sixteen-byte ivs, distinct for distinct small numbers. *)
Definition numbered_iv (i : nat) : bytes :=
  byte_of_N (N.of_nat i) :: byte_of_N (N.of_nat (i / 256)) :: repeat x00 14.

(** The tag is 128 bits long. *)
Definition tag_128 : Prop :=
  forall key nonce ciphertext, length (gcm_mac key nonce ciphertext) = 16%nat.


End Vocabulary.



(** *** Settings

    The value that [JSON.stringify] receives for the settings [s]: the five
    keys in the order of the constructor.  [exact_minutes]: a whole number
    of minutes whose product in milliseconds stays within 2^53, where the
    arithmetic of JavaScript is exact. *)
Definition settings_document (s : ProtectionSettings) : JSValue :=
  VObj [ ("requireBiometric", VBool (requireBiometric s));
         ("lockOnMinimize", VBool (lockOnMinimize s));
         ("autoLockMinutes", VNum (autoLockMinutes s));
         ("secureClipboard", VBool (secureClipboard s));
         ("preventScreenCapture", VBool (preventScreenCapture s)) ].

Definition exact_minutes (minutes : Z) : Prop :=
  Z.abs (minutes * 60 * 1000) <= 2 ^ 53.

(** *** Timers *)

(** Every pending timer is the one whose handle the object holds. *)
Definition timers_owned (m : Machine) : Prop :=
  forall id, is_Some (pending (loop m) !! id) -> lockTimeout (self m) = Some id.

(** The machine once the clock has advanced by [dt] and no timer has run. *)
Definition later (dt : Z) (m : Machine) : Machine :=
  with_loop (fun l => {| now := now l + dt; pending := pending l;
                         next_timer := next_timer l |}) m.

Section TimersVocabulary.
Context `{RT : Runtime}.

(** What the platform answers to a biometric request made from [m]. *)
Definition biometric_answer (m : Machine) : bool :=
  match platform with
  | Darwin => touch_id (env m) (prompts (ticks m))
  | Win32 => true
  | OtherPlatform => false
  end.

End TimersVocabulary.

(** ** The main process

    [main.js] holds one [SessionProtection] object, the variables
    [mainWindow], [lockWindow] and [focusLostTime], and two switches of its
    settings store that decide what minimising and closing do.  A window is
    kept as what the user sees of it; [tracked] tells whether the main
    window carries the two activity handlers that [whenReady] attaches to
    the window it creates.  The process is followed while it is not
    quitting. *)

Inductive WindowState := Shown | Hidden | Minimized.

Record Shell := {
  session : Machine;
  mainWindow : option WindowState;
  tracked : bool;
  lockWindow : bool;
  focusLostTime : option Z;
  minimizeToTray : bool;
  closeToTray : bool
}.

Definition with_session (f : Machine -> Machine) (s : Shell) : Shell :=
  {| session := f (session s); mainWindow := mainWindow s; tracked := tracked s;
     lockWindow := lockWindow s; focusLostTime := focusLostTime s;
     minimizeToTray := minimizeToTray s; closeToTray := closeToTray s |}.

(** [if (mainWindow) mainWindow.hide()] and the like. *)
Definition with_mainWindow (w : WindowState) (s : Shell) : Shell :=
  {| session := session s;
     mainWindow := match mainWindow s with Some _ => Some w | None => None end;
     tracked := tracked s; lockWindow := lockWindow s;
     focusLostTime := focusLostTime s;
     minimizeToTray := minimizeToTray s; closeToTray := closeToTray s |}.

Definition with_lockWindow (b : bool) (s : Shell) : Shell :=
  {| session := session s; mainWindow := mainWindow s; tracked := tracked s;
     lockWindow := b; focusLostTime := focusLostTime s;
     minimizeToTray := minimizeToTray s; closeToTray := closeToTray s |}.

Definition with_focusLostTime (t : option Z) (s : Shell) : Shell :=
  {| session := session s; mainWindow := mainWindow s; tracked := tracked s;
     lockWindow := lockWindow s; focusLostTime := t;
     minimizeToTray := minimizeToTray s; closeToTray := closeToTray s |}.

Section MainProcess.
Context `{RT : Runtime}.

(** A method of [sessionProtection] called for its effect. *)
Definition call {A} (c : M A) (s : Shell) : Shell := with_session (after c) s.

Definition lockSession (s : Shell) : Shell :=
  if lockWindow s then s
  else with_lockWindow true (with_mainWindow Hidden (call lock s)).

(** [sessionProtection.unlock()] is called without an argument:
    [useBiometric] takes its default, [false]. *)
Definition unlockSession (s : Shell) : Shell :=
  with_mainWindow Shown (with_lockWindow false (call (unlock false) s)).

(** [ipcMain.handle('lock-session', ...)] and [('is-locked', ...)]. *)
Definition ipc_lock_session (s : Shell) : bool * Shell :=
  if isLocked (self (session s)) then (false, unlockSession s)
  else (true, lockSession s).

Definition ipc_is_locked (s : Shell) : bool := isLocked (self (session s)).

(** [ipcMain.handle('clear-session', ...)]: [storageCleared] tells whether
    the promise of [clearStorageData()] resolves; the outcome of
    [clearAllData()] is awaited and dropped. *)
Definition ipc_clear_session (storageCleared : bool) (s : Shell) : Result bool * Shell :=
  if storageCleared then (Ok true, call clearAllData s) else (Throw EIO, s).

(** The click handlers of the Security menu. *)
Definition lock_on_minimize_only (checked : bool) : PartialSettings :=
  {| p_requireBiometric := None; p_lockOnMinimize := Some checked;
     p_autoLockMinutes := None; p_secureClipboard := None;
     p_preventScreenCapture := None |}.

Definition menu_lock_on_minimize (checked : bool) (s : Shell) : Shell :=
  call (saveSettings (lock_on_minimize_only checked)) s.

Definition menu_auto_lock (minutes : Z) (s : Shell) : Shell :=
  call (saveSettings (auto_lock_only minutes)) s.

Definition menu_auto_lock_never (s : Shell) : Shell :=
  call clearLockTimeout (call (saveSettings (auto_lock_only 0)) s).

(** The handlers of the main window: ['minimize'], ['close'], ['blur'], the
    two ['focus'] handlers in the order of their registration, and
    ['before-input-event']. *)
Definition on_minimize (s : Shell) : Shell :=
  let s1 := if lockOnMinimize (settings (self (session s))) then lockSession s else s in
  if minimizeToTray s1 then with_mainWindow Hidden s1 else s1.

Definition on_close (s : Shell) : Shell :=
  if closeToTray s then with_mainWindow Hidden s
  else {| session := session s; mainWindow := None; tracked := false;
          lockWindow := lockWindow s; focusLostTime := focusLostTime s;
          minimizeToTray := minimizeToTray s; closeToTray := closeToTray s |}.

Definition on_blur (s : Shell) : Shell :=
  with_focusLostTime (Some (now (loop (session s)))) s.

Definition on_focus_first (s : Shell) : Shell :=
  let away :=
    match focusLostTime s with
    | Some t => negb (t =? 0) && (5 * 60 * 1000 <? now (loop (session s)) - t)
    | None => false
    end in
  let s1 :=
    if away && (0 <? autoLockMinutes (settings (self (session s))))
    then call resetLockTimeout s else s in
  with_focusLostTime None s1.

Definition on_focus_second (s : Shell) : Shell := call resetLockTimeout s.

Definition on_focus (s : Shell) : Shell :=
  let s1 := on_focus_first s in
  if tracked s1 then on_focus_second s1 else s1.

Definition on_before_input (s : Shell) : Shell :=
  if tracked s then call resetLockTimeout s else s.

(** The tray entry "Open Google Calendar" and the double click. *)
Definition tray_open (s : Shell) : Shell := with_mainWindow Shown s.

(** [app.on('activate', ...)]: a main window is created when no window is
    left; the window so created carries the handlers of [createWindow]
    only. *)
Definition on_activate (s : Shell) : Shell :=
  match mainWindow s, lockWindow s with
  | None, false =>
      {| session := session s; mainWindow := Some Shown; tracked := false;
         lockWindow := false; focusLostTime := None;
         minimizeToTray := minimizeToTray s; closeToTray := closeToTray s |}
  | _, _ => s
  end.

(** What reaches the main process: the requests of the renderers, the
    clicks in the menus (the entry "Lock Session" of the File menu and of
    the tray, like the power monitor's ['lock-screen'] and ['suspend'], is
    one call of [lockSession]), the events of the windows, and time that
    passes with nothing else happening. *)
Inductive Input :=
| IpcLockSession
| IpcIsLocked
| IpcClearSession (storageCleared : bool)
| LockSessionRequested
| MenuLockOnMinimize (checked : bool)
| MenuAutoLock (minutes : Z)
| MenuAutoLockNever
| MenuMinimizeToTray (checked : bool)
| MenuCloseToTray (checked : bool)
| WindowMinimized
| WindowCloseRequested
| WindowBlurred
| WindowFocused
| KeyOrMouseInput
| TrayOpen
| AppActivated
| LockWindowClosed
| Idle (dt : Z).

(** An event of the main window reaches its handlers only while the window
    exists; a minimised window is minimised when its handler runs. *)
Definition step (i : Input) (s : Shell) : Shell :=
  match i with
  | IpcLockSession => snd (ipc_lock_session s)
  | IpcIsLocked => s
  | IpcClearSession storageCleared => snd (ipc_clear_session storageCleared s)
  | LockSessionRequested => lockSession s
  | MenuLockOnMinimize checked => menu_lock_on_minimize checked s
  | MenuAutoLock minutes => menu_auto_lock minutes s
  | MenuAutoLockNever => menu_auto_lock_never s
  | MenuMinimizeToTray checked =>
      {| session := session s; mainWindow := mainWindow s; tracked := tracked s;
         lockWindow := lockWindow s; focusLostTime := focusLostTime s;
         minimizeToTray := checked; closeToTray := closeToTray s |}
  | MenuCloseToTray checked =>
      {| session := session s; mainWindow := mainWindow s; tracked := tracked s;
         lockWindow := lockWindow s; focusLostTime := focusLostTime s;
         minimizeToTray := minimizeToTray s; closeToTray := checked |}
  | WindowMinimized =>
      match mainWindow s with
      | Some _ => on_minimize (with_mainWindow Minimized s)
      | None => s
      end
  | WindowCloseRequested => match mainWindow s with Some _ => on_close s | None => s end
  | WindowBlurred => match mainWindow s with Some _ => on_blur s | None => s end
  | WindowFocused => match mainWindow s with Some _ => on_focus s | None => s end
  | KeyOrMouseInput => match mainWindow s with Some _ => on_before_input s | None => s end
  | TrayOpen => tray_open s
  | AppActivated => on_activate s
  | LockWindowClosed => with_lockWindow false s
  | Idle dt => call (elapse dt) s
  end.

Definition run (inputs : list Input) (s : Shell) : Shell :=
  fold_left (fun s i => step i s) inputs s.

(** The main process once [whenReady] has run: the object is constructed,
    the inactivity timer started and the main window created. *)
Definition started (m : Machine) (window : WindowState) (toTray onClose : bool) : Shell :=
  {| session := after resetLockTimeout (after constructor m);
     mainWindow := Some window;
     tracked := true;
     lockWindow := false;
     focusLostTime := None;
     minimizeToTray := toTray;
     closeToTray := onClose |}.

(** A lock window is only ever open over a locked session, and every
    pending timer is the one the object holds. *)
Definition consistent (s : Shell) : Prop :=
  (lockWindow s = true -> isLocked (self (session s)) = true) /\
  timers_owned (session s).

End MainProcess.

(** ** Navigation

    [isAllowedUrl] decides whether a URL is loaded in the window or handed
    to the external browser.  [URL_hostname url] is [new URL(url).hostname],
    [None] when the constructor throws. *)
Class Browser := {
  URL_hostname : string -> option string
}.

Definition googleDomains : list string :=
  [".google.com"; ".googleapis.com"; ".gstatic.com"; ".googleusercontent.com"].

Definition ALLOWED_URLS : list string :=
  [ "https://calendar.google.com";
    "https://accounts.google.com";
    "https://www.google.com/calendar";
    "https://www.google.com/signin";
    "https://www.google.com/accounts";
    "https://myaccount.google.com";
    "https://support.google.com";
    "https://ssl.gstatic.com";
    "https://www.gstatic.com";
    "https://apis.google.com";
    "https://oauth2.googleapis.com";
    "https://www.googleapis.com";
    "https://play.google.com";
    "https://gds.google.com";
    "https://ogs.google.com";
    "https://lh3.googleusercontent.com";
    "https://fonts.googleapis.com";
    "https://fonts.gstatic.com" ].

(** [s.startsWith(p)] and [s.endsWith(p)]. *)
Definition startsWith (s p : string) : bool := String.prefix p s.

Definition endsWith (s p : string) : bool :=
  (String.length p <=? String.length s)%nat &&
  String.eqb (substring (String.length s - String.length p) (String.length p) s) p.

(** What the two navigation handlers do with a URL: ['will-navigate'] lets
    the window navigate or hands the URL to the system browser;
    [setWindowOpenHandler] loads it in the main window or hands it over, and
    denies the new window in both cases. *)
Inductive Navigation :=
| NavigateInWindow
| LoadInMainWindow (url : string)
| OpenExternal (url : string).

Section Navigation.
Context `{BR : Browser}.

Definition isAllowedUrl (url : string) : bool :=
  match URL_hostname url with
  | Some hostname =>
      existsb (endsWith hostname) googleDomains || existsb (startsWith url) ALLOWED_URLS
  | None => false
  end.

Definition will_navigate (url : string) : Navigation :=
  if negb (isAllowedUrl url) then OpenExternal url else NavigateInWindow.

Definition window_open (url : string) : Navigation :=
  if isAllowedUrl url then LoadInMainWindow url else OpenExternal url.

End Navigation.

(** ** The version script

    [scripts/update-version.js] stamps [package.json] with a version made
    of the local date and time, [YYYY.MMDD.HHMM]. *)

(** What [new Date()] tells the script, in local time; [getMonth] counts
    from 0. *)
Record LocalTime := {
  getFullYear : Z;
  getMonth : Z;
  getDate : Z;
  getHours : Z;
  getMinutes : Z
}.

(** [String(n)] for an integer, as in [print_json]. *)
Definition String_of_number (n : Z) : string := NilZero.string_of_int (Z.to_int n).

(** [s.padStart(width, fill)] for a fill of one character. *)
Definition padStart (width : nat) (fill : ascii) (s : string) : string :=
  string_of_list_ascii (repeat fill (width - String.length s)) +:+ s.

Definition getTimestampVersion (now : LocalTime) : string :=
  let year := getFullYear now in
  let month := padStart 2 "0" (String_of_number (getMonth now + 1)) in
  let day := padStart 2 "0" (String_of_number (getDate now)) in
  let hours := padStart 2 "0" (String_of_number (getHours now)) in
  let minutes := padStart 2 "0" (String_of_number (getMinutes now)) in
  String_of_number year +:+ "." +:+ month +:+ day +:+ "." +:+ hours +:+ minutes.

(** The ranges of the fields of a date. *)
Definition valid_time (t : LocalTime) : Prop :=
  0 <= getMonth t <= 11 /\ 1 <= getDate t <= 31 /\
  0 <= getHours t <= 23 /\ 0 <= getMinutes t <= 59.

(** [s.split(sep)] for a separator of one character. *)
Fixpoint split_on (sep : ascii) (s : string) : list string :=
  match s with
  | EmptyString => [EmptyString]
  | String c rest =>
      if Ascii.eqb c sep then EmptyString :: split_on sep rest
      else match split_on sep rest with
           | field :: fields => String c field :: fields
           | [] => [String c EmptyString]
           end
  end.

Fixpoint has_char (c : ascii) (s : string) : bool :=
  match s with
  | EmptyString => false
  | String x rest => Ascii.eqb x c || has_char c rest
  end.

(** The two decimal digits of a number below 100. *)
Definition decimal_digit (n : Z) : ascii := ascii_of_N (48 + Z.to_N n).

Definition two_digits (n : Z) : string :=
  String (decimal_digit (n / 10)) (String (decimal_digit (n mod 10)) EmptyString).

(** What the script needs besides the runtime: the directory that holds
    [package.json], one level above the script's own, and
    [JSON.stringify(value, null, 2)]. *)
Class Project := {
  projectRoot : string;
  JSON_stringify_indented : JSValue -> option string
}.

(** [pkg.version = item] on an object: an own property keeps its place,
    a new one comes last. *)
Fixpoint set_field (key : string) (item : JSValue) (fields : list (string * JSValue))
    : list (string * JSValue) :=
  match fields with
  | [] => [(key, item)]
  | (k, old) :: rest =>
      if String.eqb k key then (k, item) :: rest
      else (k, old) :: set_field key item rest
  end.

(** [parts.join(',')]. *)
Fixpoint comma_join (parts : list string) : string :=
  match parts with
  | [] => EmptyString
  | [x] => x
  | x :: rest => x +:+ "," +:+ comma_join rest
  end.

(** [`${value}`] for a value that [JSON.parse] returned, or [undefined]. *)
Fixpoint template_text (value : JSValue) : string :=
  match value with
  | VUndefined => "undefined"
  | VNull => "null"
  | VBool true => "true"
  | VBool false => "false"
  | VNum n => String_of_number n
  | VStr s => s
  | VArr items =>
      comma_join
        (map (fun item => match item with
                          | VUndefined | VNull => EmptyString
                          | _ => template_text item
                          end) items)
  | VObj _ => "[object Object]"
  end.

(** [pkg.version] read on a parsed value: the member of an object, and
    [undefined] on an array, a number, a string or a boolean. *)
Definition version_of (pkg : JSValue) : JSValue :=
  match pkg with
  | VObj fields => default VUndefined (lookup_field "version" fields)
  | _ => VUndefined
  end.

(** The arrow and the check mark of the two messages, in UTF-8. *)
Definition arrow : string := String "226" (String "134" (String "146" EmptyString)).
Definition check_mark : string := String "226" (String "156" (String "147" EmptyString)).

Section UpdateVersion.
Context `{RT : Runtime} `{PJ : Project}.

Definition packagePath : Path := (projectRoot, "package.json").

(** [pkg.version = newVersion] on what [JSON.parse] returned: an assignment
    to a property of a number, a string or a boolean is dropped, and one to
    an array adds a property that [JSON.stringify] does not print. *)
Definition stamp (pkg : JSValue) (newVersion : string) : JSValue :=
  match pkg with
  | VObj fields => VObj (set_field "version" (VStr newVersion) fields)
  | other => other
  end.

(** Reading [pkg.version] for the first message throws when [pkg] is
    [null]. *)
Definition updateVersion (now : LocalTime) : M string :=
  let* raw := readFileSync packagePath in
  let* pkg := parse (utf8_decode raw) in
  let newVersion := getTimestampVersion now in
  (match pkg with
   | VNull | VUndefined => throw TypeError
   | _ => console "log" ("Updating version: " +:+ template_text (version_of pkg)
                         +:+ " " +:+ arrow +:+ " " +:+ newVersion)
   end) ;;
  let* text :=
    match JSON_stringify_indented (stamp pkg newVersion) with
    | Some text => ret text
    | None => throw TypeError
    end in
  writeFileSync packagePath (utf8_encode (text +:+ String "010" EmptyString)) ;;
  console "log" (check_mark +:+ " Version updated to " +:+ newVersion) ;;
  ret newVersion.

End UpdateVersion.

(** ** A reference runtime

    A small executable host, used to run the methods on concrete machines:
    a JSON codec for integers, plain strings, arrays and objects, a masking
    stand-in for [safeStorage], and a counter-mode cipher with the shape of
    GCM whose key stream and tag are cheap to compute. *)

Module Reference.

Definition plain_char (c : ascii) : bool :=
  let n := N_of_ascii c in
  ((32 <=? n) && (n <=? 126) && negb (n =? 34) && negb (n =? 92))%N.

Fixpoint plain_string (s : string) : bool :=
  match s with
  | EmptyString => true
  | String c rest => plain_char c && plain_string rest
  end.

Definition quote (s : string) : string := String "034" (s +:+ String "034" EmptyString).

Fixpoint join (sep : string) (parts : list string) : string :=
  match parts with
  | [] => EmptyString
  | [x] => x
  | x :: rest => x +:+ sep +:+ join sep rest
  end.

Fixpoint sequence {A} (l : list (option A)) : option (list A) :=
  match l with
  | [] => Some []
  | Some x :: rest => option_map (cons x) (sequence rest)
  | None :: _ => None
  end.

Fixpoint print_json (value : JSValue) : option string :=
  match value with
  | VUndefined => None
  | VNull => Some "null"
  | VBool true => Some "true"
  | VBool false => Some "false"
  | VNum n => Some (NilZero.string_of_int (Z.to_int n))
  | VStr s => if plain_string s then Some (quote s) else None
  | VArr items =>
      option_map (fun parts => "[" +:+ join "," parts +:+ "]")
        (sequence (map print_json items))
  | VObj fields =>
      option_map (fun parts => "{" +:+ join "," parts +:+ "}")
        (sequence
           (map (fun '(key, item) =>
                   if plain_string key
                   then option_map (fun text => quote key +:+ ":" +:+ text) (print_json item)
                   else None)
                fields))
  end.

Definition is_digit (c : ascii) : bool :=
  let n := N_of_ascii c in ((48 <=? n) && (n <=? 57))%N.

Fixpoint skip_ws (s : string) : string :=
  match s with
  | String c rest => if (N_of_ascii c =? 32)%N then skip_ws rest else s
  | EmptyString => s
  end.

Fixpoint take_digits (s : string) : string * string :=
  match s with
  | String c rest =>
      if is_digit c
      then let '(ds, tail) := take_digits rest in (String c ds, tail)
      else (EmptyString, s)
  | EmptyString => (EmptyString, EmptyString)
  end.

Fixpoint take_quoted (s : string) : option (string * string) :=
  match s with
  | String c rest =>
      if (N_of_ascii c =? 34)%N then Some (EmptyString, rest)
      else if plain_char c
      then match take_quoted rest with
           | Some (body, tail) => Some (String c body, tail)
           | None => None
           end
      else None
  | EmptyString => None
  end.

Definition parse_number (s : string) : option (JSValue * string) :=
  let '(sign, body) :=
    match s with
    | String "-" rest => ("-", rest)
    | _ => (EmptyString, s)
    end in
  let '(ds, tail) := take_digits body in
  match ds with
  | EmptyString => None
  | _ => option_map (fun i => (VNum (Z.of_int i), tail)) (NilZero.int_of_string (sign +:+ ds))
  end.

Fixpoint parse_value (fuel : nat) (s : string) : option (JSValue * string) :=
  match fuel with
  | O => None
  | S fuel' =>
      match skip_ws s with
      | String "n" (String "u" (String "l" (String "l" rest))) => Some (VNull, rest)
      | String "t" (String "r" (String "u" (String "e" rest))) => Some (VBool true, rest)
      | String "f" (String "a" (String "l" (String "s" (String "e" rest)))) =>
          Some (VBool false, rest)
      | String "034" rest =>
          option_map (fun '(body, tail) => (VStr body, tail)) (take_quoted rest)
      | String "[" rest =>
          match skip_ws rest with
          | String "]" tail => Some (VArr [], tail)
          | _ =>
              (fix items (n : nat) (s : string) (acc : list JSValue) :=
                 match n with
                 | O => None
                 | S n' =>
                     match parse_value fuel' s with
                     | Some (item, tail) =>
                         match skip_ws tail with
                         | String "," tail' => items n' tail' (item :: acc)
                         | String "]" tail' => Some (VArr (rev (item :: acc)), tail')
                         | _ => None
                         end
                     | None => None
                     end
                 end) fuel' rest []
          end
      | String "{" rest =>
          match skip_ws rest with
          | String "}" tail => Some (VObj [], tail)
          | _ =>
              (fix members (n : nat) (s : string) (acc : list (string * JSValue)) :=
                 match n with
                 | O => None
                 | S n' =>
                     match skip_ws s with
                     | String "034" s1 =>
                         match take_quoted s1 with
                         | Some (key, s2) =>
                             match skip_ws s2 with
                             | String ":" s3 =>
                                 match parse_value fuel' s3 with
                                 | Some (item, tail) =>
                                     match skip_ws tail with
                                     | String "," tail' => members n' tail' ((key, item) :: acc)
                                     | String "}" tail' =>
                                         Some (VObj (rev ((key, item) :: acc)), tail')
                                     | _ => None
                                     end
                                 | None => None
                                 end
                             | _ => None
                             end
                         | None => None
                         end
                     | _ => None
                     end
                 end) fuel' rest []
          end
      | other => parse_number other
      end
  end.

Definition read_json (text : string) : option JSValue :=
  match parse_value (S (String.length text)) text with
  | Some (value, tail) =>
      match skip_ws tail with
      | EmptyString => Some value
      | _ => None
      end
  | None => None
  end.

(** The stand-in for the OS secret store: a marker byte, then the text
    masked byte by byte. *)
Definition mask : byte := x5a.

Definition seal (s : string) : option bytes :=
  Some (x01 :: map (byte_xor mask) (utf8_encode s)).

Definition unseal (b : bytes) : option string :=
  match b with
  | x01 :: body => Some (utf8_decode (map (byte_xor mask) body))
  | _ => None
  end.

Definition xor_all (l : bytes) : byte := fold_right byte_xor x00 l.

(** Key-stream byte [i]: key byte, iv byte and counter, xored. *)
Definition keystream (key nonce : bytes) (i : nat) : byte :=
  byte_xor (nth (i mod length key) key x00)
    (byte_xor (nth (i mod length nonce) nonce x00) (byte_of_N (N.of_nat i))).

(** Tag: sixteen copies of the xor of key, iv and ciphertext bytes. *)
Definition mac (key nonce ciphertext : bytes) : bytes :=
  repeat (xor_all (key ++ nonce ++ ciphertext)) 16.

(** Digest: thirty-two copies of the xor of the bytes. *)
Definition digest (content : bytes) : bytes := repeat (xor_all content) 32.

#[export] Instance runtime : Runtime := {|
  userData := "/home/user/.config/wlfryt-google-calendar";
  appPath := "/opt/wlfryt-google-calendar/resources/app";
  platform := Darwin;
  sha256 := digest;
  ss_encrypt := seal;
  ss_decrypt := unseal;
  gcm_keystream := keystream;
  gcm_mac := mac;
  JSON_stringify := print_json;
  JSON_parse := read_json
|}.

(** The same host on Windows. *)
Definition windows : Runtime := {|
  userData := "/home/user/.config/wlfryt-google-calendar";
  appPath := "/opt/wlfryt-google-calendar/resources/app";
  platform := Win32;
  sha256 := digest;
  ss_encrypt := seal;
  ss_decrypt := unseal;
  gcm_keystream := keystream;
  gcm_mac := mac;
  JSON_stringify := print_json;
  JSON_parse := read_json
|}.

(** *** Example machines *)

Definition calm : Oracles :=
  {| encryptionAvailable := true;
     io_fault := fun _ => false;
     entropy := fun n => byte_of_N (N.of_nat (n * 73 + 41));
     touch_id := fun _ => false;
     gc_exposed := false |}.

Definition start_of_day : Counters := {| io_tick := 0; rng_pos := 0; prompts := 0 |}.

Definition idle : Timers := {| now := 0; pending := ∅; next_timer := 0 |}.

(** A freshly installed application: the user-data directory and the
    application's [main.js] exist, the secure directory does not. *)
Definition installed : Machine :=
  {| self := new_object;
     fs := {| dirs := {[ userData ]};
              files := {[ mainFile := utf8_encode "const { app } = require('electron');" ]} |};
     env := calm;
     ticks := start_of_day;
     loop := idle;
     trace := [] |}.

(** The machine once the object has been constructed on first run. *)
Definition first_run : Machine := after constructor installed.

Definition with_env (o : Oracles) (m : Machine) : Machine :=
  {| self := self m; fs := fs m; env := o; ticks := ticks m;
     loop := loop m; trace := trace m |}.

Definition payload : JSValue :=
  VObj [("account", VStr "user@example.org"); ("cookies", VArr [VNum 17; VNull]);
        ("remember", VBool true)].

(** A key file that holds the key as plain hex text. *)
Definition session_key : string :=
  "000102030405060708090a0b0c0d0e0f101112131415161718191a1b1c1d1e1f".

Definition fallback : Oracles :=
  {| encryptionAvailable := false;
     io_fault := fun _ => false;
     entropy := fun n => byte_of_N (N.of_nat (n * 73 + 41));
     touch_id := fun _ => false;
     gc_exposed := false |}.

Definition keyed (content : bytes) (o : Oracles) : Machine :=
  {| self := new_object;
     fs := {| dirs := {[ userData; dataPath ]};
              files := {[ keyFile := content ]} |};
     env := o;
     ticks := start_of_day;
     loop := idle;
     trace := [] |}.

(** Two draws of sixteen bytes that differ but start with the same byte. *)
Definition two_draws : bytes :=
  [xa7; x3c; x11; xf0; x5e; x92; x07; xd4; x68; xb3; x2a; xc9; x40; x8d; xe6; x19;
   xa7; x91; x4f; x08; xbc; x25; xda; x73; x0e; x66; xf5; x3b; x87; xc2; x1d; x50].


(** Every file-system call fails. *)
Definition failing : Oracles :=
  {| encryptionAvailable := false;
     io_fault := fun _ => true;
     entropy := fun n => byte_of_N (N.of_nat (n * 73 + 41));
     touch_id := fun _ => false;
     gc_exposed := false |}.

Definition with_object (o : SessionProtection) (m : Machine) : Machine :=
  {| self := o; fs := fs m; env := env m; ticks := ticks m;
     loop := loop m; trace := trace m |}.

(** A locked session whose settings require the biometric confirmation. *)
Definition guarded : SessionProtection :=
  {| isLocked := true;
     lockTimeout := None;
     lockTimeoutMs := 30 * 60 * 1000;
     settings := {| requireBiometric := true; lockOnMinimize := false;
                    autoLockMinutes := 30; secureClipboard := true;
                    preventScreenCapture := false |} |}.

End Reference.

(** ** AES-256-GCM

    The cipher that [crypto.createCipheriv('aes-256-gcm', key, iv)] names,
    as FIPS 197 and NIST SP 800-38D define it, so that the methods can be
    run on the key stream and the tag that Node computes.  Bytes are numbers
    below 256 and blocks are numbers below 2^128, first byte in front. *)

Module Aes.

Local Open Scope N_scope.
Local Open Scope list_scope.

(** Multiplication in GF(2^8) modulo x^8 + x^4 + x^3 + x + 1. *)
Definition xtime (a : N) : N :=
  N.lxor (N.land (2 * a) 255) (if N.testbit a 7 then 27 else 0).

Fixpoint gf_mul_from (bits : nat) (a b : N) : N :=
  match bits with
  | O => 0
  | S bits' =>
      N.lxor (if N.odd b then a else 0) (gf_mul_from bits' (xtime a) (N.div2 b))
  end.

Definition gf_mul (a b : N) : N := gf_mul_from 8 a b.

(** The inverse, [a] to the power 254, with 0 for 0. *)
Definition gf_inverse (a : N) : N :=
  let a2 := gf_mul a a in
  let a4 := gf_mul a2 a2 in
  let a8 := gf_mul a4 a4 in
  let a16 := gf_mul a8 a8 in
  let a32 := gf_mul a16 a16 in
  let a64 := gf_mul a32 a32 in
  let a128 := gf_mul a64 a64 in
  gf_mul a2 (gf_mul a4 (gf_mul a8 (gf_mul a16 (gf_mul a32 (gf_mul a64 a128))))).

Definition rotl8 (a : N) (k : N) : N :=
  N.land (N.lor (N.shiftl a k) (N.shiftr a (8 - k))) 255.

(** The S-box: the inverse followed by the affine map. *)
Definition sub_byte (a : N) : N :=
  let x := gf_inverse a in
  N.lxor x (N.lxor (rotl8 x 1) (N.lxor (rotl8 x 2) (N.lxor (rotl8 x 3)
    (N.lxor (rotl8 x 4) 99)))).

Definition sbox_table : list N :=
  Eval vm_compute in map (fun i => sub_byte (N.of_nat i)) (seq 0 256).

Definition sbox (a : N) : N := nth (N.to_nat a) sbox_table 0.

Definition xor_bytes (a b : list N) : list N :=
  map (fun '(x, y) => N.lxor x y) (combine a b).

(** *** Key expansion, for a key of eight words *)

Definition rot_word (w : list N) : list N :=
  match w with
  | a :: rest => rest ++ [a]
  | [] => []
  end.

Definition rcon (j : nat) : N := Nat.iter (j - 1) xtime 1.

(** [expand n i ws]: [n] more words after the [i] first, which [ws] holds
    last word first. *)
Fixpoint expand (n i : nat) (ws : list (list N)) : list (list N) :=
  match n with
  | O => rev ws
  | S n' =>
      let previous := nth 0 ws [] in
      let t := if (i mod 8 =? 0)%nat
               then xor_bytes (map sbox (rot_word previous)) [rcon (i / 8); 0; 0; 0]
               else if (i mod 8 =? 4)%nat then map sbox previous
               else previous in
      expand n' (S i) (xor_bytes (nth 7 ws []) t :: ws)
  end.

Definition key_words (key : list N) : list (list N) :=
  map (fun i => map (fun j => nth (4 * i + j) key 0) (seq 0 4)) (seq 0 8).

Fixpoint group_words (ws : list (list N)) : list (list N) :=
  match ws with
  | a :: b :: c :: d :: rest => (a ++ b ++ c ++ d) :: group_words rest
  | _ => []
  end.

(** The fifteen round keys of sixteen bytes. *)
Definition round_keys (key : list N) : list (list N) :=
  group_words (expand 52 8 (rev (key_words key))).

(** *** The block cipher

    The state is kept column by column: byte [4c + r] is row [r] of column
    [c]. *)

Definition shift_rows (s : list N) : list N :=
  map (fun i => nth (4 * ((i / 4 + i mod 4) mod 4) + i mod 4) s 0) (seq 0 16).

Definition mix_column (a0 a1 a2 a3 : N) : list N :=
  let double := xtime in
  let triple := fun a => N.lxor (xtime a) a in
  [ N.lxor (double a0) (N.lxor (triple a1) (N.lxor a2 a3));
    N.lxor a0 (N.lxor (double a1) (N.lxor (triple a2) a3));
    N.lxor a0 (N.lxor a1 (N.lxor (double a2) (triple a3)));
    N.lxor (triple a0) (N.lxor a1 (N.lxor a2 (double a3))) ].

Fixpoint mix_columns (s : list N) : list N :=
  match s with
  | a0 :: a1 :: a2 :: a3 :: rest => mix_column a0 a1 a2 a3 ++ mix_columns rest
  | _ => []
  end.

Fixpoint rounds (keys : list (list N)) (s : list N) : list N :=
  match keys with
  | [] => s
  | [k] => xor_bytes (shift_rows (map sbox s)) k
  | k :: rest => rounds rest (xor_bytes (mix_columns (shift_rows (map sbox s))) k)
  end.

Definition encrypt_block (keys : list (list N)) (block : list N) : list N :=
  match keys with
  | k :: rest => rounds rest (xor_bytes block k)
  | [] => block
  end.

(** *** Blocks as numbers *)

Definition block_of_bytes (l : list N) : N :=
  fold_left (fun acc b => 256 * acc + b) (take 16 (l ++ repeat 0 16)) 0.

Definition bytes_of_block (x : N) : list N :=
  map (fun i => N.land (N.shiftr x (8 * N.of_nat (15 - i))) 255) (seq 0 16).

Definition encrypt_number (keys : list (list N)) (x : N) : N :=
  block_of_bytes (encrypt_block keys (bytes_of_block x)).

(** *** GHASH

    Multiplication in GF(2^128) modulo x^128 + x^7 + x^2 + x + 1, the
    leftmost bit of a block being the coefficient of 1. *)

Definition reduction : N := 225 * 2 ^ 120.

Fixpoint gf128_mul_from (bits : nat) (x v z : N) : N :=
  match bits with
  | O => z
  | S bits' =>
      gf128_mul_from bits' x
        (if N.odd v then N.lxor (N.shiftr v 1) reduction else N.shiftr v 1)
        (if N.testbit x (N.of_nat bits') then N.lxor z v else z)
  end.

Definition gf128_mul (x y : N) : N := gf128_mul_from 128 x y 0.

Definition ghash (h : N) (blocks : list N) : N :=
  fold_left (fun y b => gf128_mul (N.lxor y b) h) blocks 0.

(** The blocks of a byte string, the last one filled up with zeros. *)
Fixpoint blocks_from (fuel : nat) (l : list N) : list N :=
  match fuel, l with
  | S fuel', _ :: _ => block_of_bytes (take 16 l) :: blocks_from fuel' (drop 16 l)
  | _, _ => []
  end.

Definition blocks_of (l : list N) : list N := blocks_from (length l) l.

Definition bit_length (l : list N) : N := 8 * N.of_nat (length l).

(** *** GCM *)

Definition hash_key (keys : list (list N)) : N := encrypt_number keys 0.

(** The first counter block: the iv followed by the number 1 when the iv
    has 96 bits, the hash of the iv and of its length otherwise. *)
Definition first_counter (keys : list (list N)) (nonce : list N) : N :=
  if (length nonce =? 12)%nat then block_of_bytes nonce + 1
  else ghash (hash_key keys) (blocks_of nonce ++ [bit_length nonce]).

(** A counter block [k] steps further: the last 32 bits count. *)
Definition counter_plus (x : N) (k : N) : N :=
  2 ^ 32 * (x / 2 ^ 32) + (x mod 2 ^ 32 + k) mod 2 ^ 32.

Definition keystream_byte (key nonce : list N) (i : nat) : N :=
  let keys := round_keys key in
  let block := counter_plus (first_counter keys nonce) (N.of_nat (i / 16) + 1) in
  nth (i mod 16) (encrypt_block keys (bytes_of_block block)) 0.

Definition tag_block (key nonce ciphertext : list N) : N :=
  let keys := round_keys key in
  let s := ghash (hash_key keys)
             (blocks_of ciphertext ++ [bit_length ciphertext]) in
  N.lxor s (encrypt_number keys (first_counter keys nonce)).

Definition numbers (b : bytes) : list N := map Byte.to_N b.

Definition keystream (key nonce : bytes) (i : nat) : byte :=
  byte_of_N (keystream_byte (numbers key) (numbers nonce) i).

Definition mac (key nonce ciphertext : bytes) : bytes :=
  map byte_of_N (bytes_of_block (tag_block (numbers key) (numbers nonce) (numbers ciphertext))).

(** The reference runtime with AES-256-GCM as its cipher. *)
Definition runtime : Runtime := {|
  userData := "/home/user/.config/wlfryt-google-calendar";
  appPath := "/opt/wlfryt-google-calendar/resources/app";
  platform := Darwin;
  sha256 := Reference.digest;
  ss_encrypt := Reference.seal;
  ss_decrypt := Reference.unseal;
  gcm_keystream := keystream;
  gcm_mac := mac;
  JSON_stringify := Reference.print_json;
  JSON_parse := Reference.read_json
|}.

(** The two draws of sixteen bytes of the examples. *)
Definition two_draws : bytes :=
  fromHex "a73c11f05e9207d468b32ac9408de619" ++ fromHex "a7914f08bc25da730e66f53b87c20011".

End Aes.

(** ** Examples for the main process, navigation and the version script *)

Module Examples.

#[local] Existing Instance Reference.runtime.

(** A machine with one more file. *)
Definition with_file (p : Path) (content : bytes) (m : Machine) : Machine :=
  with_fs (fun f => {| dirs := dirs f; files := <[p := content]> (files f) |}) m.

(** The application started on a fresh installation, window shown. *)
Definition desk : Shell := started Reference.installed Shown true true.

(** A stand-in for [new URL(url).hostname]: the text between ["://"] and
    the next of [/ ? # :]. *)
Fixpoint after_scheme (s : string) : option string :=
  match s with
  | String ":" (String "/" (String "/" rest)) => Some rest
  | String _ rest => after_scheme rest
  | EmptyString => None
  end.

Fixpoint up_to_delimiter (s : string) : string :=
  match s with
  | EmptyString => EmptyString
  | String c rest =>
      if existsb (Ascii.eqb c) ["/"; "?"; "#"; ":"]%char then EmptyString
      else String c (up_to_delimiter rest)
  end.

#[export] Instance browser : Browser := {|
  URL_hostname := fun url => option_map up_to_delimiter (after_scheme url)
|}.

(** The project of the script, printed without indentation. *)
#[export] Instance project : Project := {|
  projectRoot := "/home/user/src/wlfryt-google-calendar";
  JSON_stringify_indented := Reference.print_json
|}.

Definition manifest : list (string * JSValue) :=
  [("name", VStr "wlfryt-google-calendar"); ("version", VStr "1.0.0");
   ("main", VStr "src/main.js")].

Definition workspace : Machine :=
  {| self := new_object;
     fs := {| dirs := {[ projectRoot ]};
              files := {[ packagePath :=
                            utf8_encode (default EmptyString
                                           (Reference.print_json (VObj manifest))) ]} |};
     env := Reference.calm;
     ticks := Reference.start_of_day;
     loop := Reference.idle;
     trace := [] |}.

(** 23 December 2025, 14:30, and 5 January 2026, 09:07. *)
Definition afternoon : LocalTime :=
  {| getFullYear := 2025; getMonth := 11; getDate := 23; getHours := 14; getMinutes := 30 |}.

Definition morning : LocalTime :=
  {| getFullYear := 2026; getMonth := 0; getDate := 5; getHours := 9; getMinutes := 7 |}.

End Examples.

(** * Properties *)

(** ** The codecs *)

Lemma hex_value_digit (n : N) : (n < 16)%N -> hex_value (hex_digit n) = Some n.
Proof.
  intros H. destruct n as [| p]; [reflexivity |].
  repeat (destruct p as [p | p |]; try reflexivity; try lia).
Qed.

Lemma byte_of_N_to_N (x : byte) : byte_of_N (Byte.to_N x) = x.
Proof.
  unfold byte_of_N.
  pose proof (Byte.to_N_bounded x) as Hb.
  rewrite N.mod_small by lia.
  now rewrite Byte.of_to_N.
Qed.

Lemma fromHex_toHex (b : bytes) : fromHex (toHex b) = b.
Proof.
  induction b as [| x rest IH]; [reflexivity |].
  cbn [toHex fromHex].
  pose proof (Byte.to_N_bounded x) as Hb.
  rewrite !hex_value_digit.
  - rewrite <- N.div_mod by lia. now rewrite byte_of_N_to_N, IH.
  - apply N.mod_lt. lia.
  - apply N.Div0.div_lt_upper_bound. lia.
Qed.

Lemma toHex_inj (a b : bytes) : toHex a = toHex b -> a = b.
Proof. intros H. rewrite <- (fromHex_toHex a), H. apply fromHex_toHex. Qed.

Lemma length_toHex (b : bytes) : String.length (toHex b) = (2 * length b)%nat.
Proof. induction b as [| x rest IH]; cbn [toHex String.length length]; lia. Qed.

Lemma toHex_even (b : bytes) : Nat.odd (String.length (toHex b)) = false.
Proof.
  rewrite length_toHex, <- Nat.negb_even, Nat.even_mul. reflexivity.
Qed.

Lemma utf8_decode_encode (s : string) : utf8_decode (utf8_encode s) = s.
Proof. apply string_of_list_byte_of_string. Qed.

Lemma utf8_encode_decode (b : bytes) : utf8_encode (utf8_decode b) = b.
Proof. apply list_byte_of_string_of_list_byte. Qed.

Lemma xor_bits_involutive (x y : bits8) : xor_bits (xor_bits x y) y = x.
Proof.
  destruct x as (a0 & a1 & a2 & a3 & a4 & a5 & a6 & a7).
  destruct y as (b0 & b1 & b2 & b3 & b4 & b5 & b6 & b7).
  cbn. now rewrite !xorb_assoc, !xorb_nilpotent, !xorb_false_r.
Qed.

Lemma byte_xor_involutive (a b : byte) : byte_xor (byte_xor a b) b = a.
Proof.
  unfold byte_xor. rewrite Byte.to_bits_of_bits, xor_bits_involutive.
  apply Byte.of_bits_to_bits.
Qed.

Lemma xor_bits_comm (x y : bits8) : xor_bits x y = xor_bits y x.
Proof.
  destruct x as (a0 & a1 & a2 & a3 & a4 & a5 & a6 & a7).
  destruct y as (b0 & b1 & b2 & b3 & b4 & b5 & b6 & b7).
  cbn.
  now rewrite (xorb_comm a0), (xorb_comm a1), (xorb_comm a2), (xorb_comm a3),
    (xorb_comm a4), (xorb_comm a5), (xorb_comm a6), (xorb_comm a7).
Qed.

Lemma byte_xor_comm (a b : byte) : byte_xor a b = byte_xor b a.
Proof. unfold byte_xor. now rewrite xor_bits_comm. Qed.



Section Crypt.
Context `{RT : Runtime}.

Lemma crypt_from_cons key nonce start x rest :
  crypt_from key nonce start (x :: rest) =
  byte_xor x (gcm_keystream key nonce start) :: crypt_from key nonce (S start) rest.
Proof. reflexivity. Qed.

Lemma crypt_from_involutive key nonce input :
  forall start, crypt_from key nonce start (crypt_from key nonce start input) = input.
Proof.
  induction input as [| x rest IH]; intros start; [reflexivity |].
  rewrite !crypt_from_cons, byte_xor_involutive. f_equal. apply IH.
Qed.

Lemma gcm_crypt_involutive key nonce input :
  gcm_crypt key nonce (gcm_crypt key nonce input) = input.
Proof. apply (crypt_from_involutive key nonce input 0%nat). Qed.

Lemma length_crypt_from key nonce input :
  forall start, length (crypt_from key nonce start input) = length input.
Proof.
  induction input as [| x rest IH]; intros start; [reflexivity |].
  rewrite crypt_from_cons. cbn [length]. now rewrite IH.
Qed.

Lemma length_gcm_crypt key nonce input :
  length (gcm_crypt key nonce input) = length input.
Proof. apply (length_crypt_from key nonce input 0%nat). Qed.

End Crypt.

(** ** Reasoning about methods

    [wp c Q m]: running [c] from [m] ends in an outcome and a machine that
    satisfy [Q].  One rule per constructor of the monad. *)

Lemma wp_ret {A} (a : A) Q m : Q (Ok a) m -> wp (ret a) Q m.
Proof. exact (fun H => H). Qed.

Lemma wp_throw {A} (e : Error) (Q : Result A -> Machine -> Prop) m :
  Q (Throw e) m -> wp (throw e) Q m.
Proof. exact (fun H => H). Qed.

Lemma wp_gets {A} (f : Machine -> A) Q m : Q (Ok (f m)) m -> wp (gets f) Q m.
Proof. exact (fun H => H). Qed.

Lemma wp_modify (f : Machine -> Machine) Q m : Q (Ok tt) (f m) -> wp (modify f) Q m.
Proof. exact (fun H => H). Qed.

Lemma wp_bind {A B} (c : M A) (k : A -> M B) Q m :
  wp c (fun r m' => match r with
                    | Ok a => wp (k a) Q m'
                    | Throw e => Q (Throw e) m'
                    end) m ->
  wp (bind c k) Q m.
Proof.
  unfold wp, result, after, bind. destruct (c m) as [[a | e] m']; exact (fun H => H).
Qed.

Lemma wp_try_catch {A} (c : M A) (h : Error -> M A) Q m :
  wp c (fun r m' => match r with
                    | Ok a => Q (Ok a) m'
                    | Throw e => wp (h e) Q m'
                    end) m ->
  wp (try_catch c h) Q m.
Proof.
  unfold wp, result, after, try_catch. destruct (c m) as [[a | e] m']; exact (fun H => H).
Qed.

Lemma wp_consequence {A} (c : M A) (Q Q' : Result A -> Machine -> Prop) m :
  wp c Q m -> (forall r m', Q r m' -> Q' r m') -> wp c Q' m.
Proof. unfold wp. auto. Qed.

Lemma wp_call {A} (c : M A) (a : A) Q m :
  result c m = Ok a -> Q (Ok a) (after c m) -> wp c Q m.
Proof. unfold wp. now intros ->. Qed.

Lemma wp_eq {A} (c : M A) r m m' :
  wp c (fun r0 m0 => r0 = r /\ m0 = m') m -> c m = (r, m').
Proof.
  unfold wp, result, after. destruct (c m) as [r0 m0]. cbn. now intros [-> ->].
Qed.

Lemma wp_run {A} (c : M A) m : wp c (fun r m' => c m = (r, m')) m.
Proof. unfold wp, result, after. now destruct (c m). Qed.

Lemma wp_io_step Q m :
  (io_fault (env m) (io_tick (ticks m)) = true -> Q (Throw EIO) (ticked m)) ->
  (io_fault (env m) (io_tick (ticks m)) = false -> Q (Ok tt) (ticked m)) ->
  wp io_step Q m.
Proof.
  unfold wp, result, after, io_step.
  destruct (io_fault (env m) (io_tick (ticks m))); cbn; auto.
Qed.

Lemma wp_randomBytes n Q m :
  Q (Ok (drawn n m)) (advanced n m) -> wp (randomBytes n) Q m.
Proof. exact (fun H => H). Qed.

Ltac state_simpl :=
  cbn [fs env self loop ticks trace dirs files io_tick rng_pos prompts now pending
       next_timer encryptionAvailable io_fault entropy touch_id gc_exposed
       isLocked lockTimeout lockTimeoutMs settings
       ticked advanced emit with_fs with_ticks with_self with_loop fst snd].

Ltac state_simpl_in H :=
  cbn [fs env self loop ticks trace dirs files io_tick rng_pos prompts now pending
       next_timer encryptionAvailable io_fault entropy touch_id gc_exposed
       isLocked lockTimeout lockTimeoutMs settings
       ticked advanced emit with_fs with_ticks with_self with_loop fst snd] in H.

Ltac wp_prim :=
  lazymatch goal with
  | |- wp (bind _ _) _ _ => apply wp_bind
  | |- wp (try_catch _ _) _ _ => apply wp_try_catch
  | |- wp (ret _) _ _ => apply wp_ret
  | |- wp (throw _) _ _ => apply wp_throw
  | |- wp (gets _) _ _ => apply wp_gets
  | |- wp (modify _) _ _ => apply wp_modify
  | |- wp io_step _ _ =>
      apply wp_io_step;
      let H := fresh "Hio" in intros H; state_simpl_in H;
      try (exfalso; congruence)
  | |- wp (randomBytes _) _ _ => apply wp_randomBytes
  | |- wp (console _ _) _ _ => unfold console
  | |- wp (existsSync_file _) _ _ => unfold existsSync_file
  | |- wp (existsSync_dir _) _ _ => unfold existsSync_dir
  | |- wp isEncryptionAvailable _ _ => unfold isEncryptionAvailable
  | |- wp (encryptString _) _ _ => unfold encryptString
  | |- wp (decryptString _) _ _ => unfold decryptString
  | |- wp (readFileSync _) _ _ => unfold readFileSync
  | |- wp (writeFileSync _ _) _ _ => unfold writeFileSync
  | |- wp (statSync_size _) _ _ => unfold statSync_size
  | |- wp (unlinkSync _) _ _ => unfold unlinkSync
  | |- wp (rmSync _) _ _ => unfold rmSync
  | |- wp (mkdirSync _) _ _ => unfold mkdirSync
  | |- wp (if ?b then _ else _) _ _ =>
      first [ match goal with H : b = _ |- _ => rewrite H end
            | destruct b eqn:? ]
  | |- wp (match ?o with _ => _ end) _ _ =>
      first [ match goal with H : o = _ |- _ => rewrite H end
            | destruct o eqn:? ]
  end; cbn beta iota; state_simpl.

Ltac wp_auto := repeat wp_prim.

Ltac absurd_some :=
  match goal with
  | H : is_Some None |- _ => destruct H; discriminate
  | H : ~ is_Some (Some _) |- _ => destruct H; eauto
  end.

Ltac decide_hyps :=
  repeat match goal with
         | H : bool_decide _ = true |- _ => apply bool_decide_eq_true in H
         | H : bool_decide _ = false |- _ => apply bool_decide_eq_false in H
         end.


(** ** The key manager *)

Section KeyManager.
Context `{RT : Runtime}.


Lemma keyFile_neq_integrityFile : keyFile <> integrityFile.
Proof. unfold keyFile, integrityFile. intros H. inversion H. Qed.

Lemma configFile_neq_integrityFile : configFile <> integrityFile.
Proof. unfold configFile, integrityFile. intros H. inversion H. Qed.

Lemma saveSessionKey_never_throws key m : result (saveSessionKey key) m = Ok tt.
Proof.
  change (wp (saveSessionKey key) (fun r _ => r = Ok tt) m).
  unfold saveSessionKey. wp_auto; reflexivity.
Qed.

Lemma getSessionKey_never_throws m : exists key, result getSessionKey m = Ok key.
Proof.
  change (wp getSessionKey (fun r _ => exists key, r = Ok key) m).
  unfold getSessionKey. wp_auto.
  all: try (eexists; reflexivity).
  all: (apply wp_call with (a := tt); [apply saveSessionKey_never_throws |]);
    apply wp_ret; eexists; reflexivity.
Qed.

Lemma getSessionKey_fresh m :
  files (fs m) !! keyFile = None ->
  getSessionKey m =
  (Ok (toHex (drawn 32 m)),
   after (saveSessionKey (toHex (drawn 32 m))) (advanced 32 m)).
Proof.
  intros Hnone. apply wp_eq. unfold getSessionKey.
  assert (Hex : bool_decide (is_Some (files (fs m) !! keyFile)) = false).
  { apply bool_decide_eq_false_2. rewrite Hnone. intros [? ?]. discriminate. }
  wp_auto.
  apply wp_call with (a := tt); [apply saveSessionKey_never_throws |].
  apply wp_ret. split; reflexivity.
Qed.

Lemma getSessionKey_read m content key :
  files (fs m) !! keyFile = Some content ->
  io_fault (env m) (io_tick (ticks m)) = false ->
  read_key (encryptionAvailable (env m)) content = Some key ->
  getSessionKey m = (Ok key, ticked m).
Proof.
  intros Hfile Hio Hread. apply wp_eq. unfold getSessionKey, read_key in *.
  pose proof (bool_decide_eq_true_2 (is_Some (files (fs m) !! keyFile))
                (ex_intro _ content Hfile)) as Hex.
  destruct (encryptionAvailable (env m)) eqn:Hav; wp_auto; split; congruence.
Qed.


End KeyManager.

Section KeyFrame.
Context `{RT : Runtime}.

Lemma key_frame_refl m : key_frame m m.
Proof. unfold key_frame. repeat split; auto. Qed.

Lemma key_frame_trans m1 m2 m3 : key_frame m1 m2 -> key_frame m2 m3 -> key_frame m1 m3.
Proof.
  unfold key_frame.
  intros (He & Hs & Hl & Hd & Hr & Hi & Hp & Hf) (He' & Hs' & Hl' & Hd' & Hr' & Hi' & Hp' & Hf').
  repeat split; try congruence; try lia.
  intros p Hp0. now rewrite Hf', Hf.
Qed.

Ltac frame_step :=
  unfold key_frame; state_simpl;
  repeat split; try reflexivity; try lia;
  try (intros ? ?; now rewrite lookup_insert_ne by congruence).

Lemma saveSessionKey_frame key m : key_frame m (after (saveSessionKey key) m).
Proof.
  change (wp (saveSessionKey key) (fun _ m' => key_frame m m') m).
  unfold saveSessionKey. wp_auto; frame_step.
Qed.

Lemma getSessionKey_frame m : key_frame m (after getSessionKey m).
Proof.
  change (wp getSessionKey (fun _ m' => key_frame m m') m).
  unfold getSessionKey. wp_auto; try solve [frame_step].
  all: apply wp_call with (a := tt); [apply saveSessionKey_never_throws |].
  all: apply wp_ret.
  all: eapply key_frame_trans; [| apply saveSessionKey_frame]; frame_step.
Qed.

Lemma encrypt_frame payload m : key_frame m (after (encrypt payload) m).
Proof.
  change (wp (encrypt payload) (fun _ m' => key_frame m m') m).
  unfold encrypt. apply wp_try_catch, wp_bind.
  destruct (getSessionKey_never_throws m) as [key Hkey].
  apply wp_call with (a := key); [exact Hkey |].
  pose proof (getSessionKey_frame m) as Hframe.
  unfold createCipheriv, stringify.
  wp_auto.
  all: eapply key_frame_trans; [exact Hframe |]; frame_step.
Qed.

Lemma decrypt_frame encryptedData m : key_frame m (after (decrypt encryptedData) m).
Proof.
  change (wp (decrypt encryptedData) (fun _ m' => key_frame m m') m).
  unfold decrypt. apply wp_try_catch, wp_bind.
  destruct (getSessionKey_never_throws m) as [key Hkey].
  apply wp_call with (a := key); [exact Hkey |].
  pose proof (getSessionKey_frame m) as Hframe.
  unfold createDecipheriv, createCipheriv, setAuthTag, decipher_update_final, parse.
  wp_auto.
  all: eapply key_frame_trans; [exact Hframe |]; frame_step.
Qed.

(** Writing the key file: it holds the stored form of the key when the
    directory is there, the write does not fail and [safeStorage], if
    available, encrypts; it is left as it was otherwise. *)
Lemma saveSessionKey_persists key m content :
  dataPath ∈ dirs (fs m) ->
  io_fault (env m) (io_tick (ticks m)) = false ->
  stored_key (encryptionAvailable (env m)) key = Some content ->
  files (fs (after (saveSessionKey key) m)) = <[keyFile := content]> (files (fs m)) /\
  io_tick (ticks (after (saveSessionKey key) m)) = S (io_tick (ticks m)).
Proof.
  intros Hdir Hio Hstored.
  change (wp (saveSessionKey key)
            (fun _ m' => files (fs m') = <[keyFile := content]> (files (fs m)) /\
                         io_tick (ticks m') = S (io_tick (ticks m))) m).
  assert (Hd : bool_decide (fst keyFile ∈ dirs (fs m)) = true)
    by (apply bool_decide_eq_true_2, Hdir).
  unfold saveSessionKey, stored_key in *.
  destruct (encryptionAvailable (env m)) eqn:Hav; wp_auto; split; congruence.
Qed.


End KeyFrame.

(** ** The cipher *)

Section Cipher.
Context `{RT : Runtime}.

Lemma length_drawn n m : length (drawn n m) = n.
Proof. unfold drawn. now rewrite length_map, length_seq. Qed.

Lemma open_seal sessionKey nonce text :
  tag_128 -> key_256 sessionKey -> nonce <> [] ->
  open_envelope sessionKey (seal_envelope sessionKey nonce text) = JSON_parse text.
Proof.
  intros Htag Hkey Hnonce. unfold open_envelope, seal_envelope. cbn [iv data tag].
  rewrite !fromHex_toHex, Hkey, Htag.
  rewrite firstn_all2 by (rewrite Htag; lia).
  rewrite bool_decide_eq_true_2 by reflexivity.
  destruct nonce as [| x rest]; [contradiction |]. cbn [length Nat.eqb negb andb].
  change (valid_tag_length 16) with true. rewrite toHex_even. cbn [andb negb].
  now rewrite gcm_crypt_involutive, utf8_decode_encode.
Qed.

Lemma encrypt_spec m payload sessionKey text :
  result getSessionKey m = Ok sessionKey ->
  key_256 sessionKey ->
  JSON_stringify payload = Some text ->
  encrypt payload m =
  (Ok (Some (seal_envelope sessionKey (drawn 16 (after getSessionKey m)) text)),
   advanced 16 (after getSessionKey m)).
Proof.
  intros Hkey H256 Htext. apply wp_eq. unfold encrypt.
  apply wp_try_catch, wp_bind. apply wp_call with (a := sessionKey); [exact Hkey |].
  apply wp_bind, wp_randomBytes. cbn beta iota.
  apply wp_bind. unfold createCipheriv.
  rewrite H256, length_drawn. cbn [Nat.eqb negb andb]. apply wp_ret.
  apply wp_bind. unfold stringify. rewrite Htext. apply wp_ret.
  apply wp_ret. split; reflexivity.
Qed.

(** With a key that is not 32 bytes long, [encrypt] returns [null]. *)
Lemma encrypt_null_on_bad_key m payload sessionKey :
  result getSessionKey m = Ok sessionKey ->
  ~ key_256 sessionKey ->
  result (encrypt payload) m = Ok None.
Proof.
  intros Hkey Hbad.
  change (wp (encrypt payload) (fun r _ => r = Ok None) m).
  unfold encrypt. apply wp_try_catch, wp_bind.
  apply wp_call with (a := sessionKey); [exact Hkey |].
  apply wp_bind, wp_randomBytes. cbn beta iota.
  apply wp_bind. unfold createCipheriv.
  rewrite (proj2 (Nat.eqb_neq _ _) Hbad). cbn [andb].
  wp_auto. reflexivity.
Qed.

Lemma decrypt_spec m envelope sessionKey :
  result getSessionKey m = Ok sessionKey ->
  result (decrypt (Some envelope)) m =
  Ok (default VNull (open_envelope sessionKey envelope)).
Proof.
  intros Hkey.
  change (wp (decrypt (Some envelope))
            (fun r _ => r = Ok (default VNull (open_envelope sessionKey envelope))) m).
  unfold decrypt. apply wp_try_catch, wp_bind.
  apply wp_call with (a := sessionKey); [exact Hkey |].
  unfold open_envelope, createDecipheriv, createCipheriv, setAuthTag,
    decipher_update_final, parse.
  destruct ((length (fromHex sessionKey) =? 32)%nat
            && negb (length (fromHex (iv envelope)) =? 0)%nat) eqn:Hinit;
    destruct (valid_tag_length (length (fromHex (tag envelope)))) eqn:Hlen;
    destruct (Nat.odd (String.length (data envelope))) eqn:Hodd;
    destruct (bool_decide (fromHex (tag envelope) = _)) eqn:Hauth;
    destruct (JSON_parse _) eqn:Hparse;
    cbn [andb negb default]; wp_auto; reflexivity.
Qed.



End Cipher.

(** ** Round trip, tampering and fresh ivs *)

Section Envelope.
Context `{RT : Runtime}.

Lemma drawn_nonempty n m : drawn (S n) m <> [].
Proof. intros H. apply (f_equal length) in H. rewrite length_drawn in H. discriminate. Qed.

Lemma key_256_fresh bs : length bs = 32%nat -> key_256 (toHex bs).
Proof. unfold key_256. now rewrite fromHex_toHex. Qed.

Lemma roundtrip_core m payload sessionKey :
  tag_128 -> json_serializable payload -> key_256 sessionKey ->
  result getSessionKey m = Ok sessionKey ->
  result getSessionKey (after (encrypt payload) m) = Ok sessionKey ->
  exists envelope,
    result (encrypt payload) m = Ok (Some envelope) /\
    result (decrypt (Some envelope)) (after (encrypt payload) m) = Ok payload.
Proof.
  intros Htag (text & Hprint & Hparse) H256 Hkey Hkey'.
  pose proof (encrypt_spec m payload sessionKey text Hkey H256 Hprint) as Henc.
  eexists. split.
  - unfold result. rewrite Henc. reflexivity.
  - rewrite (decrypt_spec _ _ _ Hkey'), open_seal, Hparse; auto using drawn_nonempty.
Qed.

(** The file system after [encrypt] is the one [getSessionKey] left. *)
Lemma encrypt_storage payload m :
  fs (after (encrypt payload) m) = fs (after getSessionKey m) /\
  io_tick (ticks (after (encrypt payload) m)) = io_tick (ticks (after getSessionKey m)).
Proof.
  change (wp (encrypt payload)
            (fun _ m' => fs m' = fs (after getSessionKey m) /\
                         io_tick (ticks m') = io_tick (ticks (after getSessionKey m))) m).
  unfold encrypt. apply wp_try_catch, wp_bind.
  destruct (getSessionKey_never_throws m) as [key Hkey].
  apply wp_call with (a := key); [exact Hkey |].
  unfold createCipheriv, stringify. wp_auto; split; reflexivity.
Qed.

(** A key file that reads back as [sessionKey] keeps doing so across
    [encrypt], as long as no read fails. *)
Lemma key_stable_existing m content sessionKey payload :
  files (fs m) !! keyFile = Some content ->
  read_key (encryptionAvailable (env m)) content = Some sessionKey ->
  fault_free m ->
  result getSessionKey m = Ok sessionKey /\
  result getSessionKey (after (encrypt payload) m) = Ok sessionKey.
Proof.
  intros Hfile Hread Hcalm.
  assert (Hget : getSessionKey m = (Ok sessionKey, ticked m)).
  { apply (getSessionKey_read m content); auto. }
  split; [unfold result; now rewrite Hget |].
  destruct (encrypt_storage payload m) as [Hfs Htick].
  destruct (encrypt_frame payload m) as (Henv & _).
  unfold after at 2 in Hfs. unfold after at 2 in Htick.
  rewrite Hget in Hfs, Htick. cbn in Hfs, Htick.
  unfold result.
  rewrite (getSessionKey_read _ content sessionKey); [reflexivity | | |].
  - now rewrite Hfs.
  - rewrite Henv. apply Hcalm. lia.
  - now rewrite Henv.
Qed.

(** On first use the key is generated and written; it is read back by the
    next call when the directory exists, no file-system call fails and
    [safeStorage], if available, decrypts what it encrypted. *)
Lemma key_stable_first_run m payload content :
  files (fs m) !! keyFile = None ->
  dataPath ∈ dirs (fs m) ->
  fault_free m ->
  stored_key (encryptionAvailable (env m)) (toHex (drawn 32 m)) = Some content ->
  read_key (encryptionAvailable (env m)) content = Some (toHex (drawn 32 m)) ->
  result getSessionKey m = Ok (toHex (drawn 32 m)) /\
  result getSessionKey (after (encrypt payload) m) = Ok (toHex (drawn 32 m)).
Proof.
  intros Hnone Hdir Hcalm Hstored Hread.
  pose proof (getSessionKey_fresh m Hnone) as Hget.
  split; [unfold result; now rewrite Hget |].
  destruct (encrypt_storage payload m) as [Hfs Htick].
  destruct (encrypt_frame payload m) as (Henv & _).
  unfold after at 2 in Hfs. unfold after at 2 in Htick.
  rewrite Hget in Hfs, Htick. cbn [snd] in Hfs, Htick.
  destruct (saveSessionKey_persists (toHex (drawn 32 m)) (advanced 32 m) content)
    as [Hfiles Hticks]; auto.
  unfold result.
  rewrite (getSessionKey_read _ content (toHex (drawn 32 m))); [reflexivity | | |].
  - rewrite Hfs, Hfiles. apply lookup_insert_eq.
  - rewrite Henv, Htick, Hticks. apply Hcalm. cbn. lia.
  - now rewrite Henv.
Qed.

Lemma roundtrip_existing_key m content sessionKey payload :
  tag_128 -> json_serializable payload -> key_256 sessionKey ->
  files (fs m) !! keyFile = Some content ->
  read_key (encryptionAvailable (env m)) content = Some sessionKey ->
  fault_free m ->
  exists envelope,
    result (encrypt payload) m = Ok (Some envelope) /\
    result (decrypt (Some envelope)) (after (encrypt payload) m) = Ok payload.
Proof.
  intros Htag Hjson H256 Hfile Hread Hcalm.
  destruct (key_stable_existing m content sessionKey payload) as [H1 H2]; auto.
  now apply roundtrip_core with (sessionKey := sessionKey).
Qed.

Lemma roundtrip_first_run m payload content :
  tag_128 -> json_serializable payload ->
  files (fs m) !! keyFile = None ->
  dataPath ∈ dirs (fs m) ->
  fault_free m ->
  stored_key (encryptionAvailable (env m)) (toHex (drawn 32 m)) = Some content ->
  read_key (encryptionAvailable (env m)) content = Some (toHex (drawn 32 m)) ->
  exists envelope,
    result (encrypt payload) m = Ok (Some envelope) /\
    result (decrypt (Some envelope)) (after (encrypt payload) m) = Ok payload.
Proof.
  intros Htag Hjson Hnone Hdir Hcalm Hstored Hread.
  destruct (key_stable_first_run m payload content) as [H1 H2]; auto.
  apply roundtrip_core with (sessionKey := toHex (drawn 32 m)); auto.
  apply key_256_fresh, length_drawn.
Qed.

(** [C1] For every JSON-serializable payload, decrypting the envelope that
    [encrypt] produced for it, under the same 256-bit session key, returns
    the payload. *)
Theorem encrypt_decrypt_roundtrip m payload sessionKey :
  tag_128 -> json_serializable payload -> key_256 sessionKey ->
  result getSessionKey m = Ok sessionKey ->
  result getSessionKey (after (encrypt payload) m) = Ok sessionKey ->
  exists envelope,
    result (encrypt payload) m = Ok (Some envelope) /\
    result (decrypt (Some envelope)) (after (encrypt payload) m) = Ok payload.
Proof.
  intros Htag (text & Hprint & Hparse) H256 Hkey Hkey'.
  exists (seal_envelope sessionKey (drawn 16 (after getSessionKey m)) text).
  split.
  - unfold result.
    now rewrite (encrypt_spec m payload sessionKey text Hkey H256 Hprint).
  - rewrite (decrypt_spec _ _ sessionKey Hkey').
    rewrite open_seal by auto using drawn_nonempty.
    now rewrite Hparse.
Qed.

End Envelope.

Section Tampering.
Context `{RT : Runtime}.











End Tampering.

(** ** Numbers *)

Section Numbers.

Lemma nearest_double_exact z : Z.abs z <= 2 ^ 53 -> nearest_double z = z.
Proof.
  intros Hz. unfold nearest_double. cbv zeta.
  now rewrite (proj2 (Z.leb_le _ _) Hz).
Qed.

(** Beyond 2^53 the significand has its 53 bits. *)
Lemma significand_lower a :
  2 ^ 53 < a -> 0 < 2 ^ (Z.log2 a - 52) /\ 2 ^ 52 <= a / 2 ^ (Z.log2 a - 52).
Proof.
  intros Ha.
  assert (Hlog : 53 <= Z.log2 a) by (apply Z.log2_le_pow2; lia).
  destruct (Z.log2_spec a) as [Hlo _]; [lia |].
  assert (Hpos : 0 < 2 ^ (Z.log2 a - 52)) by (apply Z.pow_pos_nonneg; lia).
  split; [exact Hpos |].
  apply Z.div_le_lower_bound; [exact Hpos |].
  rewrite <- Z.pow_add_r by lia.
  now replace (Z.log2 a - 52 + 52) with (Z.log2 a) by lia.
Qed.

Lemma nearest_double_nonpos z : z <= 0 -> nearest_double z <= 0.
Proof.
  intros Hz. unfold nearest_double. cbv zeta.
  destruct (Z.abs z <=? 2 ^ 53) eqn:Hsmall; [exact Hz |].
  apply Z.leb_gt in Hsmall.
  destruct (significand_lower (Z.abs z) Hsmall) as [Hpos Hq].
  set (e := Z.log2 (Z.abs z) - 52) in *.
  set (q := Z.abs z / 2 ^ e) in *.
  assert (Hsgn : Z.sgn z = -1) by (apply Z.sgn_neg; lia).
  rewrite Hsgn. destruct (negb _); nia.
Qed.

Lemma nearest_double_large z : 2 ^ 53 <= z -> 2 ^ 53 <= nearest_double z.
Proof.
  intros Hz. unfold nearest_double. cbv zeta.
  destruct (Z.abs z <=? 2 ^ 53) eqn:Hsmall; [exact Hz |].
  apply Z.leb_gt in Hsmall.
  destruct (significand_lower (Z.abs z) Hsmall) as [Hpos Hq].
  set (e := Z.log2 (Z.abs z) - 52) in *.
  set (q := Z.abs z / 2 ^ e) in *.
  assert (He : 2 <= 2 ^ e).
  { assert (Hlog : 53 <= Z.log2 (Z.abs z)) by (apply Z.log2_le_pow2; lia).
    change 2 with (2 ^ 1) at 1. apply Z.pow_le_mono_r; lia. }
  assert (Hsgn : Z.sgn z = 1) by (apply Z.sgn_pos; lia).
  rewrite Hsgn. change (2 ^ 53) with (2 ^ 52 * 2). destruct (negb _); nia.
Qed.

Lemma timeout_exact minutes :
  exact_minutes minutes ->
  Number_times (Number_times minutes 60) 1000 = minutes * 60 * 1000.
Proof.
  unfold exact_minutes, Number_times. intros Hm.
  rewrite (nearest_double_exact (minutes * 60)) by lia.
  now apply nearest_double_exact.
Qed.

Lemma timeout_not_positive minutes :
  minutes < 1 -> Number_times (Number_times minutes 60) 1000 <= 0.
Proof.
  intros Hm. unfold Number_times.
  apply nearest_double_nonpos.
  assert (nearest_double (minutes * 60) <= 0) by (apply nearest_double_nonpos; lia).
  lia.
Qed.

Lemma timeout_too_long minutes :
  35791 < minutes -> 2147483647 < Number_times (Number_times minutes 60) 1000.
Proof.
  intros Hm. unfold Number_times.
  assert (Hfirst : 2147520 <= nearest_double (minutes * 60)).
  { destruct (Z_le_gt_dec (Z.abs (minutes * 60)) (2 ^ 53)) as [Hs | Hl].
    - rewrite nearest_double_exact by exact Hs. lia.
    - pose proof (nearest_double_large (minutes * 60)). lia. }
  set (x := nearest_double (minutes * 60)) in *.
  destruct (Z_le_gt_dec (Z.abs (x * 1000)) (2 ^ 53)) as [Hs | Hl].
  - rewrite nearest_double_exact by exact Hs. lia.
  - pose proof (nearest_double_large (x * 1000)). lia.
Qed.

(** Beyond 2^53 only every second whole number is a double, beyond 2^54
    every fourth; of two doubles as near, the one with the even significand
    is taken. *)
Lemma nearest_double_examples :
  nearest_double (2 ^ 53 + 1) = 2 ^ 53 /\
  nearest_double (2 ^ 53 + 2) = 2 ^ 53 + 2 /\
  nearest_double (2 ^ 53 + 3) = 2 ^ 53 + 4 /\
  nearest_double (- (2 ^ 53 + 3)) = - (2 ^ 53 + 4) /\
  nearest_double (2 ^ 54 + 2) = 2 ^ 54 /\
  nearest_double (2 ^ 54 + 5) = 2 ^ 54 + 4 /\
  nearest_double (2 ^ 54 + 6) = 2 ^ 54 + 8.
Proof. repeat (split; [vm_compute; reflexivity |]). vm_compute. reflexivity. Qed.

(** The product is rounded twice: 2^53 - 1 minutes. *)
Lemma timeout_is_rounded :
  Number_times (Number_times 9007199254740991 60) 1000 = 540431955284459454464 /\
  9007199254740991 * 60 * 1000 = 540431955284459460000.
Proof. split; vm_compute; reflexivity. Qed.

End Numbers.

(** ** The lock state machine *)

Ltac wp_lock_step :=
  first
    [ wp_prim
    | lazymatch goal with
      | |- wp (set_isLocked _) _ _ => unfold set_isLocked
      | |- wp (set_lockTimeout _) _ _ => unfold set_lockTimeout
      | |- wp (set_lockTimeoutMs _) _ _ => unfold set_lockTimeoutMs
      | |- wp (set_settings _) _ _ => unfold set_settings
      | |- wp (clearTimeout _) _ _ => unfold clearTimeout
      | |- wp (setTimeout _) _ _ => unfold wp, result, after, setTimeout; cbn [fst snd]
      | |- wp clearLockTimeout _ _ => unfold clearLockTimeout
      | |- wp resetLockTimeout _ _ => unfold resetLockTimeout
      | |- wp lock _ _ => unfold lock
      | |- wp unlock_granted _ _ => unfold unlock_granted
      | |- wp (stringify _) _ _ => unfold stringify
      | |- wp (parse _) _ _ => unfold parse
      end; state_simpl ].

Ltac wp_lock := repeat wp_lock_step.

Section LockMachine.
Context `{RT : Runtime}.

Lemma resetLockTimeout_spec m :
  let m' := after resetLockTimeout m in
  let id := next_timer (loop m) in
  result resetLockTimeout m = Ok tt /\
  lockTimeout (self m') = Some id /\
  pending (loop m') =
    <[id := now (loop m) + timer_delay (lockTimeoutMs (self m))]> (queue_cleared m) /\
  now (loop m') = now (loop m) /\
  isLocked (self m') = isLocked (self m) /\
  settings (self m') = settings (self m) /\
  lockTimeoutMs (self m') = lockTimeoutMs (self m) /\
  fs m' = fs m /\ env m' = env m /\ ticks m' = ticks m /\ trace m' = trace m.
Proof.
  change (wp resetLockTimeout
            (fun r m' =>
               r = Ok tt /\
               lockTimeout (self m') = Some (next_timer (loop m)) /\
               pending (loop m') =
                 <[next_timer (loop m) := now (loop m) + timer_delay (lockTimeoutMs (self m))]>
                   (queue_cleared m) /\
               now (loop m') = now (loop m) /\
               isLocked (self m') = isLocked (self m) /\
               settings (self m') = settings (self m) /\
               lockTimeoutMs (self m') = lockTimeoutMs (self m) /\
               fs m' = fs m /\ env m' = env m /\ ticks m' = ticks m /\ trace m' = trace m) m).
  unfold queue_cleared.
  destruct (lockTimeout (self m)) eqn:Hh; wp_lock; repeat split; congruence.
Qed.

Lemma lock_spec m :
  let m' := after lock m in
  result lock m = Ok true /\
  isLocked (self m') = true /\
  lockTimeout (self m') = None /\
  pending (loop m') = queue_cleared m.
Proof.
  change (wp lock
            (fun r m' => r = Ok true /\ isLocked (self m') = true /\
                         lockTimeout (self m') = None /\
                         pending (loop m') = queue_cleared m) m).
  unfold queue_cleared.
  destruct (lockTimeout (self m)) eqn:Hh; wp_lock; repeat split; congruence.
Qed.

Lemma fire_keeps_locked ids :
  forall m, isLocked (self m) = true -> isLocked (self (after (fire ids) m)) = true.
Proof.
  induction ids as [| id rest IH]; intros m Hlocked; [exact Hlocked |].
  change (wp (fire (id :: rest)) (fun _ m' => isLocked (self m') = true) m).
  cbn [fire]. apply wp_bind, wp_gets.
  destruct (pending (loop m) !! id).
  - apply wp_bind. unfold clearTimeout. apply wp_modify.
    apply wp_bind. apply wp_call with (a := true); [apply lock_spec |].
    apply IH, lock_spec.
  - apply IH, Hlocked.
Qed.

Lemma fire_locks ids :
  forall m id,
    id ∈ ids -> is_Some (pending (loop m) !! id) ->
    isLocked (self (after (fire ids) m)) = true.
Proof.
  induction ids as [| x rest IH]; intros m id Hin Hpending.
  - inversion Hin.
  - change (wp (fire (x :: rest)) (fun _ m' => isLocked (self m') = true) m).
    cbn [fire]. apply wp_bind, wp_gets.
    destruct (pending (loop m) !! x) eqn:Hx.
    + apply wp_bind. unfold clearTimeout. apply wp_modify.
      apply wp_bind. apply wp_call with (a := true); [apply lock_spec |].
      apply fire_keeps_locked, lock_spec.
    + apply (IH m id); [| exact Hpending].
      apply elem_of_cons in Hin as [-> | Hin]; [| exact Hin].
      rewrite Hx in Hpending. destruct Hpending. discriminate.
Qed.

(** Once a pending timer has come due, the session is locked. *)
Lemma elapse_locks m dt id due :
  pending (loop m) !! id = Some due ->
  due <= now (loop m) + dt ->
  isLocked (self (after (elapse dt) m)) = true.
Proof.
  intros Hpending Hdue.
  change (wp (elapse dt) (fun _ m' => isLocked (self m') = true) m).
  unfold elapse. apply wp_bind, wp_modify. apply wp_bind, wp_gets. state_simpl.
  apply (fire_locks _ _ id); state_simpl; [| eauto].
  unfold due_timers. state_simpl.
  apply list_elem_of_fmap. exists (id, due). split; [reflexivity |].
  apply elem_of_map_to_list, map_lookup_filter_Some. split; [exact Hpending | exact Hdue].
Qed.

(** Whatever happens to the file, [saveSettings] has merged the settings
    and recomputed the timeout in memory. *)
Lemma saveSettings_memory newSettings m :
  let m' := after (saveSettings newSettings) m in
  let merged := merge_settings (settings (self m)) newSettings in
  settings (self m') = merged /\
  lockTimeoutMs (self m') = Number_times (Number_times (autoLockMinutes merged) 60) 1000 /\
  isLocked (self m') = isLocked (self m) /\
  lockTimeout (self m') = lockTimeout (self m) /\
  loop m' = loop m /\ env m' = env m /\ dirs (fs m') = dirs (fs m).
Proof.
  change (wp (saveSettings newSettings)
            (fun _ m' =>
               settings (self m') = merge_settings (settings (self m)) newSettings /\
               lockTimeoutMs (self m') =
                 Number_times
                   (Number_times
                      (autoLockMinutes (merge_settings (settings (self m)) newSettings)) 60)
                   1000 /\
               isLocked (self m') = isLocked (self m) /\
               lockTimeout (self m') = lockTimeout (self m) /\
               loop m' = loop m /\ env m' = env m /\ dirs (fs m') = dirs (fs m)) m).
  unfold saveSettings. wp_lock; repeat split; reflexivity.
Qed.

Lemma timer_delay_zero : timer_delay 0 = 1.
Proof. reflexivity. Qed.

Lemma timer_delay_in_range ms : 1 <= ms <= 2147483647 -> timer_delay ms = ms.
Proof.
  intros [Hlo Hhi]. unfold timer_delay.
  now rewrite (proj2 (Z.leb_le _ _) Hlo), (proj2 (Z.leb_le _ _) Hhi).
Qed.

(** With a timeout of [minutes] > 0 saved, the session is locked once that
    many minutes have passed after [resetLockTimeout]. *)
Lemma positive_timeout_locks m minutes :
  0 < minutes -> minutes * 60 * 1000 <= 2147483647 ->
  let m0 := after (saveSettings (auto_lock_only minutes)) m in
  let m1 := after resetLockTimeout m0 in
  pending (loop m1) !! next_timer (loop m0) = Some (now (loop m0) + minutes * 60 * 1000) /\
  isLocked (self (after (elapse (minutes * 60 * 1000)) m1)) = true.
Proof.
  intros Hpos Hmax m0 m1.
  destruct (saveSettings_memory (auto_lock_only minutes) m) as (_ & Hms & _).
  destruct (resetLockTimeout_spec m0) as (_ & _ & Hq & Hnow & _).
  fold m0 in Hms. fold m1 in Hq, Hnow. cbn [merge_settings auto_lock_only
    p_autoLockMinutes autoLockMinutes default from_option id] in Hms.
  rewrite timeout_exact in Hms by (unfold exact_minutes; lia).
  assert (Hid : pending (loop m1) !! next_timer (loop m0) =
                Some (now (loop m0) + minutes * 60 * 1000)).
  { rewrite Hq, lookup_insert_eq, Hms, timer_delay_in_range by lia. reflexivity. }
  split; [exact Hid |].
  apply (elapse_locks m1 _ _ _ Hid). rewrite Hnow. lia.
Qed.

(** [_loadSettings] merges what the settings file holds and leaves the
    timeout as the constructor set it. *)
Lemma loadSettings_keeps_timeout m :
  lockTimeoutMs (self (after _loadSettings m)) = lockTimeoutMs (self m).
Proof.
  change (wp _loadSettings (fun _ m' => lockTimeoutMs (self m') = lockTimeoutMs (self m)) m).
  unfold _loadSettings. wp_lock; reflexivity.
Qed.

(** [C4] With [autoLockMinutes] saved as 0, [resetLockTimeout] still
    schedules a timer, due one millisecond later, and the session is locked
    when it fires. *)
Theorem zero_timeout_still_locks m :
  let m0 := after (saveSettings (auto_lock_only 0)) m in
  let m1 := after resetLockTimeout m0 in
  autoLockMinutes (settings (self m0)) = 0 /\
  lockTimeout (self m1) = Some (next_timer (loop m0)) /\
  pending (loop m1) !! next_timer (loop m0) = Some (now (loop m0) + 1) /\
  isLocked (self (after (elapse 1) m1)) = true.
Proof.
  intros m0 m1.
  destruct (saveSettings_memory (auto_lock_only 0) m) as (Hset & Hms & _).
  destruct (resetLockTimeout_spec m0) as (_ & Hh & Hq & Hnow & _).
  fold m0 in Hset, Hms. fold m1 in Hh, Hq, Hnow.
  change (lockTimeoutMs (self m0) = 0) in Hms.
  assert (Hid : pending (loop m1) !! next_timer (loop m0) = Some (now (loop m0) + 1)).
  { rewrite Hq, lookup_insert_eq, Hms. reflexivity. }
  repeat split; [now rewrite Hset | exact Hh | exact Hid |].
  apply (elapse_locks m1 _ _ _ Hid). rewrite Hnow. lia.
Qed.

(** *** Biometric gate *)

Lemma authenticateWithBiometrics_frame reason m :
  self (after (authenticateWithBiometrics reason) m) = self m /\
  loop (after (authenticateWithBiometrics reason) m) = loop m /\
  fs (after (authenticateWithBiometrics reason) m) = fs m.
Proof.
  change (wp (authenticateWithBiometrics reason)
            (fun _ m' => self m' = self m /\ loop m' = loop m /\ fs m' = fs m) m).
  unfold authenticateWithBiometrics. apply wp_try_catch.
  destruct platform.
  - apply wp_bind. unfold wp, result, after, promptTouchID.
    destruct (touch_id (env m) (prompts (ticks m))); cbn; repeat split; reflexivity.
  - wp_auto. repeat split; reflexivity.
  - wp_auto. repeat split; reflexivity.
Qed.

Lemma authenticate_darwin_denied reason m :
  platform = Darwin ->
  touch_id (env m) (prompts (ticks m)) = false ->
  result (authenticateWithBiometrics reason) m = Ok false.
Proof.
  intros Hp Hdeny. unfold result, authenticateWithBiometrics, try_catch, bind, promptTouchID.
  rewrite Hp, Hdeny. reflexivity.
Qed.

Lemma authenticate_other_denied reason m :
  platform = OtherPlatform ->
  result (authenticateWithBiometrics reason) m = Ok false.
Proof.
  intros Hp. unfold result, authenticateWithBiometrics, try_catch. now rewrite Hp.
Qed.

(** On Windows the placeholder grants without asking anyone. *)
Lemma authenticate_win32_granted reason m :
  platform = Win32 ->
  authenticateWithBiometrics reason m = (Ok true, m).
Proof.
  intros Hp. unfold authenticateWithBiometrics, try_catch. now rewrite Hp.
Qed.

(** When the settings require the biometric confirmation and it is asked
    for, a negative answer of [authenticateWithBiometrics] makes [unlock]
    return [false] and leaves the object, hence [isLocked], and the timer
    queue as they were. *)
Lemma unlock_denied_stays_locked m :
  requireBiometric (settings (self m)) = true ->
  result (authenticateWithBiometrics "Unlock WlfRyt Google Calendar") m = Ok false ->
  result (unlock true) m = Ok false /\
  self (after (unlock true) m) = self m /\
  loop (after (unlock true) m) = loop m /\
  isLocked (self (after (unlock true) m)) = isLocked (self m).
Proof.
  intros Hreq Hdenied.
  destruct (authenticateWithBiometrics_frame "Unlock WlfRyt Google Calendar" m)
    as (Hself & Hloop & _).
  change (wp (unlock true)
            (fun r m' => r = Ok false /\ self m' = self m /\ loop m' = loop m /\
                         isLocked (self m') = isLocked (self m)) m).
  unfold unlock. apply wp_bind, wp_gets. rewrite Hreq. cbn [andb].
  apply wp_bind. apply wp_call with (a := false); [exact Hdenied |].
  cbn [negb]. apply wp_ret. rewrite Hself, Hloop. repeat split; reflexivity.
Qed.

(** [C5] On Windows the biometric check is a placeholder that grants:
    with the settings requiring the biometric confirmation, [unlock(true)]
    unlocks the session, restarts its timer and returns [true], and nobody
    has been asked. *)
Theorem unlock_granted_by_placeholder m :
  platform = Win32 ->
  requireBiometric (settings (self m)) = true ->
  let m' := after (unlock true) m in
  result (unlock true) m = Ok true /\
  isLocked (self m') = false /\
  lockTimeout (self m') = Some (next_timer (loop m)) /\
  prompts (ticks m') = prompts (ticks m) /\
  trace m' = trace m.
Proof.
  intros Hwin Hreq.
  change (wp (unlock true)
            (fun r m' =>
               r = Ok true /\ isLocked (self m') = false /\
               lockTimeout (self m') = Some (next_timer (loop m)) /\
               prompts (ticks m') = prompts (ticks m) /\ trace m' = trace m) m).
  unfold unlock. apply wp_bind, wp_gets. rewrite Hreq. cbn [andb].
  apply wp_bind. apply wp_call with (a := true).
  { unfold result. now rewrite authenticate_win32_granted. }
  unfold after. rewrite (authenticate_win32_granted _ m Hwin). cbn [snd negb].
  destruct (lockTimeout (self m)) eqn:Hh; wp_lock; repeat split; reflexivity.
Qed.

(** [C6] With [useBiometric] false, [unlock] unlocks, restarts the
    inactivity timer and returns [true] without a single biometric prompt,
    whatever the settings require. *)
Theorem unlock_without_biometric m :
  requireBiometric (settings (self m)) = true ->
  let m' := after (unlock false) m in
  let id := next_timer (loop m) in
  result (unlock false) m = Ok true /\
  isLocked (self m') = false /\
  lockTimeout (self m') = Some id /\
  pending (loop m') =
    <[id := now (loop m) + timer_delay (lockTimeoutMs (self m))]> (queue_cleared m) /\
  prompts (ticks m') = prompts (ticks m) /\
  trace m' = trace m.
Proof.
  intros Hreq.
  change (wp (unlock false)
            (fun r m' =>
               r = Ok true /\ isLocked (self m') = false /\
               lockTimeout (self m') = Some (next_timer (loop m)) /\
               pending (loop m') =
                 <[next_timer (loop m) := now (loop m) + timer_delay (lockTimeoutMs (self m))]>
                   (queue_cleared m) /\
               prompts (ticks m') = prompts (ticks m) /\ trace m' = trace m) m).
  unfold unlock, queue_cleared. apply wp_bind, wp_gets. cbn [andb].
  destruct (lockTimeout (self m)) eqn:Hh; wp_lock; repeat split; reflexivity.
Qed.

End LockMachine.

(** ** The settings store *)

Section SettingsStore.
Context `{RT : Runtime}.

Lemma saveSettings_never_throws newSettings m :
  exists saved, result (saveSettings newSettings) m = Ok saved.
Proof.
  change (wp (saveSettings newSettings) (fun r _ => exists saved, r = Ok saved) m).
  unfold saveSettings. wp_lock; eauto.
Qed.

Lemma saveSettings_unavailable newSettings m :
  encryptionAvailable (env m) = false ->
  result (saveSettings newSettings) m = Ok true /\
  fs (after (saveSettings newSettings) m) = fs m /\
  trace (after (saveSettings newSettings) m) = trace m.
Proof.
  intros Hav.
  change (wp (saveSettings newSettings)
            (fun r m' => r = Ok true /\ fs m' = fs m /\ trace m' = trace m) m).
  unfold saveSettings. wp_lock. repeat split; reflexivity.
Qed.

Lemma saveSettings_persisted newSettings m text content :
  encryptionAvailable (env m) = true ->
  JSON_stringify (settings_value (merge_settings (settings (self m)) newSettings)) = Some text ->
  ss_encrypt text = Some content ->
  dataPath ∈ dirs (fs m) ->
  io_fault (env m) (io_tick (ticks m)) = false ->
  result (saveSettings newSettings) m = Ok true /\
  files (fs (after (saveSettings newSettings) m)) = <[configFile := content]> (files (fs m)).
Proof.
  intros Hav Hprint Hseal Hdir Hio.
  assert (Hd : bool_decide (fst configFile ∈ dirs (fs m)) = true)
    by (apply bool_decide_eq_true_2, Hdir).
  change (wp (saveSettings newSettings)
            (fun r m' => r = Ok true /\
                         files (fs m') = <[configFile := content]> (files (fs m))) m).
  unfold saveSettings. wp_lock. split; reflexivity.
Qed.

Lemma saveSettings_failed newSettings m :
  encryptionAvailable (env m) = true ->
  (JSON_stringify (settings_value (merge_settings (settings (self m)) newSettings)) = None \/
   (exists text,
       JSON_stringify (settings_value (merge_settings (settings (self m)) newSettings))
       = Some text /\ ss_encrypt text = None) \/
   io_fault (env m) (io_tick (ticks m)) = true \/
   dataPath ∉ dirs (fs m)) ->
  result (saveSettings newSettings) m = Ok false /\
  fs (after (saveSettings newSettings) m) = fs m.
Proof.
  intros Hav Hfail.
  change (wp (saveSettings newSettings) (fun r m' => r = Ok false /\ fs m' = fs m) m).
  unfold saveSettings.
  destruct (JSON_stringify _) as [text |] eqn:Hprint; [| wp_lock; split; reflexivity].
  destruct (ss_encrypt text) as [content |] eqn:Hseal; [| wp_lock; split; reflexivity].
  destruct Hfail as [? | [(text' & Ht & Hnone) | [Hio | Hdir]]]; try congruence.
  - wp_lock; split; reflexivity.
  - assert (Hd : bool_decide (fst configFile ∈ dirs (fs m)) = false)
      by (apply bool_decide_eq_false_2, Hdir).
    wp_lock; split; reflexivity.
Qed.

Lemma getSecurityStatus_spec m :
  getSecurityStatus m =
  (Ok {| st_isLocked := isLocked (self m);
         st_secureStorageAvailable := encryptionAvailable (env m);
         st_sessionProtected := bool_decide (is_Some (files (fs m) !! keyFile));
         st_encryptionAlgorithm := "AES-256-GCM";
         st_keyStorage := if encryptionAvailable (env m)
                          then "OS Keychain (DPAPI/Keychain)"
                          else "File-based (fallback)";
         st_autoLockMinutes := autoLockMinutes (settings (self m));
         st_integrityVerified := bool_decide (is_Some (files (fs m) !! integrityFile));
         st_settings := settings (self m) |}, m).
Proof. reflexivity. Qed.

(** [C9] [saveSettings] replaces, key by key, the settings that the partial
    record holds and keeps the others; it recomputes the timeout from the
    minutes; it never throws; with [safeStorage] available it writes the
    encrypted JSON text of the five settings to the settings file and
    returns [true], or returns [false] and writes nothing when serialising,
    encrypting or writing fails; with [safeStorage] unavailable it writes
    nothing and returns [true]; in every case [getSecurityStatus] then
    reports the [autoLockMinutes] held in memory. *)
Theorem saveSettings_contract m newSettings :
  let m' := after (saveSettings newSettings) m in
  let old := settings (self m) in
  let new := settings (self m') in
  (requireBiometric new = default (requireBiometric old) (p_requireBiometric newSettings) /\
   lockOnMinimize new = default (lockOnMinimize old) (p_lockOnMinimize newSettings) /\
   autoLockMinutes new = default (autoLockMinutes old) (p_autoLockMinutes newSettings) /\
   secureClipboard new = default (secureClipboard old) (p_secureClipboard newSettings) /\
   preventScreenCapture new =
     default (preventScreenCapture old) (p_preventScreenCapture newSettings)) /\
  (exact_minutes (autoLockMinutes new) ->
   lockTimeoutMs (self m') = autoLockMinutes new * 60000) /\
  (exists saved : bool, result (saveSettings newSettings) m = Ok saved) /\
  (forall text content,
      encryptionAvailable (env m) = true ->
      JSON_stringify (settings_document new) = Some text ->
      ss_encrypt text = Some content ->
      dataPath ∈ dirs (fs m) ->
      io_fault (env m) (io_tick (ticks m)) = false ->
      result (saveSettings newSettings) m = Ok true /\
      files (fs m') = <[configFile := content]> (files (fs m))) /\
  (encryptionAvailable (env m) = true ->
   JSON_stringify (settings_document new) = None \/
   (exists text, JSON_stringify (settings_document new) = Some text /\
                 ss_encrypt text = None) \/
   io_fault (env m) (io_tick (ticks m)) = true \/
   dataPath ∉ dirs (fs m) ->
   result (saveSettings newSettings) m = Ok false /\ fs m' = fs m) /\
  (encryptionAvailable (env m) = false ->
   result (saveSettings newSettings) m = Ok true /\ fs m' = fs m) /\
  (exists status,
      result getSecurityStatus m' = Ok status /\
      st_autoLockMinutes status = autoLockMinutes new /\
      forall minutes, p_autoLockMinutes newSettings = Some minutes ->
                      st_autoLockMinutes status = minutes).
Proof.
  intros m' old new.
  destruct (saveSettings_memory newSettings m) as (Hset & Hms & _).
  fold m' in Hset, Hms.
  assert (Hnew : new = merge_settings old newSettings) by exact Hset.
  assert (Hdoc : settings_document new =
                 settings_value (merge_settings old newSettings))
    by (rewrite Hnew; reflexivity).
  split.
  { rewrite Hnew. unfold merge_settings. cbn. repeat split; reflexivity. }
  split.
  { intros Hexact. rewrite Hms.
    change (merge_settings (settings (self m)) newSettings)
      with (merge_settings old newSettings).
    rewrite <- Hnew, timeout_exact by exact Hexact. lia. }
  split; [apply saveSettings_never_throws |].
  split; [| split; [| split]].
  - intros text content Hav Hprint Hseal Hdir Hio. rewrite Hdoc in Hprint.
    now apply saveSettings_persisted with (text := text).
  - intros Hav Hfail. rewrite Hdoc in Hfail. now apply saveSettings_failed.
  - intros Hav. destruct (saveSettings_unavailable newSettings m Hav) as (Hr & Hf & _).
    split; assumption.
  - eexists. unfold result. rewrite getSecurityStatus_spec. cbn [fst st_autoLockMinutes].
    split; [reflexivity |]. split; [reflexivity |].
    intros minutes Hm. fold new. rewrite Hnew. unfold merge_settings. cbn. now rewrite Hm.
Qed.

End SettingsStore.

(** ** Key generation and regeneration *)

Section KeyLifecycle.
Context `{RT : Runtime}.




End KeyLifecycle.

(** ** The secure eraser *)

Ltac wp_erase_step :=
  first
    [ wp_prim
    | lazymatch goal with
      | |- wp (for_loop _ _) _ _ => cbn [for_loop]
      | |- wp (secureDelete _) _ _ => unfold secureDelete
      end ];
  unfold drawn; state_simpl.

Ltac wp_erase := repeat wp_erase_step.

Lemma machine_eq (a b : Machine) :
  self a = self b -> fs a = fs b -> env a = env b -> ticks a = ticks b ->
  loop a = loop b -> trace a = trace b -> a = b.
Proof. destruct a, b. cbn. now intros -> -> -> -> -> ->. Qed.

Section Eraser.
Context `{RT : Runtime}.


Lemma pass_length_positive content : (0 < pass_length content)%nat.
Proof. unfold pass_length. destruct content; cbn; lia. Qed.



Lemma fault_free_at m k : fault_free m -> io_fault (env m) (k + io_tick (ticks m)) = false.
Proof. intros H. apply H. lia. Qed.

(** When nothing fails, [secureDelete p] leaves [erase p m]. *)
Lemma secureDelete_erases p m :
  fault_free m ->
  fst p ∈ dirs (fs m) ->
  secureDelete p m = (Ok tt, erase p m).
Proof.
  intros Hcalm Hdir. unfold erase, erasure_events, pass_length.
  destruct (files (fs m) !! p) as [content |] eqn:Hfile.
  - apply wp_eq.
    assert (Hex : bool_decide (is_Some (files (fs m) !! p)) = true)
      by (apply bool_decide_eq_true_2; rewrite Hfile; eauto).
    assert (Hd : bool_decide (fst p ∈ dirs (fs m)) = true)
      by (apply bool_decide_eq_true_2, Hdir).
    pose proof (fault_free_at m 0 Hcalm) as Hf0.
    pose proof (fault_free_at m 1 Hcalm) as Hf1.
    pose proof (fault_free_at m 2 Hcalm) as Hf2.
    pose proof (fault_free_at m 3 Hcalm) as Hf3.
    pose proof (fault_free_at m 4 Hcalm) as Hf4.
    pose proof (fault_free_at m 5 Hcalm) as Hf5.
    cbn [Nat.add] in Hf0, Hf1, Hf2, Hf3, Hf4, Hf5.
    wp_erase.
    + split; [reflexivity |].
      apply machine_eq; state_simpl; try reflexivity.
      * now rewrite !delete_insert_eq.
      * now rewrite <- !app_assoc.
    + decide_hyps. rewrite lookup_insert_eq in *. absurd_some.
  - apply wp_eq.
    assert (Hex : bool_decide (is_Some (files (fs m) !! p)) = false).
    { apply bool_decide_eq_false_2. rewrite Hfile. intros [? ?]. discriminate. }
    wp_erase. split; reflexivity.
Qed.

Lemma erase_frame p m :
  dirs (fs (erase p m)) = dirs (fs m) /\
  env (erase p m) = env m /\
  (io_tick (ticks m) <= io_tick (ticks (erase p m)))%nat /\
  trace (erase p m) = (trace m ++ erasure_events p m)%list /\
  files (fs (erase p m)) = delete p (files (fs m)).
Proof.
  unfold erase, erasure_events. destruct (files (fs m) !! p) eqn:Hfile; cbn.
  - repeat split; lia.
  - repeat split; [lia | now rewrite app_nil_r | now rewrite delete_id].
Qed.

Lemma erase_fault_free p m : fault_free m -> fault_free (erase p m).
Proof.
  intros Hcalm n Hn. destruct (erase_frame p m) as (_ & He & Ht & _).
  rewrite He. apply Hcalm. lia.
Qed.

Lemma wp_known {A} (c : M A) r m m' Q : c m = (r, m') -> Q r m' -> wp c Q m.
Proof. unfold wp, result, after. now intros ->. Qed.

Lemma under_self d : under d d = true.
Proof. unfold under. now rewrite bool_decide_eq_true_2. Qed.

(** When nothing fails, [clearAllData] erases the three files in turn and
    removes the directory. *)
Lemma clearAllData_success m :
  fault_free m ->
  dataPath ∈ dirs (fs m) ->
  clearAllData m =
  (Ok true, removed dataPath (erase integrityFile (erase configFile (erase keyFile m)))).
Proof.
  intros Hcalm Hdir.
  pose proof (erase_frame keyFile m) as (Hd1 & _).
  pose proof (erase_frame configFile (erase keyFile m)) as (Hd2 & _).
  pose proof (erase_frame integrityFile (erase configFile (erase keyFile m))) as (Hd3 & _).
  pose proof (erase_fault_free keyFile m Hcalm) as Hc1.
  pose proof (erase_fault_free configFile _ Hc1) as Hc2.
  pose proof (erase_fault_free integrityFile _ Hc2) as Hc3.
  apply wp_eq. unfold clearAllData, erase_everything.
  apply wp_try_catch, wp_bind.
  eapply wp_known; [apply secureDelete_erases; [exact Hcalm | exact Hdir] |].
  cbn beta iota. apply wp_bind.
  eapply wp_known;
    [apply secureDelete_erases; [exact Hc1 | cbn [fst configFile]; now rewrite Hd1] |].
  cbn beta iota. apply wp_bind.
  eapply wp_known;
    [apply secureDelete_erases; [exact Hc2 | cbn [fst integrityFile]; now rewrite Hd2, Hd1] |].
  cbn beta iota.
  set (m3 := erase integrityFile (erase configFile (erase keyFile m))) in *.
  assert (Hex : bool_decide (dataPath ∈ dirs (fs m3)) = true)
    by (apply bool_decide_eq_true_2; now rewrite Hd3, Hd2, Hd1).
  pose proof (fault_free_at m3 0 Hc3) as Hf. cbn [Nat.add] in Hf.
  wp_auto. split; reflexivity.
Qed.

Lemma removed_clean d m :
  (d ∉ dirs (fs (removed d m))) /\
  forall name, files (fs (removed d m)) !! (d, name) = None.
Proof.
  unfold removed. state_simpl. split.
  - intros Hin. apply elem_of_filter in Hin as [Hin _].
    rewrite under_self in Hin. discriminate.
  - intros name. apply map_lookup_filter_None_2. right. intros content _ Hkeep.
    cbn [fst] in Hkeep. rewrite under_self in Hkeep. discriminate.
Qed.




Lemma new_events_app m m' (events : list Event) :
  trace m' = (trace m ++ events)%list -> new_events m m' = events.
Proof. intros Ht. unfold new_events. now rewrite Ht, drop_app_length. Qed.


End Eraser.

(** ** Short ciphertexts repeat

    Counter mode keeps the length of the plaintext, so a one-byte JSON text
    has only 256 ciphertexts: among 257 ivs two give the same one, whatever
    the key stream is. *)

Section Collisions.
Context `{RT : Runtime}.

Lemma to_N_byte_of_N n : Byte.to_N (byte_of_N n) = (n mod 256)%N.
Proof.
  unfold byte_of_N. destruct (Byte.of_N (n mod 256)) eqn:E.
  - now apply Byte.to_of_N.
  - apply Byte.of_N_None_iff in E. pose proof (N.mod_lt n 256). lia.
Qed.

Lemma numbered_iv_length i : length (numbered_iv i) = 16%nat.
Proof. reflexivity. Qed.

Lemma numbered_iv_inj i j :
  (i / 256 < 256)%nat -> (j / 256 < 256)%nat -> numbered_iv i = numbered_iv j -> i = j.
Proof.
  intros Hi Hj Heq. unfold numbered_iv in Heq.
  injection Heq as Hlo Hhi.
  apply (f_equal Byte.to_N) in Hlo, Hhi. rewrite !to_N_byte_of_N in Hlo, Hhi.
  assert (Hlo' : (i mod 256 = j mod 256)%nat).
  { apply Nat2N.inj. rewrite !Nat2N.inj_mod. exact Hlo. }
  assert (Hhi' : (i / 256 = j / 256)%nat).
  { change (Nat.divmod i 255 0 255).1 with (i / 256)%nat in Hhi.
    change (Nat.divmod j 255 0 255).1 with (j / 256)%nat in Hhi.
    rewrite !N.mod_small in Hhi by lia. now apply Nat2N.inj. }
  rewrite (Nat.div_mod_eq i 256), (Nat.div_mod_eq j 256). congruence.
Qed.

Lemma short_ciphertexts_collide key (x : byte) :
  exists nonce nonce' : bytes,
    length nonce = 16%nat /\ length nonce' = 16%nat /\ nonce <> nonce' /\
    gcm_crypt key nonce [x] = gcm_crypt key nonce' [x].
Proof.
  pose (f := fun i => N.to_nat (Byte.to_N (byte_xor x (gcm_keystream key (numbered_iv i) 0)))).
  destruct (finite.nat_pigeonhole f 257 256) as (i & j & Hij & Hf); [lia | |].
  { intros i _. unfold f. pose proof (Byte.to_N_bounded
      (byte_xor x (gcm_keystream key (numbered_iv i) 0))). lia. }
  exists (numbered_iv i), (numbered_iv j). repeat split.
  - intros Heq. apply numbered_iv_inj in Heq; [lia | |];
      apply Nat.Div0.div_lt_upper_bound; lia.
  - assert (Hb : byte_xor x (gcm_keystream key (numbered_iv i) 0) =
                 byte_xor x (gcm_keystream key (numbered_iv j) 0)).
    { unfold f in Hf. apply N2Nat.inj in Hf. apply (f_equal Byte.of_N) in Hf.
      rewrite !Byte.of_to_N in Hf. now injection Hf. }
    unfold gcm_crypt, crypt_from. cbn [length seq combine map]. now rewrite Hb.
Qed.

End Collisions.

(** ** The reference runtime *)

Section ReferenceRuntime.
Local Existing Instance Reference.runtime.

Lemma reference_tag_128 : tag_128.
Proof. intros key nonce ciphertext. apply repeat_length. Qed.




Lemma reference_unseal_seal s content :
  Reference.seal s = Some content -> Reference.unseal content = Some s.
Proof.
  intros [= <-]. cbn. f_equal. rewrite <- (utf8_decode_encode s) at 2. f_equal.
  rewrite map_map. rewrite <- (map_id (utf8_encode s)) at 2.
  apply map_ext. intros x. rewrite (byte_xor_comm _ (byte_xor _ x)).
  rewrite (byte_xor_comm _ x). apply byte_xor_involutive.
Qed.

End ReferenceRuntime.

(** ** The methods at work on the reference runtime *)

Section Runs.
Local Existing Instance Reference.runtime.

Lemma reference_payload_serializable : json_serializable Reference.payload.
Proof.
  exists (default EmptyString (Reference.print_json Reference.payload)).
  split; vm_compute; reflexivity.
Qed.

Lemma encrypt_decrypt_roundtrip_witness :
  let key := "2972bb044d96df2871ba034c95de2770b9024b94dd266fb8014a93dc256eb700" in
  key_256 key /\
  result getSessionKey Reference.first_run = Ok key /\
  exists envelope,
    result (encrypt Reference.payload) Reference.first_run = Ok (Some envelope) /\
    result (decrypt (Some envelope)) (after (encrypt Reference.payload) Reference.first_run)
    = Ok Reference.payload.
Proof.
  intros key. split; [vm_compute; reflexivity |]. split; [vm_compute; reflexivity |].
  apply (encrypt_decrypt_roundtrip Reference.first_run Reference.payload key).
  - exact reference_tag_128.
  - exact reference_payload_serializable.
  - vm_compute. reflexivity.
  - vm_compute. reflexivity.
  - vm_compute. reflexivity.
Defined.



Lemma unlock_denied_stays_locked_witness :
  let m := Reference.with_object Reference.guarded Reference.first_run in
  isLocked (self m) = true /\
  result (unlock true) m = Ok false /\
  isLocked (self (after (unlock true) m)) = true.
Proof.
  intros m. split; [reflexivity |].
  destruct (unlock_denied_stays_locked m) as (Hr & _ & _ & Hlocked).
  - reflexivity.
  - vm_compute. reflexivity.
  - split; [exact Hr |]. rewrite Hlocked. reflexivity.
Defined.

Lemma unlock_without_biometric_witness :
  let m := Reference.with_object Reference.guarded Reference.first_run in
  result (unlock false) m = Ok true /\
  isLocked (self (after (unlock false) m)) = false /\
  lockTimeout (self (after (unlock false) m)) = Some 0%nat /\
  pending (loop (after (unlock false) m)) !! 0%nat = Some 1800000 /\
  prompts (ticks (after (unlock false) m)) = 0%nat.
Proof.
  intros m.
  destruct (unlock_without_biometric m) as (Hr & Hl & Hh & Hq & Hp & _);
    [reflexivity |].
  split; [exact Hr |]. split; [exact Hl |]. split; [exact Hh |].
  split; [rewrite Hq; apply lookup_insert_eq | exact Hp].
Defined.

End Runs.

Section WindowsRuns.
Local Existing Instance Reference.windows.

Lemma unlock_granted_by_placeholder_witness :
  let m := Reference.with_object Reference.guarded Reference.first_run in
  let m' := after (unlock true) m in
  platform = Win32 /\
  isLocked (self m) = true /\
  requireBiometric (settings (self m)) = true /\
  result (unlock true) m = Ok true /\
  isLocked (self m') = false /\
  prompts (ticks m') = prompts (ticks m) /\
  trace m' = trace m.
Proof.
  intros m m'.
  destruct (unlock_granted_by_placeholder (RT := Reference.windows) m eq_refl eq_refl)
    as (Hr & Hl & _ & Hp & Ht).
  split; [reflexivity |]. split; [reflexivity |]. split; [reflexivity |].
  split; [exact Hr |]. split; [exact Hl |]. split; [exact Hp | exact Ht].
Defined.

End WindowsRuns.

(** ** The methods at work on AES-256-GCM

    The S-box, the block cipher and GCM on published values (FIPS 197,
    appendix C.3; test case 14 of the GCM specification), then [encrypt]
    and [decrypt] on the cipher. *)

Section AesChecks.
Local Open Scope N_scope.

Lemma sbox_examples : Aes.sbox 0 = 99 /\ Aes.sbox 83 = 237 /\ Aes.sbox 255 = 22.
Proof. split; [| split]; vm_compute; reflexivity. Qed.

Lemma fips197_c3 :
  map byte_of_N
    (Aes.encrypt_block
       (Aes.round_keys (Aes.numbers (fromHex
          "000102030405060708090a0b0c0d0e0f101112131415161718191a1b1c1d1e1f")))
       (Aes.numbers (fromHex "00112233445566778899aabbccddeeff")))
  = fromHex "8ea2b7ca516745bfeafc49904b496089".
Proof. vm_compute. reflexivity. Qed.

End AesChecks.

Section AesRuns.
Local Existing Instance Aes.runtime.

Lemma aes_tag_128 : tag_128.
Proof.
  intros key nonce ciphertext. cbn [gcm_mac Aes.runtime]. unfold Aes.mac, Aes.bytes_of_block.
  now rewrite !length_map, length_seq.
Qed.

Lemma gcm_test_case_14 :
  toHex (gcm_crypt (repeat x00 32) (repeat x00 12) (repeat x00 16))
  = "cea7403d4d606b6e074ec5d3baf39d18" /\
  toHex (gcm_mac (repeat x00 32) (repeat x00 12)
           (gcm_crypt (repeat x00 32) (repeat x00 12) (repeat x00 16)))
  = "d0d1c8a799996bf0265b98b5d48ab919".
Proof. split; vm_compute; reflexivity. Qed.

Lemma sixteen_byte_iv :
  let key := fromHex "000102030405060708090a0b0c0d0e0f101112131415161718191a1b1c1d1e1f" in
  let nonce := fromHex "a73c11f05e9207d468b32ac9408de619" in
  toHex (gcm_crypt key nonce (utf8_encode "7")) = "3d" /\
  toHex (gcm_mac key nonce (gcm_crypt key nonce (utf8_encode "7")))
  = "5eb3f412af7f41442c97ddc41da1714c".
Proof. split; vm_compute; reflexivity. Qed.



End AesRuns.

Ltac by_compute :=
  lazymatch goal with
  | |- ?P => apply (bool_decide_eq_true_1 P); vm_compute; reflexivity
  end.

Section KeyRuns.
Local Existing Instance Reference.runtime.





Lemma saveSettings_contract_witness :
  let saved := {| requireBiometric := false; lockOnMinimize := false;
                  autoLockMinutes := 15; secureClipboard := true;
                  preventScreenCapture := false |} in
  (let m := Reference.first_run in
   let m' := after (saveSettings (auto_lock_only 15)) m in
   encryptionAvailable (env m) = true /\
   result (saveSettings (auto_lock_only 15)) m = Ok true /\
   settings (self m') = saved /\
   lockTimeoutMs (self m') = 900000 /\
   exists text,
     Reference.print_json (settings_document saved) = Some text /\
     files (fs m') !! configFile = Reference.seal text) /\
  (let m := Reference.with_env Reference.fallback Reference.first_run in
   let m' := after (saveSettings (auto_lock_only 15)) m in
   encryptionAvailable (env m) = false /\
   result (saveSettings (auto_lock_only 15)) m = Ok true /\
   lockTimeoutMs (self m') = 900000 /\
   fs m' = fs m /\
   exists status,
     result getSecurityStatus m' = Ok status /\ st_autoLockMinutes status = 15).
Proof.
  intros saved. split.
  - intros m m'.
    destruct (saveSettings_contract m (auto_lock_only 15))
      as (Hmerge & Hms & _ & Hon & _).
    fold m' in Hmerge, Hms, Hon.
    assert (Hsaved : settings (self m') = saved).
    { destruct (settings (self m')) as [a b c d e].
      cbn [requireBiometric lockOnMinimize autoLockMinutes secureClipboard
           preventScreenCapture] in Hmerge.
      destruct Hmerge as (-> & -> & -> & -> & ->). reflexivity. }
    rewrite Hsaved in Hms, Hon.
    pose (text := default EmptyString (Reference.print_json (settings_document saved))).
    destruct (Hon text (x01 :: map (byte_xor Reference.mask) (utf8_encode text)))
      as [Hr Hfiles].
    + reflexivity.
    + vm_compute. reflexivity.
    + reflexivity.
    + by_compute.
    + reflexivity.
    + split; [reflexivity |]. split; [exact Hr |]. split; [exact Hsaved |].
      split; [apply Hms; vm_compute; discriminate |].
      exists text. split; [vm_compute; reflexivity |].
      rewrite Hfiles. apply lookup_insert_eq.
  - intros m m'.
    destruct (saveSettings_contract m (auto_lock_only 15))
      as (Hmerge & Hms & _ & _ & _ & Hoff & status & Hstatus & _ & Hminutes).
    fold m' in Hmerge, Hms.
    destruct (Hoff eq_refl) as [Hr Hfs].
    destruct Hmerge as (_ & _ & Hminutes' & _).
    split; [reflexivity |]. split; [exact Hr |].
    split; [rewrite Hms; rewrite Hminutes'; [reflexivity | vm_compute; discriminate] |].
    split; [exact Hfs |].
    exists status. split; [exact Hstatus |]. now apply Hminutes.
Defined.



End KeyRuns.

Section Scenarios.
Local Existing Instance Reference.runtime.

(** Once [clearAllData] has removed the secure directory, a generated key
    cannot be written: [encrypt] and [decrypt] each draw a key of their own
    and the round trip is lost. *)
Lemma roundtrip_lost_without_directory :
  let m := after clearAllData Reference.first_run in
  (dataPath ∉ dirs (fs m)) /\
  result getSessionKey m <> result getSessionKey (after (encrypt Reference.payload) m) /\
  match result (encrypt Reference.payload) m with
  | Ok (Some envelope) =>
      result (decrypt (Some envelope)) (after (encrypt Reference.payload) m) = Ok VNull
  | _ => False
  end.
Proof.
  cbv zeta. split; [| split].
  - intros Hin. apply (bool_decide_eq_true_2 _) in Hin. vm_compute in Hin. discriminate.
  - vm_compute. discriminate.
  - vm_compute. reflexivity.
Qed.

(** The hex text of an envelope can change while its bytes stay the same,
    by the case of its letters: [decrypt] then returns the payload. *)
Lemma letter_case_is_not_tampering :
  let m := Reference.first_run in
  let sealed :=
    {| iv := "4992db246db6ff4891da236cb5fe4790";
       data := "1bc30340474a53099c4b1009595e0b9da0e4fac2c9f5ea82a6e6d8ccaea1ccec2fae296a6176247d93783d27627822a39d8d80f1e1c8c3aacaccf8a996d9bcda45dc";
       tag := "d0d0d0d0d0d0d0d0d0d0d0d0d0d0d0d0";
       v := 2 |} in
  let shouted :=
    {| iv := "4992DB246DB6FF4891DA236CB5FE4790";
       data := "1BC30340474A53099C4B1009595E0B9DA0E4FAC2C9F5EA82A6E6D8CCAEA1CCEC2FAE296A6176247D93783D27627822A39D8D80F1E1C8C3AACACCF8A996D9BCDA45DC";
       tag := "D0D0D0D0D0D0D0D0D0D0D0D0D0D0D0D0";
       v := 2 |} in
  result (encrypt Reference.payload) m = Ok (Some sealed) /\
  fromHex (data shouted) = fromHex (data sealed) /\
  result (decrypt (Some shouted)) (after (encrypt Reference.payload) m)
  = Ok Reference.payload.
Proof. cbv zeta. split; [| split]; vm_compute; reflexivity. Qed.

(** The menu entry "Auto-Lock: Never" saves 0 minutes; the next
    [resetLockTimeout], as on any key stroke, locks the session a
    millisecond later. *)
Lemma never_means_at_once :
  let m := after (saveSettings (auto_lock_only 0)) Reference.first_run in
  isLocked (self m) = false /\
  st_autoLockMinutes <$> result_value (result getSecurityStatus m) = Some 0 /\
  isLocked (self (after (elapse 1) (after resetLockTimeout m))) = true.
Proof. cbv zeta. repeat split; vm_compute; reflexivity. Qed.

(** Settings saved with 15 minutes and read back by the constructor at the
    next start: the settings say 15, the timeout is still that of 30. *)
Lemma loaded_settings_keep_default_timeout :
  let m := after constructor
             (after (saveSettings (auto_lock_only 15)) Reference.first_run) in
  autoLockMinutes (settings (self m)) = 15 /\
  lockTimeoutMs (self m) = 30 * 60 * 1000.
Proof. cbv zeta. split; vm_compute; reflexivity. Qed.

End Scenarios.

(** ** Construction, settings and integrity *)

Section Construction.
Context `{RT : Runtime}.

(** What the three steps of the constructor leave alone. *)
Lemma initSecureDirectory_spec m :
  wp _initSecureDirectory
    (fun r m' =>
       r = Ok tt /\ self m' = self m /\ loop m' = loop m /\ env m' = env m /\
       files (fs m') = files (fs m) /\
       (dataPath ∈ dirs (fs m) -> m' = m) /\
       (dataPath ∉ dirs (fs m) -> io_fault (env m) (io_tick (ticks m)) = false ->
        dirs (fs m') = {[dataPath]} ∪ dirs (fs m))) m.
Proof.
  unfold _initSecureDirectory. wp_auto.
  all: rewrite ?negb_true_iff, ?negb_false_iff in *; decide_hyps.
  all: repeat split; try reflexivity; try congruence; try contradiction.
Qed.

Lemma loadSettings_frame m :
  wp _loadSettings
    (fun r m' =>
       r = Ok tt /\ fs m' = fs m /\ loop m' = loop m /\ env m' = env m /\
       isLocked (self m') = isLocked (self m) /\
       lockTimeout (self m') = lockTimeout (self m) /\
       lockTimeoutMs (self m') = lockTimeoutMs (self m)) m.
Proof. unfold _loadSettings. wp_lock; repeat split; reflexivity. Qed.

Lemma verifyIntegrity_frame m :
  wp _verifyIntegrity
    (fun r m' =>
       r = Ok tt /\ self m' = self m /\ loop m' = loop m /\ env m' = env m /\
       dirs (fs m') = dirs (fs m) /\
       forall p, p <> integrityFile -> files (fs m') !! p = files (fs m) !! p) m.
Proof.
  unfold _verifyIntegrity. wp_auto.
  all: repeat split; try reflexivity.
  all: intros p Hp; now rewrite lookup_insert_ne by congruence.
Qed.

(** The fields of the object that the constructor leaves. *)
Lemma constructor_object m :
  let m' := after constructor m in
  isLocked (self m') = false /\
  lockTimeout (self m') = None /\
  lockTimeoutMs (self m') = 1800000 /\
  loop m' = loop m.
Proof.
  change (wp constructor
            (fun _ m' =>
               isLocked (self m') = false /\ lockTimeout (self m') = None /\
               lockTimeoutMs (self m') = 1800000 /\ loop m' = loop m) m).
  unfold constructor. apply wp_bind, wp_modify. apply wp_bind.
  eapply wp_consequence; [apply initSecureDirectory_spec |].
  intros r1 m1 (-> & Hs1 & Hl1 & _). state_simpl_in Hs1. state_simpl_in Hl1.
  apply wp_bind. eapply wp_consequence; [apply loadSettings_frame |].
  intros r2 m2 (-> & _ & Hl2 & _ & Hk2 & Hh2 & Hms2).
  eapply wp_consequence; [apply verifyIntegrity_frame |].
  intros r3 m3 (_ & Hs3 & Hl3 & _).
  rewrite Hs3, Hk2, Hh2, Hms2, Hs1, Hl3, Hl2, Hl1. repeat split; reflexivity.
Qed.

(** [X1] The constructor never throws, whatever the disk and [safeStorage]
    do.  The object it leaves is unlocked, holds no timer handle and has a
    timeout of 30 minutes whatever the settings file says; the timer queue
    is untouched, and no file but the integrity record is written. *)
Theorem constructor_contract m :
  let m' := after constructor m in
  result constructor m = Ok tt /\
  isLocked (self m') = false /\
  lockTimeout (self m') = None /\
  lockTimeoutMs (self m') = 1800000 /\
  loop m' = loop m /\
  env m' = env m /\
  forall p, p <> integrityFile -> files (fs m') !! p = files (fs m) !! p.
Proof.
  intros m'. destruct (constructor_object m) as (Hk & Hh & Hms & Hl).
  fold m' in Hk, Hh, Hms, Hl.
  assert (Hrest : result constructor m = Ok tt /\ env m' = env m /\
                  forall p, p <> integrityFile -> files (fs m') !! p = files (fs m) !! p).
  { subst m'.
    change (wp constructor
              (fun r m' =>
                 r = Ok tt /\ env m' = env m /\
                 forall p, p <> integrityFile -> files (fs m') !! p = files (fs m) !! p) m).
    unfold constructor. apply wp_bind, wp_modify. apply wp_bind.
    eapply wp_consequence; [apply initSecureDirectory_spec |].
    intros r1 m1 (-> & _ & _ & He1 & Hf1 & _). state_simpl_in He1. state_simpl_in Hf1.
    apply wp_bind. eapply wp_consequence; [apply loadSettings_frame |].
    intros r2 m2 (-> & Hf2 & _ & He2 & _).
    eapply wp_consequence; [apply verifyIntegrity_frame |].
    intros r3 m3 (-> & _ & _ & He3 & _ & Hf3).
    rewrite He3, He2, He1. repeat split; try reflexivity.
    intros p Hp. now rewrite Hf3, Hf2, Hf1. }
  destruct Hrest as (Hr & He & Hf). repeat split; assumption.
Qed.

Lemma merge_settings_total s s' :
  merge_settings s (partial_of_value (settings_value s')) = s'.
Proof. destruct s'. reflexivity. Qed.

Lemma loadSettings_loaded m content text value :
  files (fs m) !! configFile = Some content ->
  io_fault (env m) (io_tick (ticks m)) = false ->
  encryptionAvailable (env m) = true ->
  ss_decrypt content = Some text ->
  JSON_parse text = Some value ->
  settings (self (after _loadSettings m)) =
  merge_settings (settings (self m)) (partial_of_value value).
Proof.
  intros Hfile Hio Hav Hopen Hparse.
  change (wp _loadSettings
            (fun _ m' => settings (self m') =
                         merge_settings (settings (self m)) (partial_of_value value)) m).
  pose proof (bool_decide_eq_true_2 (is_Some (files (fs m) !! configFile))
                (ex_intro _ content Hfile)) as Hex.
  unfold _loadSettings. wp_lock. congruence.
Qed.

Lemma saveSettings_ticks newSettings m :
  (io_tick (ticks m) <= io_tick (ticks (after (saveSettings newSettings) m)))%nat.
Proof.
  change (wp (saveSettings newSettings)
            (fun _ m' => (io_tick (ticks m) <= io_tick (ticks m'))%nat) m).
  unfold saveSettings. wp_lock; lia.
Qed.

(** [X2] Settings saved by [saveSettings] are the settings of the object
    that the next start constructs: when [safeStorage] is available and
    decrypts what it encrypted, the JSON codec reads back the settings it
    printed, the secure directory exists and no file-system call fails. *)
Theorem settings_survive_restart m newSettings text content :
  encryptionAvailable (env m) = true ->
  JSON_stringify (settings_value (merge_settings (settings (self m)) newSettings)) = Some text ->
  JSON_parse text = Some (settings_value (merge_settings (settings (self m)) newSettings)) ->
  ss_encrypt text = Some content ->
  ss_decrypt content = Some text ->
  dataPath ∈ dirs (fs m) ->
  fault_free m ->
  let m1 := after (saveSettings newSettings) m in
  result (saveSettings newSettings) m = Ok true /\
  settings (self (after constructor m1)) = merge_settings (settings (self m)) newSettings.
Proof.
  intros Hav Hprint Hparse Hseal Hopen Hdir Hcalm m1.
  assert (Hio : io_fault (env m) (io_tick (ticks m)) = false) by (apply Hcalm; lia).
  destruct (saveSettings_persisted newSettings m text content Hav Hprint Hseal Hdir Hio)
    as [Hr Hfiles].
  split; [exact Hr |].
  destruct (saveSettings_memory newSettings m) as (_ & _ & _ & _ & _ & Henv & Hdirs).
  pose proof (saveSettings_ticks newSettings m) as Hticks.
  fold m1 in Hfiles, Henv, Hdirs, Hticks.
  change (wp constructor
            (fun _ m' => settings (self m') =
                         merge_settings (settings (self m)) newSettings) m1).
  unfold constructor. apply wp_bind, wp_modify. apply wp_bind.
  eapply wp_consequence; [apply initSecureDirectory_spec |].
  intros r1 m2 (-> & _ & _ & _ & _ & Hsame & _).
  rewrite (Hsame ltac:(state_simpl; now rewrite Hdirs)). clear Hsame m2.
  apply wp_bind.
  set (m2 := with_self (fun _ => new_object) m1).
  pose proof (loadSettings_loaded m2 content text
                (settings_value (merge_settings (settings (self m)) newSettings))) as Hload.
  specialize (Hload ltac:(subst m2; state_simpl; rewrite Hfiles; apply lookup_insert_eq)).
  specialize (Hload ltac:(subst m2; state_simpl; rewrite Henv; apply Hcalm; exact Hticks)).
  specialize (Hload ltac:(subst m2; state_simpl; now rewrite Henv) Hopen Hparse).
  rewrite merge_settings_total in Hload.
  pose proof (loadSettings_frame m2) as (Hr2 & _). unfold wp in Hr2.
  unfold wp at 1. rewrite Hr2.
  eapply wp_consequence; [apply verifyIntegrity_frame |].
  intros r3 m4 (_ & Hs & _). now rewrite Hs.
Qed.

Lemma loadSettings_failure m :
  files (fs m) !! configFile = None \/
  encryptionAvailable (env m) = false \/
  io_fault (env m) (io_tick (ticks m)) = true ->
  result _loadSettings m = Ok tt /\
  self (after _loadSettings m) = self m /\
  fs (after _loadSettings m) = fs m.
Proof.
  intros Hfail.
  change (wp _loadSettings (fun r m' => r = Ok tt /\ self m' = self m /\ fs m' = fs m) m).
  unfold _loadSettings. wp_lock.
  all: try solve [repeat split; reflexivity].
  exfalso. destruct Hfail as [Hnone | [Hav | Hio']]; congruence.
Qed.

(** [X3] [_loadSettings] never throws, and whenever the settings cannot be
    read (no settings file, [safeStorage] unavailable, a failed read, a
    content that does not decrypt, a text that is not JSON) the object and
    the file system stay as they were. *)
Theorem loadSettings_failure_keeps_settings m :
  files (fs m) !! configFile = None \/
  encryptionAvailable (env m) = false \/
  io_fault (env m) (io_tick (ticks m)) = true \/
  (exists content, files (fs m) !! configFile = Some content /\
     (ss_decrypt content = None \/
      exists text, ss_decrypt content = Some text /\ JSON_parse text = None)) ->
  result _loadSettings m = Ok tt /\
  self (after _loadSettings m) = self m /\
  fs (after _loadSettings m) = fs m.
Proof.
  intros Hfail.
  change (wp _loadSettings (fun r m' => r = Ok tt /\ self m' = self m /\ fs m' = fs m) m).
  unfold _loadSettings. wp_lock.
  all: try solve [repeat split; reflexivity].
  exfalso.
  destruct Hfail as [Hnone | [Hav | [Hio' | (content & Hfile & Hbad)]]]; try congruence.
  injection Hfile as <-.
  destruct Hbad as [Hnone | (text & Hopen & Hparse)]; congruence.
Qed.

Lemma hex_digit_not_colon n : Ascii.eqb (hex_digit n) ":" = false.
Proof.
  destruct n as [| p]; [reflexivity |].
  repeat (destruct p as [p | p |]; try reflexivity).
Qed.

Lemma up_to_colon_toHex b : up_to_colon (toHex b) = toHex b.
Proof.
  induction b as [| x rest IH]; [reflexivity |].
  cbn [toHex up_to_colon]. now rewrite !hex_digit_not_colon, IH.
Qed.

Lemma second_field_record b : second_field ("main:" +:+ toHex b) = Some (toHex b).
Proof.
  change ("main:" +:+ toHex b)
    with (String "m" (String "a" (String "i" (String "n" (String ":" (toHex b)))))).
  cbn -[toHex up_to_colon]. now rewrite up_to_colon_toHex.
Qed.

Lemma mainFile_neq_integrityFile : mainFile <> integrityFile.
Proof. unfold mainFile, integrityFile. intros H. inversion H. Qed.

(** [X4] On first run [_verifyIntegrity] records ["main:"] followed by the
    SHA-256 hex digest of [main.js], the value of [hashData] on its
    content; and a later check against that record, with [main.js]
    unchanged, is silent: it logs nothing and writes nothing. *)
Theorem integrity_record_roundtrip content :
  (forall m,
      files (fs m) !! mainFile = Some content ->
      files (fs m) !! integrityFile = None ->
      dataPath ∈ dirs (fs m) ->
      fault_free m ->
      files (fs (after _verifyIntegrity m)) !! integrityFile =
        Some (utf8_encode ("main:" +:+ hashData content)) /\
      new_events m (after _verifyIntegrity m) =
        [EvWrite integrityFile (utf8_encode ("main:" +:+ hashData content))]) /\
  (forall m,
      files (fs m) !! mainFile = Some content ->
      files (fs m) !! integrityFile = Some (utf8_encode ("main:" +:+ hashData content)) ->
      fault_free m ->
      trace (after _verifyIntegrity m) = trace m /\
      fs (after _verifyIntegrity m) = fs m).
Proof.
  split.
  - intros m Hmain Hnone Hdir Hcalm.
    pose proof (fault_free_at m 0 Hcalm) as Hf0.
    pose proof (fault_free_at m 1 Hcalm) as Hf1. cbn [Nat.add] in Hf0, Hf1.
    assert (Hex : bool_decide (is_Some (files (fs m) !! mainFile)) = true)
      by (apply bool_decide_eq_true_2; eauto).
    assert (Hno : bool_decide (is_Some (files (fs m) !! integrityFile)) = false).
    { apply bool_decide_eq_false_2. rewrite Hnone. intros [? ?]. discriminate. }
    assert (Hd : bool_decide (fst integrityFile ∈ dirs (fs m)) = true)
      by (apply bool_decide_eq_true_2, Hdir).
    change (wp _verifyIntegrity
              (fun _ m' =>
                 files (fs m') !! integrityFile =
                   Some (utf8_encode ("main:" +:+ hashData content)) /\
                 new_events m m' =
                   [EvWrite integrityFile (utf8_encode ("main:" +:+ hashData content))]) m).
    unfold _verifyIntegrity, hashData. wp_auto.
    split; [apply lookup_insert_eq |].
    now apply new_events_app.
  - intros m Hmain Hrec Hcalm.
    pose proof (fault_free_at m 0 Hcalm) as Hf0.
    pose proof (fault_free_at m 1 Hcalm) as Hf1. cbn [Nat.add] in Hf0, Hf1.
    assert (Hex : bool_decide (is_Some (files (fs m) !! mainFile)) = true)
      by (apply bool_decide_eq_true_2; eauto).
    assert (Hyes : bool_decide (is_Some (files (fs m) !! integrityFile)) = true)
      by (apply bool_decide_eq_true_2; eauto).
    change (wp _verifyIntegrity (fun _ m' => trace m' = trace m /\ fs m' = fs m) m).
    unfold _verifyIntegrity, hashData in *.
    assert (Hfield : second_field
                       (utf8_decode (utf8_encode ("main:" +:+ toHex (sha256 content)))) =
                     Some (toHex (sha256 content)))
      by (rewrite utf8_decode_encode; apply second_field_record).
    wp_auto.
    all: try (split; reflexivity).
    rewrite String.eqb_refl, andb_false_r in *. discriminate.
Qed.

(** [X5] With [main.js] and an integrity record on disk and both reads
    succeeding, [_verifyIntegrity] never rewrites the record, and it warns
    exactly when the text between the first colon of the record and the
    next one is not empty and differs from the digest of [main.js]: a
    record without a colon, or with nothing after it, passes any
    [main.js]. *)
Theorem integrity_warning_exactly_when m content stored :
  files (fs m) !! mainFile = Some content ->
  files (fs m) !! integrityFile = Some stored ->
  io_fault (env m) (io_tick (ticks m)) = false ->
  io_fault (env m) (S (io_tick (ticks m))) = false ->
  let m' := after _verifyIntegrity m in
  fs m' = fs m /\
  new_events m m' =
    match second_field (utf8_decode stored) with
    | Some storedHash =>
        if bool_decide (storedHash <> EmptyString /\ storedHash <> hashData content)
        then [EvLog "warn" "App integrity check failed - files may have been modified"]
        else []
    | None => []
    end.
Proof.
  intros Hmain Hrec Hf0 Hf1.
  assert (Hex : bool_decide (is_Some (files (fs m) !! mainFile)) = true)
    by (apply bool_decide_eq_true_2; eauto).
  assert (Hyes : bool_decide (is_Some (files (fs m) !! integrityFile)) = true)
    by (apply bool_decide_eq_true_2; eauto).
  change (wp _verifyIntegrity
            (fun _ m' =>
               fs m' = fs m /\
               new_events m m' =
                 match second_field (utf8_decode stored) with
                 | Some storedHash =>
                     if bool_decide (storedHash <> EmptyString /\
                                     storedHash <> hashData content)
                     then [EvLog "warn"
                             "App integrity check failed - files may have been modified"]
                     else []
                 | None => []
                 end) m).
  unfold _verifyIntegrity, hashData.
  destruct (second_field (utf8_decode stored)) as [storedHash |] eqn:Hfield.
  - wp_auto; (split; [reflexivity |]).
    + apply andb_true_iff in Heqb as [He Hh].
      apply negb_true_iff, String.eqb_neq in He, Hh.
      rewrite bool_decide_eq_true_2 by (split; assumption).
      now apply new_events_app.
    + rewrite bool_decide_eq_false_2.
      * apply new_events_app. symmetry. apply app_nil_r.
      * intros [He Hh]. apply String.eqb_neq in He, Hh.
        rewrite He, Hh in Heqb. discriminate.
  - wp_auto. split; [reflexivity |]. apply new_events_app. symmetry. apply app_nil_r.
Qed.

End Construction.

(** ** Timers *)

Section Timers.
Context `{RT : Runtime}.

Lemma queue_cleared_owned m : timers_owned m -> queue_cleared m = ∅.
Proof.
  intros Hown. apply map_empty. intros id. unfold queue_cleared.
  destruct (lockTimeout (self m)) as [h |] eqn:Hh.
  - destruct (decide (id = h)) as [-> | Hne]; [apply lookup_delete_eq |].
    rewrite lookup_delete_ne by congruence.
    destruct (pending (loop m) !! id) eqn:Hp; [| reflexivity].
    specialize (Hown id ltac:(eauto)). congruence.
  - destruct (pending (loop m) !! id) eqn:Hp; [| reflexivity].
    specialize (Hown id ltac:(eauto)). congruence.
Qed.

Lemma elapse_idle m dt :
  (forall id due, pending (loop m) !! id = Some due -> now (loop m) + dt < due) ->
  elapse dt m = (Ok tt, later dt m).
Proof.
  intros Hnone. unfold elapse, bind, modify, gets, later. cbn.
  replace (due_timers _ _) with (@nil nat); [reflexivity |].
  unfold due_timers. cbn.
  replace (filter _ (pending (loop m))) with (∅ : gmap nat Z); [now rewrite map_to_list_empty |].
  symmetry. apply map_empty. intros id. apply map_lookup_filter_None_2.
  right. intros due Hdue Hle. cbn in Hle. specialize (Hnone id due Hdue). lia.
Qed.

Lemma timers_owned_ext m m' :
  self m' = self m -> loop m' = loop m -> timers_owned m -> timers_owned m'.
Proof. unfold timers_owned. intros -> ->. auto. Qed.

Lemma timers_owned_single m id due :
  timers_owned m -> pending (loop m) !! id = Some due ->
  pending (loop m) = {[id := due]}.
Proof.
  intros Hown Hid. apply map_eq. intros j.
  destruct (decide (j = id)) as [-> | Hne].
  - now rewrite lookup_singleton_eq.
  - rewrite lookup_singleton_ne by congruence.
    destruct (pending (loop m) !! j) eqn:Hj; [| reflexivity].
    pose proof (Hown j ltac:(eauto)) as H1.
    pose proof (Hown id ltac:(eauto)) as H2. congruence.
Qed.

Lemma timers_owned_size m : timers_owned m -> (size (pending (loop m)) <= 1)%nat.
Proof.
  intros Hown.
  destruct (map_to_list (pending (loop m))) as [| [id due] rest] eqn:Hl.
  - apply map_to_list_empty_iff in Hl. rewrite Hl, map_size_empty. lia.
  - assert (Hid : pending (loop m) !! id = Some due).
    { apply elem_of_map_to_list. rewrite Hl. apply elem_of_cons. now left. }
    rewrite (timers_owned_single m id due Hown Hid), map_size_singleton. lia.
Qed.

Lemma clearLockTimeout_spec m :
  let m' := after clearLockTimeout m in
  result clearLockTimeout m = Ok tt /\
  lockTimeout (self m') = None /\
  pending (loop m') = queue_cleared m /\
  now (loop m') = now (loop m) /\
  isLocked (self m') = isLocked (self m) /\
  settings (self m') = settings (self m) /\
  lockTimeoutMs (self m') = lockTimeoutMs (self m) /\
  fs m' = fs m /\ env m' = env m /\ ticks m' = ticks m /\ trace m' = trace m.
Proof.
  change (wp clearLockTimeout
            (fun r m' =>
               r = Ok tt /\ lockTimeout (self m') = None /\
               pending (loop m') = queue_cleared m /\
               now (loop m') = now (loop m) /\
               isLocked (self m') = isLocked (self m) /\
               settings (self m') = settings (self m) /\
               lockTimeoutMs (self m') = lockTimeoutMs (self m) /\
               fs m' = fs m /\ env m' = env m /\ ticks m' = ticks m /\ trace m' = trace m) m).
  unfold queue_cleared.
  destruct (lockTimeout (self m)) eqn:Hh; wp_lock; repeat split; congruence.
Qed.

Lemma owned_when_empty m : pending (loop m) = ∅ -> timers_owned m.
Proof. intros He id [due Hid]. rewrite He, lookup_empty in Hid. discriminate. Qed.

Lemma clearLockTimeout_owned m : timers_owned m -> timers_owned (after clearLockTimeout m).
Proof.
  intros Hown. destruct (clearLockTimeout_spec m) as (_ & _ & Hq & _).
  apply owned_when_empty. rewrite Hq. now apply queue_cleared_owned.
Qed.

Lemma lock_owned m : timers_owned m -> timers_owned (after lock m).
Proof.
  intros Hown. destruct (lock_spec m) as (_ & _ & _ & Hq).
  apply owned_when_empty. rewrite Hq. now apply queue_cleared_owned.
Qed.

Lemma resetLockTimeout_owned m : timers_owned m -> timers_owned (after resetLockTimeout m).
Proof.
  intros Hown. destruct (resetLockTimeout_spec m) as (_ & Hh & Hq & _).
  intros id [due Hid]. rewrite Hq, (queue_cleared_owned m Hown) in Hid.
  destruct (decide (id = next_timer (loop m))) as [-> | Hne]; [exact Hh |].
  rewrite lookup_insert_ne, lookup_empty in Hid by congruence. discriminate.
Qed.

Lemma unlock_granted_spec m :
  let m' := after unlock_granted m in
  let id := next_timer (loop m) in
  result unlock_granted m = Ok true /\
  isLocked (self m') = false /\
  lockTimeout (self m') = Some id /\
  pending (loop m') =
    <[id := now (loop m) + timer_delay (lockTimeoutMs (self m))]> (queue_cleared m) /\
  now (loop m') = now (loop m) /\
  settings (self m') = settings (self m) /\
  lockTimeoutMs (self m') = lockTimeoutMs (self m) /\
  fs m' = fs m /\ env m' = env m /\ ticks m' = ticks m /\ trace m' = trace m.
Proof.
  change (wp unlock_granted
            (fun r m' =>
               r = Ok true /\ isLocked (self m') = false /\
               lockTimeout (self m') = Some (next_timer (loop m)) /\
               pending (loop m') =
                 <[next_timer (loop m) := now (loop m) + timer_delay (lockTimeoutMs (self m))]>
                   (queue_cleared m) /\
               now (loop m') = now (loop m) /\
               settings (self m') = settings (self m) /\
               lockTimeoutMs (self m') = lockTimeoutMs (self m) /\
               fs m' = fs m /\ env m' = env m /\ ticks m' = ticks m /\ trace m' = trace m) m).
  unfold queue_cleared.
  destruct (lockTimeout (self m)) eqn:Hh; wp_lock; repeat split; congruence.
Qed.

Lemma unlock_granted_owned m : timers_owned m -> timers_owned (after unlock_granted m).
Proof.
  intros Hown. destruct (unlock_granted_spec m) as (_ & _ & Hh & Hq & _).
  intros id [due Hid]. rewrite Hq, (queue_cleared_owned m Hown) in Hid.
  destruct (decide (id = next_timer (loop m))) as [-> | Hne]; [exact Hh |].
  rewrite lookup_insert_ne, lookup_empty in Hid by congruence. discriminate.
Qed.

Lemma unlock_owned useBiometric m :
  timers_owned m -> timers_owned (after (unlock useBiometric) m).
Proof.
  intros Hown.
  change (wp (unlock useBiometric) (fun _ m' => timers_owned m') m).
  unfold unlock. apply wp_bind, wp_gets.
  destruct (useBiometric && requireBiometric (settings (self m))).
  - apply wp_bind.
    destruct (authenticateWithBiometrics_frame "Unlock WlfRyt Google Calendar" m)
      as (Hs & Hl & _).
    pose proof (timers_owned_ext m _ Hs Hl Hown) as Hown'.
    unfold wp at 1.
    destruct (result (authenticateWithBiometrics "Unlock WlfRyt Google Calendar") m)
      as [[|] | e]; cbn [negb]; [| apply wp_ret; exact Hown' | exact Hown'].
    now apply unlock_granted_owned.
  - now apply unlock_granted_owned.
Qed.

Lemma fire_owned ids : forall m, timers_owned m -> timers_owned (after (fire ids) m).
Proof.
  induction ids as [| id rest IH]; intros m Hown; [exact Hown |].
  change (wp (fire (id :: rest)) (fun _ m' => timers_owned m') m).
  cbn [fire]. apply wp_bind, wp_gets.
  destruct (pending (loop m) !! id) eqn:Hid; [| now apply IH].
  apply wp_bind. unfold clearTimeout. apply wp_modify.
  apply wp_bind. apply wp_call with (a := true); [apply lock_spec |].
  apply IH, lock_owned.
  intros j [due Hj]. state_simpl_in Hj. apply Hown.
  destruct (decide (j = id)) as [-> | Hne]; [eauto |].
  rewrite lookup_delete_ne in Hj by congruence. eauto.
Qed.

Lemma elapse_owned dt m : timers_owned m -> timers_owned (after (elapse dt) m).
Proof.
  intros Hown.
  change (wp (elapse dt) (fun _ m' => timers_owned m') m).
  unfold elapse. apply wp_bind, wp_modify. apply wp_bind, wp_gets.
  apply fire_owned. exact Hown.
Qed.

Lemma lock_frame m :
  let m' := after lock m in
  settings (self m') = settings (self m) /\
  lockTimeoutMs (self m') = lockTimeoutMs (self m) /\
  now (loop m') = now (loop m) /\
  fs m' = fs m /\ env m' = env m /\ ticks m' = ticks m.
Proof.
  change (wp lock
            (fun _ m' =>
               settings (self m') = settings (self m) /\
               lockTimeoutMs (self m') = lockTimeoutMs (self m) /\
               now (loop m') = now (loop m) /\
               fs m' = fs m /\ env m' = env m /\ ticks m' = ticks m) m).
  destruct (lockTimeout (self m)) eqn:Hh; wp_lock; repeat split; reflexivity.
Qed.

Lemma fire_frame ids :
  forall m,
    let m' := after (fire ids) m in
    settings (self m') = settings (self m) /\
    lockTimeoutMs (self m') = lockTimeoutMs (self m) /\
    now (loop m') = now (loop m) /\
    fs m' = fs m /\ env m' = env m /\ ticks m' = ticks m.
Proof.
  induction ids as [| id rest IH]; intros m; [repeat split; reflexivity |].
  change (wp (fire (id :: rest))
            (fun _ m' =>
               settings (self m') = settings (self m) /\
               lockTimeoutMs (self m') = lockTimeoutMs (self m) /\
               now (loop m') = now (loop m) /\
               fs m' = fs m /\ env m' = env m /\ ticks m' = ticks m) m).
  cbn [fire]. apply wp_bind, wp_gets.
  destruct (pending (loop m) !! id); [| apply IH].
  apply wp_bind. unfold clearTimeout. apply wp_modify.
  apply wp_bind. apply wp_call with (a := true); [apply lock_spec |].
  match goal with |- wp _ _ (after lock ?m0) =>
    destruct (lock_frame m0) as (H1 & H2 & H3 & H4 & H5 & H6);
    destruct (IH (after lock m0)) as (I1 & I2 & I3 & I4 & I5 & I6)
  end.
  unfold wp. rewrite I1, I2, I3, I4, I5, I6, H1, H2, H3, H4, H5, H6.
  repeat split; reflexivity.
Qed.

Lemma elapse_frame dt m :
  let m' := after (elapse dt) m in
  settings (self m') = settings (self m) /\
  lockTimeoutMs (self m') = lockTimeoutMs (self m) /\
  now (loop m') = now (loop m) + dt /\
  fs m' = fs m /\ env m' = env m /\ ticks m' = ticks m.
Proof.
  change (wp (elapse dt)
            (fun _ m' =>
               settings (self m') = settings (self m) /\
               lockTimeoutMs (self m') = lockTimeoutMs (self m) /\
               now (loop m') = now (loop m) + dt /\
               fs m' = fs m /\ env m' = env m /\ ticks m' = ticks m) m).
  unfold elapse. apply wp_bind, wp_modify. apply wp_bind, wp_gets. state_simpl.
  match goal with |- wp (fire ?ids) _ ?m0 => apply (fire_frame ids m0) end.
Qed.

(** After [resetLockTimeout] with a timeout in the range of [setTimeout],
    idling for [d] milliseconds locks exactly when the timeout has
    elapsed. *)
Lemma reset_then_wait m d :
  timers_owned m ->
  1 <= lockTimeoutMs (self m) <= 2147483647 ->
  isLocked (self (after (elapse d) (after resetLockTimeout m))) =
  if bool_decide (lockTimeoutMs (self m) <= d) then true else isLocked (self m).
Proof.
  intros Hown Hrange.
  destruct (resetLockTimeout_spec m) as (_ & Hh & Hq & Hnow & Hl & _).
  set (m1 := after resetLockTimeout m) in *.
  rewrite (queue_cleared_owned m Hown), timer_delay_in_range in Hq by exact Hrange.
  assert (Hid : pending (loop m1) !! next_timer (loop m) =
                Some (now (loop m) + lockTimeoutMs (self m)))
    by (rewrite Hq; apply lookup_insert_eq).
  destruct (decide (lockTimeoutMs (self m) <= d)) as [Hdue | Hearly].
  - rewrite bool_decide_eq_true_2 by exact Hdue.
    apply (elapse_locks m1 d _ _ Hid). rewrite Hnow. lia.
  - rewrite bool_decide_eq_false_2 by exact Hearly.
    unfold after at 1. rewrite elapse_idle.
    + cbn [snd]. unfold later. state_simpl. exact Hl.
    + intros id due Hdue. rewrite Hq in Hdue.
      apply lookup_insert_Some in Hdue as [[_ <-] | [_ Habs]];
        [rewrite Hnow; lia | rewrite lookup_empty in Habs; discriminate].
Qed.

(** [X6] With a timeout in the range of [setTimeout], an unlocked session
    whose timer has just been restarted stays unlocked as long as less than
    the timeout has elapsed, and is locked once the timeout has elapsed;
    the timer it leaves is again the only one and the timeout is kept, so
    that each new activity postpones the lock by the full timeout. *)
Theorem no_lock_before_timeout m d :
  timers_owned m ->
  isLocked (self m) = false ->
  1 <= lockTimeoutMs (self m) <= 2147483647 ->
  let m2 := after (elapse d) (after resetLockTimeout m) in
  isLocked (self m2) = bool_decide (lockTimeoutMs (self m) <= d) /\
  timers_owned m2 /\
  lockTimeoutMs (self m2) = lockTimeoutMs (self m).
Proof.
  intros Hown Hopen Hrange m2. split; [| split].
  - subst m2. rewrite (reset_then_wait m d Hown Hrange), Hopen.
    now destruct (bool_decide (lockTimeoutMs (self m) <= d)).
  - apply elapse_owned, resetLockTimeout_owned, Hown.
  - destruct (resetLockTimeout_spec m) as (_ & _ & _ & _ & _ & _ & Hms & _).
    destruct (elapse_frame d (after resetLockTimeout m)) as (_ & Hkeep & _).
    subst m2. now rewrite Hkeep.
Qed.

(** A timeout outside the range of [setTimeout] counts as one millisecond. *)
Lemma timer_delay_out_of_range ms : ms < 1 \/ 2147483647 < ms -> timer_delay ms = 1.
Proof.
  intros Hout. unfold timer_delay.
  destruct (1 <=? ms) eqn:Hlo; [| reflexivity].
  destruct (ms <=? 2147483647) eqn:Hhi; [| reflexivity].
  apply Z.leb_le in Hlo, Hhi. lia.
Qed.

(** [X7] A timeout that [setTimeout] does not accept is replaced by one
    millisecond: with a whole number of minutes below 1 or above 35791
    (more than 2^31-1 milliseconds) saved as [autoLockMinutes], the timer
    started by [resetLockTimeout] is due one millisecond later and the
    session is locked when it fires.  The timeout is the exact product as
    long as this stays within 2^53. *)
Theorem out_of_range_timeout_locks_at_once m minutes :
  minutes < 1 \/ 35791 < minutes ->
  let m0 := after (saveSettings (auto_lock_only minutes)) m in
  let m1 := after resetLockTimeout m0 in
  (exact_minutes minutes -> lockTimeoutMs (self m0) = minutes * 60000) /\
  pending (loop m1) !! next_timer (loop m0) = Some (now (loop m0) + 1) /\
  isLocked (self (after (elapse 1) m1)) = true.
Proof.
  intros Hout m0 m1.
  destruct (saveSettings_memory (auto_lock_only minutes) m) as (_ & Hms & _).
  destruct (resetLockTimeout_spec m0) as (_ & _ & Hq & Hnow & _).
  fold m0 in Hms. fold m1 in Hq, Hnow.
  change (lockTimeoutMs (self m0) = Number_times (Number_times minutes 60) 1000) in Hms.
  assert (Hdelay : timer_delay (lockTimeoutMs (self m0)) = 1).
  { rewrite Hms. apply timer_delay_out_of_range.
    destruct Hout as [Hlow | Hhigh].
    - left. pose proof (timeout_not_positive minutes Hlow). lia.
    - right. now apply timeout_too_long. }
  assert (Hid : pending (loop m1) !! next_timer (loop m0) = Some (now (loop m0) + 1)).
  { rewrite Hq, lookup_insert_eq, Hdelay. reflexivity. }
  split; [intros Hexact; rewrite Hms, timeout_exact by exact Hexact; lia |].
  split; [exact Hid |].
  apply (elapse_locks m1 _ _ _ Hid). rewrite Hnow. lia.
Qed.

(** [X8] The outcome of [unlock]: the biometric check is made exactly when
    it is asked for and the settings require it; [unlock] returns what the
    platform answers then (Touch ID on macOS, always yes on Windows, always
    no elsewhere) and [true] otherwise.  On [true] the session is unlocked
    and its timer restarted; on [false] the lock state and the timer queue
    are as before.  Only macOS shows a prompt. *)
Theorem unlock_outcome m useBiometric :
  let asked := useBiometric && requireBiometric (settings (self m)) in
  let granted := negb asked || biometric_answer m in
  let m' := after (unlock useBiometric) m in
  result (unlock useBiometric) m = Ok granted /\
  isLocked (self m') = (if granted then false else isLocked (self m)) /\
  prompts (ticks m') =
    (if asked then match platform with
                   | Darwin => S (prompts (ticks m))
                   | _ => prompts (ticks m)
                   end
     else prompts (ticks m)) /\
  (if granted
   then lockTimeout (self m') = Some (next_timer (loop m)) /\
        pending (loop m') !! next_timer (loop m) =
          Some (now (loop m) + timer_delay (lockTimeoutMs (self m)))
   else loop m' = loop m /\ lockTimeout (self m') = lockTimeout (self m)).
Proof.
  intros asked granted m'. subst asked granted m'.
  change (wp (unlock useBiometric)
            (fun r m' =>
               r = Ok (negb (useBiometric && requireBiometric (settings (self m)))
                       || biometric_answer m) /\
               isLocked (self m') =
                 (if negb (useBiometric && requireBiometric (settings (self m)))
                     || biometric_answer m
                  then false else isLocked (self m)) /\
               prompts (ticks m') =
                 (if useBiometric && requireBiometric (settings (self m))
                  then match platform with
                       | Darwin => S (prompts (ticks m))
                       | _ => prompts (ticks m)
                       end
                  else prompts (ticks m)) /\
               (if negb (useBiometric && requireBiometric (settings (self m)))
                   || biometric_answer m
                then lockTimeout (self m') = Some (next_timer (loop m)) /\
                     pending (loop m') !! next_timer (loop m) =
                       Some (now (loop m) + timer_delay (lockTimeoutMs (self m)))
                else loop m' = loop m /\ lockTimeout (self m') = lockTimeout (self m))) m).
  unfold unlock, biometric_answer, authenticateWithBiometrics.
  apply wp_bind, wp_gets.
  destruct (useBiometric && requireBiometric (settings (self m))); cbn [negb orb].
  - destruct platform.
    + apply wp_bind, wp_try_catch, wp_bind.
      unfold wp at 1, result, after, promptTouchID.
      destruct (touch_id (env m) (prompts (ticks m))); cbn [fst snd].
      * apply wp_ret. cbn [negb].
        destruct (lockTimeout (self m)) eqn:Hh; wp_lock; repeat split; try reflexivity;
          apply lookup_insert_eq.
      * repeat (cbn [negb]; wp_prim). repeat split; reflexivity.
    + apply wp_bind, wp_try_catch, wp_ret. cbn [negb].
      destruct (lockTimeout (self m)) eqn:Hh; wp_lock; repeat split; try reflexivity;
        apply lookup_insert_eq.
    + repeat (cbn [negb]; wp_prim). repeat split; reflexivity.
  - destruct (lockTimeout (self m)) eqn:Hh; wp_lock; repeat split; try reflexivity;
      apply lookup_insert_eq.
Qed.

End Timers.

(** ** The start of the application *)

Section Startup.
Context `{RT : Runtime}.

(** [X9] The application constructs the object and starts the inactivity
    timer: from an empty timer queue the session is then locked exactly
    when 30 minutes have elapsed, whatever [autoLockMinutes] the settings
    file holds, since the constructor does not recompute the timeout from
    the settings it loads. *)
Theorem startup_timeout_is_default m d :
  pending (loop m) = ∅ ->
  let m1 := after resetLockTimeout (after constructor m) in
  isLocked (self (after (elapse d) m1)) = bool_decide (1800000 <= d) /\
  pending (loop m1) !! next_timer (loop m) = Some (now (loop m) + 1800000).
Proof.
  intros Hempty m1.
  destruct (constructor_object m) as (Hk & _ & Hms & Hl).
  set (m0 := after constructor m) in *.
  assert (Hown : timers_owned m0) by (apply owned_when_empty; now rewrite Hl).
  split.
  - subst m1. rewrite reset_then_wait, Hms, Hk; [| exact Hown | rewrite Hms; lia].
    now destruct (bool_decide (1800000 <= d)).
  - destruct (resetLockTimeout_spec m0) as (_ & _ & Hq & _).
    subst m1. rewrite Hq, Hl, Hms, lookup_insert_eq. reflexivity.
Qed.

End Startup.

(** ** The key file *)

Section KeyStore.
Context `{RT : Runtime}.

(** [X10] A key written by [saveSessionKey] is the key that the next
    [getSessionKey] returns, without generating anything: when the secure
    directory exists, no file-system call fails and [safeStorage], if it is
    available, decrypts what it encrypted. *)
Theorem saved_key_is_read_back m key content :
  dataPath ∈ dirs (fs m) ->
  fault_free m ->
  stored_key (encryptionAvailable (env m)) key = Some content ->
  read_key (encryptionAvailable (env m)) content = Some key ->
  let m1 := after (saveSessionKey key) m in
  files (fs m1) !! keyFile = Some content /\
  result getSessionKey m1 = Ok key /\
  fs (after getSessionKey m1) = fs m1 /\
  rng_pos (ticks (after getSessionKey m1)) = rng_pos (ticks m).
Proof.
  intros Hdir Hcalm Hstored Hread m1.
  assert (Hio : io_fault (env m) (io_tick (ticks m)) = false) by (apply Hcalm; lia).
  destruct (saveSessionKey_persists key m content Hdir Hio Hstored) as [Hfiles Hticks].
  destruct (saveSessionKey_frame key m) as (Henv & _).
  fold m1 in Hfiles, Hticks, Henv.
  assert (Hfile : files (fs m1) !! keyFile = Some content)
    by (rewrite Hfiles; apply lookup_insert_eq).
  assert (Hget : getSessionKey m1 = (Ok key, ticked m1)).
  { apply (getSessionKey_read m1 content key Hfile).
    - rewrite Henv, Hticks. apply Hcalm. lia.
    - now rewrite Henv. }
  split; [exact Hfile |]. unfold result, after. rewrite Hget. cbn [fst snd].
  split; [reflexivity |]. split; [reflexivity |].
  state_simpl. subst m1.
  change (wp (saveSessionKey key) (fun _ m' => rng_pos (ticks m') = rng_pos (ticks m)) m).
  unfold saveSessionKey. wp_auto; reflexivity.
Qed.

(** [X11] Without the secure directory no key is ever persisted: each
    [getSessionKey] returns the hex text of the next 32 bytes of the random
    source, the key file stays absent, and two successive calls return the
    keys drawn from two successive stretches, which differ whenever the
    stretches do. *)
Theorem keys_not_persisted_without_directory m :
  dataPath ∉ dirs (fs m) ->
  files (fs m) !! keyFile = None ->
  let m1 := after getSessionKey m in
  result getSessionKey m = Ok (toHex (drawn 32 m)) /\
  result getSessionKey m1 = Ok (toHex (drawn 32 m1)) /\
  rng_pos (ticks m1) = (rng_pos (ticks m) + 32)%nat /\
  fs m1 = fs m /\
  (drawn 32 m1 <> drawn 32 m ->
   result getSessionKey m1 <> result getSessionKey m).
Proof.
  intros Hdir Hnone m1.
  pose proof (getSessionKey_fresh m Hnone) as Hget.
  assert (Hm1 : m1 = after (saveSessionKey (toHex (drawn 32 m))) (advanced 32 m))
    by (subst m1; unfold after at 1; now rewrite Hget).
  assert (Hfs : fs m1 = fs m).
  { rewrite Hm1.
    change (wp (saveSessionKey (toHex (drawn 32 m))) (fun _ m' => fs m' = fs m) (advanced 32 m)).
    assert (Hd : bool_decide (fst keyFile ∈ dirs (fs m)) = false)
      by (apply bool_decide_eq_false_2, Hdir).
    unfold saveSessionKey. wp_auto; reflexivity. }
  assert (Hpos : rng_pos (ticks m1) = (rng_pos (ticks m) + 32)%nat).
  { rewrite Hm1.
    change (wp (saveSessionKey (toHex (drawn 32 m)))
              (fun _ m' => rng_pos (ticks m') = (rng_pos (ticks m) + 32)%nat) (advanced 32 m)).
    unfold saveSessionKey. wp_auto; reflexivity. }
  assert (Hr : result getSessionKey m = Ok (toHex (drawn 32 m)))
    by (unfold result; now rewrite Hget).
  assert (Hr1 : result getSessionKey m1 = Ok (toHex (drawn 32 m1))).
  { unfold result. rewrite getSessionKey_fresh; [reflexivity |]. now rewrite Hfs. }
  repeat split; try assumption.
  rewrite Hr, Hr1. intros Hdiff Heq. apply Hdiff.
  apply toHex_inj. congruence.
Qed.

End KeyStore.

(** ** Edges of the cipher *)

Section CipherEdges.
Context `{RT : Runtime}.

Lemma encrypt_outcome m payload sessionKey :
  result getSessionKey m = Ok sessionKey ->
  result (encrypt payload) m =
  Ok (match JSON_stringify payload with
      | Some text =>
          if bool_decide (length (fromHex sessionKey) = 32%nat)
          then Some (seal_envelope sessionKey (drawn 16 (after getSessionKey m)) text)
          else None
      | None => None
      end).
Proof.
  intros Hkey.
  destruct (decide (length (fromHex sessionKey) = 32%nat)) as [H256 | Hbad].
  - rewrite bool_decide_eq_true_2 by exact H256.
    destruct (JSON_stringify payload) as [text |] eqn:Hprint.
    + unfold result. now rewrite (encrypt_spec m payload sessionKey text Hkey H256 Hprint).
    + change (wp (encrypt payload) (fun r _ => r = Ok None) m).
      unfold encrypt. apply wp_try_catch, wp_bind.
      apply wp_call with (a := sessionKey); [exact Hkey |].
      apply wp_bind, wp_randomBytes. cbn beta iota.
      apply wp_bind. unfold createCipheriv, stringify.
      rewrite H256, length_drawn, Hprint. cbn [Nat.eqb negb andb].
      wp_auto. reflexivity.
  - rewrite bool_decide_eq_false_2 by exact Hbad.
    rewrite (encrypt_null_on_bad_key m payload sessionKey Hkey Hbad).
    now destruct (JSON_stringify payload).
Qed.

(** [X12] [encrypt] never throws, and it returns [null] exactly when the
    session key does not decode to 32 bytes or [JSON.stringify] gives no
    text for the payload. *)
Theorem encrypt_null_exactly_when m payload :
  exists sessionKey,
    result getSessionKey m = Ok sessionKey /\
    (exists outcome, result (encrypt payload) m = Ok outcome) /\
    (result (encrypt payload) m = Ok None <->
     ~ key_256 sessionKey \/ JSON_stringify payload = None).
Proof.
  destruct (getSessionKey_never_throws m) as [sessionKey Hkey].
  exists sessionKey. split; [exact Hkey |].
  rewrite (encrypt_outcome m payload sessionKey Hkey). split; [eauto |].
  unfold key_256.
  destruct (JSON_stringify payload) as [text |]; [| now split; auto].
  destruct (decide (length (fromHex sessionKey) = 32%nat)) as [H256 | Hbad].
  - rewrite bool_decide_eq_true_2 by exact H256. split; [discriminate |].
    intros [Hbad | Hnone]; [contradiction | discriminate].
  - rewrite bool_decide_eq_false_2 by exact Hbad. split; auto.
Qed.

Lemma length_utf8_encode s : length (utf8_encode s) = String.length s.
Proof.
  unfold utf8_encode, list_byte_of_string. rewrite length_map.
  induction s as [| c rest IH]; cbn; [reflexivity | now rewrite IH].
Qed.

(** [X13] The envelope that [encrypt] returns: the iv is the hex text of
    the 16 bytes drawn for this call, the ciphertext has two hex digits per
    byte of the JSON text (the cipher adds no padding), the tag has 32 hex
    digits when the cipher's tag is 128 bits, and the version is 2. *)
Theorem envelope_shape m payload envelope :
  tag_128 ->
  result (encrypt payload) m = Ok (Some envelope) ->
  exists text,
    JSON_stringify payload = Some text /\
    fromHex (iv envelope) = drawn 16 (after getSessionKey m) /\
    String.length (iv envelope) = 32%nat /\
    String.length (data envelope) = (2 * String.length text)%nat /\
    String.length (tag envelope) = 32%nat /\
    v envelope = 2.
Proof.
  intros Htag Henc.
  destruct (getSessionKey_never_throws m) as [sessionKey Hkey].
  rewrite (encrypt_outcome m payload sessionKey Hkey) in Henc.
  destruct (JSON_stringify payload) as [text |]; [| discriminate].
  destruct (bool_decide (length (fromHex sessionKey) = 32%nat)); [| discriminate].
  injection Henc as <-. exists text. unfold seal_envelope. cbn [iv data tag v].
  split; [reflexivity |]. split; [apply fromHex_toHex |].
  rewrite !length_toHex, length_drawn, Htag, length_gcm_crypt.
  rewrite length_utf8_encode.
  repeat split; reflexivity.
Qed.

(** [X14] [decrypt] sets whatever tag the envelope carries, without fixing
    its length: an envelope whose tag has been cut to its first 4, 8 or 12
    to 15 bytes still decrypts to the payload. *)
Theorem truncated_tag_is_accepted m sessionKey nonce payload text n :
  tag_128 ->
  key_256 sessionKey ->
  nonce <> [] ->
  JSON_parse text = Some payload ->
  result getSessionKey m = Ok sessionKey ->
  valid_tag_length n = true ->
  let sealed := seal_envelope sessionKey nonce text in
  let cut := {| iv := iv sealed;
                data := data sealed;
                tag := toHex (take n (fromHex (tag sealed)));
                v := v sealed |} in
  String.length (tag cut) = (2 * n)%nat /\
  result (decrypt (Some cut)) m = Ok payload.
Proof.
  intros Htag H256 Hnonce Hparse Hkey Hn sealed cut.
  assert (Hle : (n <= 16)%nat).
  { unfold valid_tag_length in Hn.
    apply orb_true_iff in Hn as [Hn | Hn]; [apply orb_true_iff in Hn as [Hn | Hn] |].
    - apply Nat.eqb_eq in Hn. lia.
    - apply Nat.eqb_eq in Hn. lia.
    - apply andb_true_iff in Hn as [_ Hn]. now apply Nat.leb_le in Hn. }
  subst cut sealed. unfold seal_envelope. cbn [iv data tag v].
  rewrite fromHex_toHex.
  set (key := fromHex sessionKey).
  set (ciphertext := gcm_crypt key nonce (utf8_encode text)).
  assert (Hlen : length (take n (gcm_mac key nonce ciphertext)) = n)
    by (rewrite length_take, Htag; lia).
  split; [now rewrite length_toHex, Hlen |].
  rewrite (decrypt_spec m _ sessionKey Hkey).
  unfold open_envelope. cbn [iv data tag].
  rewrite !fromHex_toHex. fold key. fold ciphertext.
  unfold key_256 in H256. fold key in H256.
  rewrite Hlen, Hn, H256, toHex_even.
  rewrite bool_decide_eq_true_2 by reflexivity.
  destruct nonce as [| x rest]; [contradiction |]. cbn [length Nat.eqb negb andb].
  subst ciphertext. now rewrite gcm_crypt_involutive, utf8_decode_encode, Hparse.
Qed.

End CipherEdges.

(** ** Edges of the eraser *)

Section EraserEdges.
Context `{RT : Runtime}.

(** [X15] With none of the three files and no secure directory,
    [clearAllData] returns [true] and leaves the machine as it is: no
    file-system call that can fail is made and no random byte is drawn. *)
Theorem clearAllData_nothing_to_clear m :
  files (fs m) !! keyFile = None ->
  files (fs m) !! configFile = None ->
  files (fs m) !! integrityFile = None ->
  dataPath ∉ dirs (fs m) ->
  clearAllData m = (Ok true, m).
Proof.
  intros Hk Hc Hi Hd. apply wp_eq.
  assert (Hno : forall p, files (fs m) !! p = None ->
                          bool_decide (is_Some (files (fs m) !! p)) = false).
  { intros p Hp. apply bool_decide_eq_false_2. rewrite Hp. intros [? ?]. discriminate. }
  pose proof (Hno _ Hk) as Hk'. pose proof (Hno _ Hc) as Hc'. pose proof (Hno _ Hi) as Hi'.
  assert (Hd' : bool_decide (dataPath ∈ dirs (fs m)) = false)
    by (apply bool_decide_eq_false_2, Hd).
  unfold clearAllData, erase_everything. wp_erase. split; reflexivity.
Qed.

Lemma removed_fault_free d m : fault_free m -> fault_free (removed d m).
Proof. intros Hcalm n Hn. unfold removed in *. state_simpl_in Hn. state_simpl. apply Hcalm. lia. Qed.

(** [X16] Erasing and starting again gives the state of a first run: after
    a [clearAllData] in which nothing fails, the next constructor recreates
    the secure directory and leaves the default settings, with no key file
    and no settings file. *)
Theorem erase_then_restart m :
  fault_free m ->
  dataPath ∈ dirs (fs m) ->
  let m1 := after clearAllData m in
  let m2 := after constructor m1 in
  result clearAllData m = Ok true /\
  (dataPath ∉ dirs (fs m1)) /\
  dataPath ∈ dirs (fs m2) /\
  settings (self m2) = default_settings /\
  files (fs m2) !! keyFile = None /\
  files (fs m2) !! configFile = None.
Proof.
  intros Hcalm Hdir m1 m2.
  pose proof (clearAllData_success m Hcalm Hdir) as Hrun.
  set (m3 := erase integrityFile (erase configFile (erase keyFile m))) in *.
  assert (Hm1 : m1 = removed dataPath m3) by (subst m1; unfold after; now rewrite Hrun).
  destruct (removed_clean dataPath m3) as [Hgone Hfiles]. rewrite <- Hm1 in Hgone, Hfiles.
  assert (Hcalm1 : fault_free m1).
  { rewrite Hm1. apply removed_fault_free. subst m3. now repeat apply erase_fault_free. }
  split; [unfold result; now rewrite Hrun |]. split; [exact Hgone |].
  subst m2.
  change (wp constructor
            (fun _ m' => dataPath ∈ dirs (fs m') /\ settings (self m') = default_settings /\
                         files (fs m') !! keyFile = None /\
                         files (fs m') !! configFile = None) m1).
  unfold constructor. apply wp_bind, wp_modify. apply wp_bind.
  eapply wp_consequence; [apply initSecureDirectory_spec |].
  intros r1 m4 (-> & Hs4 & _ & _ & Hf4 & _ & Hmk).
  state_simpl_in Hs4. state_simpl_in Hf4. state_simpl_in Hmk.
  specialize (Hmk Hgone ltac:(apply Hcalm1; lia)).
  apply wp_bind. unfold wp at 1.
  assert (Hnone : files (fs m4) !! configFile = None) by (rewrite Hf4; apply Hfiles).
  destruct (loadSettings_failure m4 (or_introl Hnone)) as (Hr5 & Hs5 & Hf5).
  rewrite Hr5. set (m5 := after _loadSettings m4) in *.
  eapply wp_consequence; [apply verifyIntegrity_frame |].
  intros r6 m6 (_ & Hs6 & _ & _ & Hd6 & Hf6).
  rewrite Hd6, Hs6, Hs5, Hs4, Hf5, Hmk.
  rewrite !Hf6 by auto using keyFile_neq_integrityFile, configFile_neq_integrityFile.
  rewrite Hf5, Hf4. repeat split; try apply Hfiles; try reflexivity.
  apply elem_of_union_l, elem_of_singleton. reflexivity.
Qed.

End EraserEdges.

(** ** The main process at work *)

Ltac shell_simpl :=
  cbn [session mainWindow tracked lockWindow focusLostTime minimizeToTray closeToTray
       call with_session with_mainWindow with_lockWindow with_focusLostTime fst snd].

Section MainProcessProperties.
Context `{RT : Runtime}.

Lemma timers_owned_same m m' :
  lockTimeout (self m') = lockTimeout (self m) ->
  pending (loop m') = pending (loop m) ->
  timers_owned m -> timers_owned m'.
Proof. unfold timers_owned. intros -> ->. auto. Qed.

Lemma secureDelete_object p m :
  wp (secureDelete p) (fun _ m' => self m' = self m /\ loop m' = loop m) m.
Proof. wp_erase; split; reflexivity. Qed.

Lemma clearAllData_object m :
  self (after clearAllData m) = self m /\ loop (after clearAllData m) = loop m.
Proof.
  change (wp clearAllData (fun _ m' => self m' = self m /\ loop m' = loop m) m).
  unfold clearAllData, erase_everything. apply wp_try_catch.
  apply wp_bind. eapply wp_consequence; [apply secureDelete_object |].
  intros r1 m1 [Hs1 Hl1]. destruct r1; [| wp_auto; now rewrite <- Hs1, <- Hl1].
  apply wp_bind. eapply wp_consequence; [apply secureDelete_object |].
  intros r2 m2 [Hs2 Hl2]. rewrite Hs1 in Hs2. rewrite Hl1 in Hl2.
  destruct r2; [| wp_auto; now rewrite <- Hs2, <- Hl2].
  apply wp_bind. eapply wp_consequence; [apply secureDelete_object |].
  intros r3 m3 [Hs3 Hl3]. rewrite Hs2 in Hs3. rewrite Hl2 in Hl3.
  destruct r3; wp_auto; now rewrite <- Hs3, <- Hl3.
Qed.

Lemma elapse_keeps_locked dt m :
  isLocked (self m) = true -> isLocked (self (after (elapse dt) m)) = true.
Proof.
  intros Hlocked.
  change (wp (elapse dt) (fun _ m' => isLocked (self m') = true) m).
  unfold elapse. apply wp_bind, wp_modify. apply wp_bind, wp_gets.
  now apply fire_keeps_locked.
Qed.

Lemma lockSession_consistent s : consistent s -> consistent (lockSession s).
Proof.
  intros [Hwin Hown]. unfold lockSession.
  destruct (lockWindow s) eqn:Hw; [split; [rewrite Hw |]; assumption |].
  split; shell_simpl.
  - intros _. apply lock_spec.
  - now apply lock_owned.
Qed.

Lemma unlockSession_consistent s : consistent s -> consistent (unlockSession s).
Proof.
  intros [Hwin Hown]. split; shell_simpl; [discriminate | now apply unlock_owned].
Qed.

Lemma reset_consistent s : consistent s -> consistent (call resetLockTimeout s).
Proof.
  intros [Hwin Hown]. destruct (resetLockTimeout_spec (session s)) as (_ & _ & _ & _ & Hl & _).
  split; shell_simpl; [rewrite Hl; exact Hwin | now apply resetLockTimeout_owned].
Qed.

Lemma saveSettings_consistent newSettings s :
  consistent s -> consistent (call (saveSettings newSettings) s).
Proof.
  intros [Hwin Hown].
  destruct (saveSettings_memory newSettings (session s)) as (_ & _ & Hl & Hh & Hloop & _).
  split; shell_simpl; [rewrite Hl; exact Hwin |].
  apply (timers_owned_same (session s)); [exact Hh | now rewrite Hloop | exact Hown].
Qed.

Lemma window_consistent w s : consistent s -> consistent (with_mainWindow w s).
Proof. exact (fun H => H). Qed.

(** Every handler keeps the main process consistent. *)
Lemma step_consistent i s : consistent s -> consistent (step i s).
Proof.
  intros Hc. pose proof Hc as [Hwin Hown]. destruct i; cbn [step].
  - unfold ipc_lock_session. destruct (isLocked (self (session s))); cbn [snd].
    + now apply unlockSession_consistent.
    + now apply lockSession_consistent.
  - exact Hc.
  - unfold ipc_clear_session. destruct storageCleared; cbn [snd]; [| exact Hc].
    destruct (clearAllData_object (session s)) as [Hs Hl].
    split; shell_simpl; [rewrite Hs; exact Hwin |].
    apply (timers_owned_ext (session s)); assumption.
  - now apply lockSession_consistent.
  - now apply saveSettings_consistent.
  - now apply saveSettings_consistent.
  - unfold menu_auto_lock_never.
    pose proof (saveSettings_consistent (auto_lock_only 0) s Hc) as [Hwin1 Hown1].
    set (s1 := call (saveSettings (auto_lock_only 0)) s) in *.
    destruct (clearLockTimeout_spec (session s1)) as (_ & _ & _ & _ & Hl & _).
    split; shell_simpl; [rewrite Hl; exact Hwin1 | now apply clearLockTimeout_owned].
  - exact Hc.
  - exact Hc.
  - destruct (mainWindow s); [| exact Hc]. unfold on_minimize.
    set (s0 := with_mainWindow Minimized s).
    assert (Hc0 : consistent s0) by exact Hc.
    destruct (lockOnMinimize _).
    + pose proof (lockSession_consistent s0 Hc0) as Hc1.
      destruct (minimizeToTray (lockSession s0)); exact Hc1.
    + destruct (minimizeToTray s0); exact Hc0.
  - destruct (mainWindow s); [| exact Hc]. unfold on_close.
    destruct (closeToTray s); exact Hc.
  - destruct (mainWindow s); exact Hc.
  - destruct (mainWindow s); [| exact Hc]. unfold on_focus, on_focus_second, on_focus_first.
    match goal with |- context [if ?b then call resetLockTimeout s else s] =>
      destruct b end; shell_simpl.
    + destruct (tracked s); [apply reset_consistent |]; now apply reset_consistent.
    + destruct (tracked s); [now apply reset_consistent | exact Hc].
  - destruct (mainWindow s); [| exact Hc]. unfold on_before_input.
    destruct (tracked s); [now apply reset_consistent | exact Hc].
  - exact Hc.
  - unfold on_activate. destruct (mainWindow s), (lockWindow s) eqn:Hw; try exact Hc.
    split; shell_simpl; [discriminate | exact Hown].
  - split; shell_simpl; [discriminate | exact Hown].
  - split; shell_simpl.
    + intros Hw. apply elapse_keeps_locked, Hwin, Hw.
    + now apply elapse_owned.
Qed.

Lemma run_consistent inputs : forall s, consistent s -> consistent (run inputs s).
Proof.
  induction inputs as [| i rest IH]; intros s Hc; [exact Hc |].
  cbn [run fold_left]. apply IH, step_consistent, Hc.
Qed.

Lemma started_consistent m window toTray onClose :
  pending (loop m) = ∅ -> consistent (started m window toTray onClose).
Proof.
  intros Hempty. destruct (constructor_object m) as (_ & _ & _ & Hl).
  split; cbn [started lockWindow session]; [discriminate |].
  apply resetLockTimeout_owned, owned_when_empty. now rewrite Hl.
Qed.

(** [X18] From the start of the application and whatever reaches the main
    process afterwards, in any order: a lock window is only ever open over
    a locked session, at most one inactivity timer is pending, and a
    pending timer is the one whose handle the object holds. *)
Theorem lock_window_only_over_locked_session m window toTray onClose inputs :
  pending (loop m) = ∅ ->
  let s := run inputs (started m window toTray onClose) in
  (lockWindow s = true -> isLocked (self (session s)) = true) /\
  (size (pending (loop (session s))) <= 1)%nat /\
  (forall id, is_Some (pending (loop (session s)) !! id) ->
              lockTimeout (self (session s)) = Some id).
Proof.
  intros Hempty s.
  pose proof (started_consistent m window toTray onClose Hempty) as Hstart.
  pose proof (run_consistent inputs _ Hstart) as [Hwin Hown]. fold s in Hwin, Hown.
  split; [exact Hwin |]. split; [now apply timers_owned_size | exact Hown].
Qed.

(** [X19] The handler of ['lock-session'] toggles: its answer is the new
    lock state, [true] after locking and [false] after unlocking, and the
    lock window is open exactly in the first case.  It unlocks without any
    biometric prompt, whatever the settings require, and a session that the
    timer has locked is unlocked by it as well. *)
Theorem lock_session_request_toggles s :
  consistent s ->
  let answer := fst (ipc_lock_session s) in
  let s' := snd (ipc_lock_session s) in
  answer = negb (isLocked (self (session s))) /\
  isLocked (self (session s')) = answer /\
  lockWindow s' = answer /\
  (mainWindow s <> None -> mainWindow s' = Some (if answer then Hidden else Shown)) /\
  prompts (ticks (session s')) = prompts (ticks (session s)) /\
  consistent s'.
Proof.
  intros Hc answer s'. pose proof Hc as [Hwin Hown]. subst answer s'.
  pose proof (step_consistent IpcLockSession s Hc) as Hcons. cbn [step] in Hcons.
  revert Hcons. unfold ipc_lock_session.
  destruct (isLocked (self (session s))) eqn:Hlocked; cbn [fst snd negb]; intros Hcons.
  - destruct (unlock_granted_spec (session s))
      as (_ & Hopen & _ & _ & _ & _ & _ & _ & _ & Hticks & _).
    assert (Hrun : after (unlock false) (session s) = after unlock_granted (session s)).
    { unfold after, unlock, bind, gets. cbn [andb]. reflexivity. }
    split; [reflexivity |]. split; [| split; [| split; [| split]]]; [| | | | exact Hcons].
    + unfold unlockSession. shell_simpl. now rewrite Hrun.
    + reflexivity.
    + intros Hmain. destruct (mainWindow s) eqn:Hm; [| contradiction].
      unfold unlockSession. shell_simpl. now rewrite Hm.
    + unfold unlockSession. shell_simpl. now rewrite Hrun, Hticks.
  - assert (Hw : lockWindow s = false).
    { destruct (lockWindow s) eqn:Hw; [| reflexivity]. specialize (Hwin eq_refl). congruence. }
    destruct (lock_frame (session s)) as (_ & _ & _ & _ & _ & Hticks).
    split; [reflexivity |]. split; [| split; [| split; [| split]]]; [| | | | exact Hcons].
    + unfold lockSession. rewrite Hw. shell_simpl. apply lock_spec.
    + unfold lockSession. now rewrite Hw.
    + intros Hmain. destruct (mainWindow s) eqn:Hm; [| contradiction].
      unfold lockSession. rewrite Hw. shell_simpl. now rewrite Hm.
    + unfold lockSession. rewrite Hw. shell_simpl. now rewrite Hticks.
Qed.

(** [X20] The tray entry "Open Google Calendar" shows the main window
    without looking at the lock: after [lockSession] has hidden the main
    window, one click shows it again while the session is still locked and
    the lock window still open. *)
Theorem tray_open_shows_locked_session s :
  mainWindow s <> None ->
  lockWindow s = false ->
  let s1 := lockSession s in
  let s2 := step TrayOpen s1 in
  mainWindow s1 = Some Hidden /\
  mainWindow s2 = Some Shown /\
  isLocked (self (session s2)) = true /\
  lockWindow s2 = true.
Proof.
  intros Hmain Hw s1 s2. subst s2 s1.
  destruct (mainWindow s) as [w |] eqn:Hm; [| contradiction].
  unfold lockSession. rewrite Hw. cbn [step]. unfold tray_open. shell_simpl.
  rewrite Hm. split; [reflexivity |]. split; [reflexivity |].
  split; [apply lock_spec | reflexivity].
Qed.

(** [X21] When the timer locks the session, nothing shows it: the main
    window stays as it was and no lock window is opened, so that the next
    ['lock-session'] request unlocks. *)
Theorem timeout_lock_opens_no_lock_window m window toTray onClose :
  pending (loop m) = ∅ ->
  let s := step (Idle 1800000) (started m window toTray onClose) in
  isLocked (self (session s)) = true /\
  lockWindow s = false /\
  mainWindow s = Some window /\
  fst (ipc_lock_session s) = false /\
  isLocked (self (session (snd (ipc_lock_session s)))) = false.
Proof.
  intros Hempty s.
  destruct (constructor_object m) as (_ & _ & Hms & Hl).
  assert (Hlocked : isLocked (self (session s)) = true).
  { subst s. cbn [step]. unfold started. shell_simpl.
    rewrite reset_then_wait.
    - rewrite Hms. now rewrite bool_decide_eq_true_2 by lia.
    - apply owned_when_empty. now rewrite Hl.
    - rewrite Hms. lia. }
  split; [exact Hlocked |]. split; [reflexivity |]. split; [reflexivity |].
  unfold ipc_lock_session. rewrite Hlocked. cbn [fst snd]. split; [reflexivity |].
  unfold unlockSession. shell_simpl.
  assert (Hrun : after (unlock false) (session s) = after unlock_granted (session s)).
  { unfold after, unlock, bind, gets. cbn [andb]. reflexivity. }
  rewrite Hrun. apply unlock_granted_spec.
Qed.

(** [X22] The handler of ['clear-session'] answers [true] whatever
    [clearAllData] returns: when the first file-system call of the erasure
    fails, [clearAllData] returns [false], the key file is still there with
    its content, and the answer is [true]. *)
Theorem clear_session_hides_failure s content :
  files (fs (session s)) !! keyFile = Some content ->
  io_fault (env (session s)) (io_tick (ticks (session s))) = true ->
  result clearAllData (session s) = Ok false /\
  fst (ipc_clear_session true s) = Ok true /\
  files (fs (session (snd (ipc_clear_session true s)))) !! keyFile = Some content.
Proof.
  intros Hfile Hio. cbn [ipc_clear_session fst snd]. shell_simpl.
  assert (Hex : bool_decide (is_Some (files (fs (session s)) !! keyFile)) = true)
    by (apply bool_decide_eq_true_2; eauto).
  assert (Hrun : wp clearAllData
                   (fun r m' => r = Ok false /\ fs m' = fs (session s)) (session s)).
  { unfold clearAllData, erase_everything. wp_erase. split; reflexivity. }
  destruct Hrun as [Hr Hfs]. split; [exact Hr |]. split; [reflexivity |].
  now rewrite Hfs.
Qed.

(** [X23] "Auto-Lock: Never" saves 0 minutes and clears the timer: from
    then on idling never locks.  But the next focus of the window, or the
    next key or mouse input, starts a timer of one millisecond, and the
    session is locked when it fires. *)
Theorem never_lasts_until_next_activity s :
  consistent s ->
  mainWindow s <> None ->
  tracked s = true ->
  let s1 := step MenuAutoLockNever s in
  pending (loop (session s1)) = ∅ /\
  (forall dt, isLocked (self (session (step (Idle dt) s1))) = isLocked (self (session s))) /\
  isLocked (self (session (step (Idle 1) (step WindowFocused s1)))) = true /\
  isLocked (self (session (step (Idle 1) (step KeyOrMouseInput s1)))) = true.
Proof.
  intros Hc Hmain Htracked s1.
  pose proof (saveSettings_consistent (auto_lock_only 0) s Hc) as [_ Hown0].
  destruct (saveSettings_memory (auto_lock_only 0) (session s)) as (Hset & Hms & Hl0 & _).
  set (m0 := after (saveSettings (auto_lock_only 0)) (session s)) in *.
  destruct (clearLockTimeout_spec m0) as (_ & Hh & Hq & _ & Hl1 & Hset1 & Hms1 & _).
  set (m1 := after clearLockTimeout m0) in *.
  assert (Hs1 : session s1 = m1) by reflexivity.
  assert (Hempty : pending (loop m1) = ∅)
    by (rewrite Hq; apply queue_cleared_owned, Hown0).
  assert (Hlate : forall m', m' = after resetLockTimeout m1 ->
                             isLocked (self (after (elapse 1) m')) = true).
  { intros m' ->. destruct (resetLockTimeout_spec m1) as (_ & _ & Hq' & Hnow' & _).
    eapply elapse_locks.
    - rewrite Hq'. apply lookup_insert_eq.
    - change (lockTimeoutMs (self m0) = 0) in Hms.
      rewrite Hms1, Hms, Hnow'. change (timer_delay 0) with 1. lia. }
  split; [now rewrite Hs1 |]. split; [| split].
  - intros dt. cbn [step]. shell_simpl. rewrite Hs1.
    unfold after at 1. rewrite elapse_idle.
    + cbn [snd]. unfold later. state_simpl. now rewrite Hl1, Hl0.
    + intros id due Hdue. rewrite Hempty, lookup_empty in Hdue. discriminate.
  - cbn [step]. shell_simpl.
    assert (Hwin1 : mainWindow s1 = mainWindow s) by reflexivity.
    rewrite Hwin1. destruct (mainWindow s) as [w |]; [| contradiction].
    unfold on_focus, on_focus_second, on_focus_first.
    replace (autoLockMinutes (settings (self (session s1)))) with 0
      by (rewrite Hs1, Hset1, Hset; reflexivity).
    rewrite andb_false_r. shell_simpl.
    assert (Ht1 : tracked s1 = true) by exact Htracked. rewrite Ht1. shell_simpl.
    apply Hlate. now rewrite Hs1.
  - cbn [step]. shell_simpl.
    assert (Hwin1 : mainWindow s1 = mainWindow s) by reflexivity.
    rewrite Hwin1. destruct (mainWindow s) as [w |]; [| contradiction].
    unfold on_before_input.
    assert (Ht1 : tracked s1 = true) by exact Htracked. rewrite Ht1. shell_simpl.
    apply Hlate. now rewrite Hs1.
Qed.

(** [X24] The box "Lock on Minimize" takes effect at once, whether or not
    the settings could be written: with the box checked, minimising the
    main window locks the session, opens the lock window and hides the main
    window; with the box cleared, minimising locks nothing. *)
Theorem lock_on_minimize_takes_effect s checked :
  mainWindow s <> None ->
  lockWindow s = false ->
  let s1 := step WindowMinimized (step (MenuLockOnMinimize checked) s) in
  if checked
  then isLocked (self (session s1)) = true /\ lockWindow s1 = true /\
       mainWindow s1 = Some Hidden
  else isLocked (self (session s1)) = isLocked (self (session s)) /\
       lockWindow s1 = false /\
       mainWindow s1 = Some (if minimizeToTray s then Hidden else Minimized).
Proof.
  intros Hmain Hw s1. subst s1. cbn [step]. unfold menu_lock_on_minimize. shell_simpl.
  destruct (mainWindow s) as [w |] eqn:Hwin; [| contradiction].
  destruct (saveSettings_memory (lock_on_minimize_only checked) (session s))
    as (Hset & _ & Hl & _).
  unfold on_minimize. shell_simpl. rewrite Hset.
  unfold lockSession. shell_simpl. rewrite Hw.
  destruct checked; cbn [merge_settings lockOnMinimize lock_on_minimize_only
                         p_lockOnMinimize default from_option id]; shell_simpl.
  - destruct (minimizeToTray s); shell_simpl; rewrite ?Hwin;
      (split; [apply lock_spec | split; reflexivity]).
  - destruct (minimizeToTray s); shell_simpl; rewrite ?Hwin;
      (split; [exact Hl | split; [exact Hw | reflexivity]]).
Qed.

End MainProcessProperties.

(** ** Navigation at work *)

Section NavigationProperties.
Context `{BR : Browser}.

Lemma prefix_append a rest : String.prefix a (a +:+ rest) = true.
Proof.
  induction a as [| c a IH]; [now destruct rest |].
  change (String c a +:+ rest) with (String c (a +:+ rest)).
  cbn [String.prefix]. destruct (ascii_dec c c); [exact IH | contradiction].
Qed.

(** [X25] The explicit list is matched by prefix of the whole URL, not by
    host: every URL that [new URL] accepts and that starts with an entry of
    [ALLOWED_URLS] is allowed, whatever follows the entry and so whatever
    its host is; both navigation handlers then keep it in the window. *)
Theorem allow_list_accepts_any_extension allowed rest hostname :
  In allowed ALLOWED_URLS ->
  URL_hostname (allowed +:+ rest) = Some hostname ->
  isAllowedUrl (allowed +:+ rest) = true /\
  will_navigate (allowed +:+ rest) = NavigateInWindow /\
  window_open (allowed +:+ rest) = LoadInMainWindow (allowed +:+ rest).
Proof.
  intros Hin Hhost.
  assert (Hallowed : isAllowedUrl (allowed +:+ rest) = true).
  { unfold isAllowedUrl. rewrite Hhost. apply orb_true_iff. right.
    apply existsb_exists. exists allowed. split; [exact Hin |].
    apply prefix_append. }
  unfold will_navigate, window_open. rewrite Hallowed. repeat split; reflexivity.
Qed.

End NavigationProperties.

(** ** The version script at work *)

Section VersionScript.

Lemma padStart_two_digits n : 0 <= n < 100 -> padStart 2 "0" (String_of_number n) = two_digits n.
Proof.
  intros Hn.
  assert (Hall : forallb (fun k => String.eqb (padStart 2 "0" (String_of_number (Z.of_nat k)))
                                      (two_digits (Z.of_nat k))) (seq 0 100) = true)
    by (vm_compute; reflexivity).
  rewrite forallb_forall in Hall.
  specialize (Hall (Z.to_nat n) ltac:(apply in_seq; lia)).
  rewrite Z2Nat.id in Hall by lia. now apply String.eqb_eq.
Qed.

Lemma two_digits_plain n : 0 <= n < 100 -> has_char "." (two_digits n) = false.
Proof.
  intros Hn.
  assert (Hall : forallb (fun k => negb (has_char "." (two_digits (Z.of_nat k))))
                   (seq 0 100) = true)
    by (vm_compute; reflexivity).
  rewrite forallb_forall in Hall.
  specialize (Hall (Z.to_nat n) ltac:(apply in_seq; lia)).
  rewrite Z2Nat.id in Hall by lia. now apply negb_true_iff.
Qed.

Lemma two_digits_inj a b : 0 <= a < 100 -> 0 <= b < 100 -> two_digits a = two_digits b -> a = b.
Proof.
  intros Ha Hb Heq.
  assert (Hall : forallb (fun k => Z.eqb (Z.of_N (N_of_ascii (decimal_digit (Z.of_nat k))))
                                      (48 + Z.of_nat k)) (seq 0 10) = true)
    by (vm_compute; reflexivity).
  rewrite forallb_forall in Hall.
  assert (Hdigit : forall k, 0 <= k < 10 ->
                             Z.of_N (N_of_ascii (decimal_digit k)) = 48 + k).
  { intros k Hk. specialize (Hall (Z.to_nat k) ltac:(apply in_seq; lia)).
    rewrite Z2Nat.id in Hall by lia. now apply Z.eqb_eq. }
  unfold two_digits in Heq. injection Heq as Hhi Hlo.
  apply (f_equal (fun c => Z.of_N (N_of_ascii c))) in Hhi, Hlo.
  rewrite !Hdigit in Hhi, Hlo
    by first [ apply Z.mod_pos_bound; lia
             | split; [apply Z.div_pos; lia | apply Z.div_lt_upper_bound; lia] ].
  rewrite (Z.div_mod a 10), (Z.div_mod b 10) by lia. lia.
Qed.

Lemma uint_plain d : has_char "." (NilEmpty.string_of_uint d) = false.
Proof. induction d; cbn; auto. Qed.

Lemma String_of_number_plain n : has_char "." (String_of_number n) = false.
Proof.
  unfold String_of_number, NilZero.string_of_int, NilZero.string_of_uint.
  destruct (Z.to_int n) as [d | d]; destruct d; cbn; auto using uint_plain.
Qed.

Lemma String_of_number_inj a b : String_of_number a = String_of_number b -> a = b.
Proof.
  unfold String_of_number. intros Heq.
  assert (Hnn : forall z, Z.to_int z <> Decimal.Pos Decimal.Nil /\
                          Z.to_int z <> Decimal.Neg Decimal.Nil).
  { intros [| p | p]; cbn; split; try discriminate;
      intros H; injection H as H; now apply Unsigned.to_uint_nonnil in H. }
  apply (f_equal NilZero.int_of_string) in Heq.
  rewrite !NilZero.isi in Heq by apply Hnn.
  injection Heq as Heq. apply (f_equal Z.of_int) in Heq.
  now rewrite !DecimalZ.of_to in Heq.
Qed.

Lemma append_cons c a b : String c a +:+ b = String c (a +:+ b).
Proof. reflexivity. Qed.

Lemma append_empty b : EmptyString +:+ b = b.
Proof. reflexivity. Qed.

Lemma split_on_field sep a b :
  has_char sep a = false ->
  split_on sep (a +:+ String sep b) = a :: split_on sep b.
Proof.
  induction a as [| c rest IH]; cbn [has_char]; intros Hplain.
  - rewrite append_empty. cbn [split_on]. now rewrite Ascii.eqb_refl.
  - apply orb_false_iff in Hplain as [Hc Hrest].
    rewrite append_cons. cbn [split_on]. rewrite Hc, IH by exact Hrest. reflexivity.
Qed.

Lemma split_on_last sep a : has_char sep a = false -> split_on sep a = [a].
Proof.
  induction a as [| c rest IH]; cbn [split_on has_char]; intros Hplain; [reflexivity |].
  apply orb_false_iff in Hplain as [Hc Hrest].
  rewrite Hc, IH by exact Hrest. reflexivity.
Qed.

Lemma has_char_app c a b : has_char c (a +:+ b) = has_char c a || has_char c b.
Proof.
  induction a as [| x rest IH]; [reflexivity |].
  rewrite append_cons. cbn [has_char]. now rewrite IH, orb_assoc.
Qed.

(** The version with its conversions carried out. *)
Lemma getTimestampVersion_digits t :
  valid_time t ->
  getTimestampVersion t =
  String_of_number (getFullYear t) +:+
  String "." ((two_digits (getMonth t + 1) +:+ two_digits (getDate t)) +:+
              String "." (two_digits (getHours t) +:+ two_digits (getMinutes t))).
Proof.
  intros (Hm & Hd & Hh & Hmin). unfold getTimestampVersion.
  rewrite !padStart_two_digits by lia. reflexivity.
Qed.

(** [X26] The version that [getTimestampVersion] makes has three fields
    between dots: the year as it prints, then exactly four digits for month
    and day and exactly four for hours and minutes.  The second field
    therefore starts with a zero from January to September, and the third
    before ten o'clock. *)
Theorem version_has_three_fields t :
  valid_time t ->
  let month_day := two_digits (getMonth t + 1) +:+ two_digits (getDate t) in
  let hours_minutes := two_digits (getHours t) +:+ two_digits (getMinutes t) in
  split_on "." (getTimestampVersion t) =
    [String_of_number (getFullYear t); month_day; hours_minutes] /\
  String.length month_day = 4%nat /\
  String.length hours_minutes = 4%nat /\
  (getMonth t < 9 -> String.prefix "0" month_day = true) /\
  (getHours t < 10 -> String.prefix "0" hours_minutes = true).
Proof.
  intros Hvalid month_day hours_minutes.
  pose proof Hvalid as (Hm & Hd & Hh & Hmin).
  rewrite (getTimestampVersion_digits t Hvalid). fold month_day hours_minutes.
  assert (Hp1 : has_char "." month_day = false).
  { subst month_day. rewrite has_char_app, !two_digits_plain by lia. reflexivity. }
  assert (Hp2 : has_char "." hours_minutes = false).
  { subst hours_minutes. rewrite has_char_app, !two_digits_plain by lia. reflexivity. }
  split; [| split; [reflexivity | split; [reflexivity | split]]].
  - rewrite split_on_field by apply String_of_number_plain.
    rewrite split_on_field by exact Hp1.
    now rewrite split_on_last by exact Hp2.
  - intros Hearly. subst month_day. unfold two_digits at 1.
    replace ((getMonth t + 1) / 10) with 0 by (symmetry; apply Z.div_small; lia).
    reflexivity.
  - intros Hearly. subst hours_minutes. unfold two_digits at 1.
    replace (getHours t / 10) with 0 by (symmetry; apply Z.div_small; lia).
    reflexivity.
Qed.

(** [X27] Two dates that differ in the year, the month, the day, the hour
    or the minute get different versions; seconds are not looked at, so
    only runs within the same minute share a version. *)
Theorem version_determines_the_minute t1 t2 :
  valid_time t1 -> valid_time t2 ->
  getTimestampVersion t1 = getTimestampVersion t2 ->
  t1 = t2.
Proof.
  intros Hv1 Hv2 Heq.
  pose proof Hv1 as (Hm1 & Hd1 & Hh1 & Hmin1).
  pose proof Hv2 as (Hm2 & Hd2 & Hh2 & Hmin2).
  assert (Hplain : forall a b, 0 <= a < 100 -> 0 <= b < 100 ->
                               has_char "." (two_digits a +:+ two_digits b) = false).
  { intros a b Ha Hb. rewrite has_char_app, !two_digits_plain by lia. reflexivity. }
  apply (f_equal (split_on ".")) in Heq.
  rewrite !getTimestampVersion_digits in Heq by assumption.
  rewrite !split_on_field in Heq by (try apply String_of_number_plain; apply Hplain; lia).
  rewrite !split_on_last in Heq by (apply Hplain; lia).
  pose proof (f_equal (fun fields => nth 0 fields EmptyString) Heq) as Hy.
  pose proof (f_equal (fun fields => nth 1 fields EmptyString) Heq) as Hmd.
  pose proof (f_equal (fun fields => nth 2 fields EmptyString) Heq) as Hhm.
  cbn [nth] in Hy, Hmd, Hhm. clear Heq.
  apply String_of_number_inj in Hy.
  assert (Hcut : forall a b c d,
             two_digits a +:+ two_digits b = two_digits c +:+ two_digits d ->
             two_digits a = two_digits c /\ two_digits b = two_digits d).
  { intros a b c d Hsame. unfold two_digits in *.
    rewrite !append_cons, !append_empty in Hsame.
    injection Hsame as E1 E2 E3 E4. now rewrite E1, E2, E3, E4. }
  apply Hcut in Hmd as [Hmo Hda]. apply Hcut in Hhm as [Hho Hmi].
  apply two_digits_inj in Hmo, Hda, Hho, Hmi; try lia.
  destruct t1, t2. cbn in *. f_equal; lia.
Qed.

End VersionScript.

Section UpdateVersionProperties.
Context `{RT : Runtime} `{PJ : Project}.

Lemma set_field_shape key item fields :
  (exists before old rest,
      fields = (before ++ (key, old) :: rest)%list /\
      (key ∉ map fst before) /\
      set_field key item fields = (before ++ (key, item) :: rest)%list) \/
  ((key ∉ map fst fields) /\
   set_field key item fields = (fields ++ [(key, item)])%list).
Proof.
  induction fields as [| [k old] rest IH]; cbn [set_field map fst].
  - right. split; [apply not_elem_of_nil | reflexivity].
  - destruct (String.eqb_spec k key) as [-> | Hne].
    + left. exists [], old, rest. cbn. split; [reflexivity |].
      split; [apply not_elem_of_nil | reflexivity].
    + destruct IH as [(before & old' & rest' & Hf & Hb & Hs) | [Hnone Hs]].
      * left. exists ((k, old) :: before), old', rest'. cbn [app map fst].
        rewrite Hs. split; [now rewrite Hf |]. split; [| reflexivity].
        apply not_elem_of_cons. split; [congruence | exact Hb].
      * right. rewrite Hs. split; [| reflexivity].
        apply not_elem_of_cons. split; [congruence | exact Hnone].
Qed.

(** [X28] On a [package.json] that holds a JSON object, [updateVersion]
    returns the new version and writes the object back with only its
    [version] changed: the member is replaced where it stands, or added
    last when there was none, and every other member keeps its place and
    its value.  No other file is touched, and the log gets the two
    messages, the first with the version found. *)
Theorem updateVersion_stamps_only_version m now raw fields text :
  files (fs m) !! packagePath = Some raw ->
  JSON_parse (utf8_decode raw) = Some (VObj fields) ->
  JSON_stringify_indented
    (VObj (set_field "version" (VStr (getTimestampVersion now)) fields)) = Some text ->
  projectRoot ∈ dirs (fs m) ->
  io_fault (env m) (io_tick (ticks m)) = false ->
  io_fault (env m) (S (io_tick (ticks m))) = false ->
  let m' := after (updateVersion now) m in
  let stamped := set_field "version" (VStr (getTimestampVersion now)) fields in
  result (updateVersion now) m = Ok (getTimestampVersion now) /\
  files (fs m') = <[packagePath := utf8_encode (text +:+ String "010" EmptyString)]> (files (fs m)) /\
  new_events m m' =
    [ EvLog "log" ("Updating version: " +:+
                   template_text (default VUndefined (lookup_field "version" fields)) +:+
                   " " +:+ arrow +:+ " " +:+ getTimestampVersion now);
      EvWrite packagePath (utf8_encode (text +:+ String "010" EmptyString));
      EvLog "log" (check_mark +:+ " Version updated to " +:+ getTimestampVersion now) ] /\
  ((exists before old rest,
       fields = (before ++ ("version", old) :: rest)%list /\
       ("version" ∉ map fst before) /\
       stamped = (before ++ ("version", VStr (getTimestampVersion now)) :: rest)%list) \/
   (("version" ∉ map fst fields) /\
    stamped = (fields ++ [("version", VStr (getTimestampVersion now))])%list)).
Proof.
  intros Hfile Hparse Hprint Hdir Hf0 Hf1 m' stamped.
  assert (Hd : bool_decide (fst packagePath ∈ dirs (fs m)) = true)
    by (apply bool_decide_eq_true_2, Hdir).
  split; [| split; [| split; [| apply set_field_shape]]].
  - change (wp (updateVersion now) (fun r _ => r = Ok (getTimestampVersion now)) m).
    unfold updateVersion, parse, stamp. wp_auto. reflexivity.
  - subst m'.
    change (wp (updateVersion now)
              (fun _ m' => files (fs m') =
                 <[packagePath := utf8_encode (text +:+ String "010" EmptyString)]>
                   (files (fs m))) m).
    unfold updateVersion, parse, stamp. wp_auto. reflexivity.
  - subst m'. apply new_events_app.
    change (wp (updateVersion now)
              (fun _ m' => trace m' =
                 (trace m ++
                  [ EvLog "log" ("Updating version: " +:+
                       template_text (default VUndefined (lookup_field "version" fields)) +:+
                       " " +:+ arrow +:+ " " +:+ getTimestampVersion now);
                    EvWrite packagePath (utf8_encode (text +:+ String "010" EmptyString));
                    EvLog "log" (check_mark +:+ " Version updated to " +:+
                                 getTimestampVersion now) ])%list) m).
    unfold updateVersion, parse, stamp, version_of. wp_auto.
    now rewrite <- !app_assoc.
Qed.

(** [X29] [updateVersion] has no handler: when [package.json] is missing,
    cannot be read, is not JSON or holds [null], the call throws and the
    file system is left as it was. *)
Theorem updateVersion_fails_without_writing m now :
  files (fs m) !! packagePath = None \/
  io_fault (env m) (io_tick (ticks m)) = true \/
  (exists raw, files (fs m) !! packagePath = Some raw /\
     (JSON_parse (utf8_decode raw) = None \/ JSON_parse (utf8_decode raw) = Some VNull)) ->
  (exists e, result (updateVersion now) m = Throw e) /\
  fs (after (updateVersion now) m) = fs m /\
  trace (after (updateVersion now) m) = trace m.
Proof.
  intros Hfail.
  change (wp (updateVersion now)
            (fun r m' => (exists e, r = Throw e) /\ fs m' = fs m /\ trace m' = trace m) m).
  unfold updateVersion, parse. wp_auto.
  all: try solve [split; [eauto | split; reflexivity]].
  all: exfalso; destruct Hfail as [Hnone | [Hio' | (raw & Hfile & [Hbad | Hnull])]];
    congruence.
Qed.

End UpdateVersionProperties.

(** ** Runs of the constructor, the timers, the main process and the script *)

Section ConstructionRuns.
Local Existing Instance Reference.runtime.

Lemma calm_fault_free m : io_fault (env m) = (fun _ => false) -> fault_free m.
Proof. intros H n _. now rewrite H. Qed.

Lemma constructor_contract_witness :
  let m := after (saveSettings (auto_lock_only 15)) Reference.first_run in
  let m' := after constructor m in
  autoLockMinutes (settings (self m')) = 15 /\
  lockTimeoutMs (self m') = 1800000 /\
  result constructor m = Ok tt /\
  files (fs m') !! configFile = files (fs m) !! configFile.
Proof.
  intros m m'.
  destruct (constructor_contract m) as (Hr & _ & _ & Hms & _ & _ & Hfiles).
  split; [vm_compute; reflexivity |]. split; [exact Hms |]. split; [exact Hr |].
  apply Hfiles. apply configFile_neq_integrityFile.
Defined.

Lemma settings_survive_restart_witness :
  let m := Reference.first_run in
  result (saveSettings (auto_lock_only 15)) m = Ok true /\
  autoLockMinutes
    (settings (self (after constructor (after (saveSettings (auto_lock_only 15)) m)))) = 15.
Proof.
  intros m.
  pose (merged := merge_settings (settings (self m)) (auto_lock_only 15)).
  pose (text := default EmptyString (Reference.print_json (settings_value merged))).
  pose (content := default [] (Reference.seal text)).
  destruct (settings_survive_restart m (auto_lock_only 15) text content) as [Hr Hset].
  - reflexivity.
  - vm_compute. reflexivity.
  - vm_compute. reflexivity.
  - vm_compute. reflexivity.
  - vm_compute. reflexivity.
  - by_compute.
  - apply calm_fault_free. reflexivity.
  - split; [exact Hr |]. rewrite Hset. reflexivity.
Defined.

Lemma loadSettings_failure_keeps_settings_witness :
  files (fs Reference.first_run) !! configFile = None /\
  result _loadSettings Reference.first_run = Ok tt /\
  self (after _loadSettings Reference.first_run) = self Reference.first_run.
Proof.
  assert (Hnone : files (fs Reference.first_run) !! configFile = None)
    by (vm_compute; reflexivity).
  destruct (loadSettings_failure_keeps_settings Reference.first_run (or_introl Hnone))
    as (Hr & Hs & _).
  split; [exact Hnone |]. split; [exact Hr | exact Hs].
Defined.

Lemma integrity_record_roundtrip_witness :
  let source := utf8_encode "const { app } = require('electron');" in
  let m := after _initSecureDirectory Reference.installed in
  files (fs m) !! integrityFile = None /\
  files (fs (after _verifyIntegrity m)) !! integrityFile =
    Some (utf8_encode
            "main:4040404040404040404040404040404040404040404040404040404040404040") /\
  trace (after _verifyIntegrity Reference.first_run) = trace Reference.first_run.
Proof.
  intros source m.
  destruct (integrity_record_roundtrip source) as [Hrecord Haccept].
  assert (Hnone : files (fs m) !! integrityFile = None) by (vm_compute; reflexivity).
  destruct (Hrecord m) as [Hfile _].
  - vm_compute. reflexivity.
  - exact Hnone.
  - by_compute.
  - apply calm_fault_free. reflexivity.
  - destruct (Haccept Reference.first_run) as [Htrace _].
    + vm_compute. reflexivity.
    + vm_compute. reflexivity.
    + apply calm_fault_free. reflexivity.
    + split; [exact Hnone |]. split; [| exact Htrace].
      rewrite Hfile. vm_compute. reflexivity.
Defined.

Lemma integrity_warning_exactly_when_witness :
  let patched := Examples.with_file mainFile (utf8_encode "require('./backdoor');")
                   Reference.first_run in
  let blind := Examples.with_file integrityFile (utf8_encode "main")  patched in
  new_events patched (after _verifyIntegrity patched) =
    [EvLog "warn" "App integrity check failed - files may have been modified"] /\
  fs (after _verifyIntegrity patched) = fs patched /\
  new_events blind (after _verifyIntegrity blind) = [].
Proof.
  intros patched blind.
  destruct (integrity_warning_exactly_when patched
              (utf8_encode "require('./backdoor');")
              (utf8_encode
                 "main:4040404040404040404040404040404040404040404040404040404040404040"))
    as [Hfs Hwarn]; [vm_compute; reflexivity .. |].
  destruct (integrity_warning_exactly_when blind
              (utf8_encode "require('./backdoor');") (utf8_encode "main"))
    as [_ Hsilent]; [vm_compute; reflexivity .. |].
  split; [rewrite Hwarn; vm_compute; reflexivity |]. split; [exact Hfs |].
  rewrite Hsilent. vm_compute. reflexivity.
Defined.

End ConstructionRuns.

Section TimerRuns.
Local Existing Instance Reference.runtime.

Lemma startup_timeout_is_default_witness :
  let m := after (saveSettings (auto_lock_only 15)) Reference.first_run in
  let ready := after resetLockTimeout (after constructor m) in
  autoLockMinutes (settings (self ready)) = 15 /\
  isLocked (self (after (elapse 900000) ready)) = false /\
  isLocked (self (after (elapse 1800000) ready)) = true.
Proof.
  intros m ready.
  assert (Hempty : pending (loop m) = ∅) by reflexivity.
  destruct (startup_timeout_is_default m 900000 Hempty) as [Hearly _].
  destruct (startup_timeout_is_default m 1800000 Hempty) as [Hlate _].
  split; [vm_compute; reflexivity |]. subst ready.
  split; [rewrite Hearly | rewrite Hlate]; reflexivity.
Defined.

Lemma no_lock_before_timeout_witness :
  let m := Reference.first_run in
  lockTimeoutMs (self m) = 1800000 /\
  isLocked (self (after (elapse 1799999) (after resetLockTimeout m))) = false /\
  isLocked (self (after (elapse 1800000) (after resetLockTimeout m))) = true.
Proof.
  intros m.
  assert (Hown : timers_owned m) by (apply owned_when_empty; reflexivity).
  assert (Hopen : isLocked (self m) = false) by reflexivity.
  assert (Hrange : 1 <= lockTimeoutMs (self m) <= 2147483647) by (vm_compute; split; discriminate).
  destruct (no_lock_before_timeout m 1799999 Hown Hopen Hrange) as (Hearly & _).
  destruct (no_lock_before_timeout m 1800000 Hown Hopen Hrange) as (Hlate & _).
  split; [reflexivity |]. split; [rewrite Hearly | rewrite Hlate]; reflexivity.
Defined.

Lemma out_of_range_timeout_locks_at_once_witness :
  let m0 := after (saveSettings (auto_lock_only 40000)) Reference.first_run in
  lockTimeoutMs (self m0) = 2400000000 /\
  isLocked (self (after (elapse 1) (after resetLockTimeout m0))) = true.
Proof.
  intros m0.
  destruct (out_of_range_timeout_locks_at_once Reference.first_run 40000) as (Hms & _ & Hl).
  - right. lia.
  - split; [apply Hms; vm_compute; discriminate | exact Hl].
Defined.

End TimerRuns.

Section StoreRuns.
Local Existing Instance Reference.runtime.

Lemma saved_key_is_read_back_witness :
  let m := Reference.first_run in
  let m1 := after (saveSessionKey Reference.session_key) m in
  files (fs m1) !! keyFile = Reference.seal Reference.session_key /\
  result getSessionKey m1 = Ok Reference.session_key.
Proof.
  intros m m1.
  destruct (saved_key_is_read_back m Reference.session_key
              (default [] (Reference.seal Reference.session_key)))
    as (Hfile & Hr & _).
  - by_compute.
  - apply calm_fault_free. reflexivity.
  - reflexivity.
  - vm_compute. reflexivity.
  - split; [exact Hfile | exact Hr].
Defined.

Lemma keys_not_persisted_without_directory_witness :
  let m := after clearAllData Reference.first_run in
  let m1 := after getSessionKey m in
  result getSessionKey m
  = Ok "3079c20b549de62f78c10a539ce52e77c009529be42d76bf08519ae32c75be07" /\
  result getSessionKey m1 <> result getSessionKey m /\
  fs m1 = fs m.
Proof.
  intros m m1.
  destruct (keys_not_persisted_without_directory m) as (Hr & _ & _ & Hfs & Hdiff).
  - intros Hin. apply (bool_decide_eq_true_2 _) in Hin. vm_compute in Hin. discriminate.
  - vm_compute. reflexivity.
  - split; [rewrite Hr; vm_compute; reflexivity |]. split; [| exact Hfs].
    apply Hdiff. vm_compute. discriminate.
Defined.

Lemma envelope_shape_witness :
  exists envelope,
    result (encrypt Reference.payload) Reference.first_run = Ok (Some envelope) /\
    String.length (iv envelope) = 32%nat /\
    String.length (data envelope) = 132%nat /\
    String.length (tag envelope) = 32%nat.
Proof.
  pose (envelope :=
    {| iv := "4992db246db6ff4891da236cb5fe4790";
       data := "1bc30340474a53099c4b1009595e0b9da0e4fac2c9f5ea82a6e6d8ccaea1ccec2fae296a6176247d93783d27627822a39d8d80f1e1c8c3aacaccf8a996d9bcda45dc";
       tag := "d0d0d0d0d0d0d0d0d0d0d0d0d0d0d0d0";
       v := 2 |}).
  assert (Henc : result (encrypt Reference.payload) Reference.first_run = Ok (Some envelope))
    by (vm_compute; reflexivity).
  destruct (envelope_shape Reference.first_run Reference.payload envelope
              reference_tag_128 Henc) as (text & _ & _ & Hiv & _ & Htag & _).
  exists envelope. split; [exact Henc |]. split; [exact Hiv |].
  split; [reflexivity | exact Htag].
Defined.

Lemma truncated_tag_is_accepted_witness :
  let m := after (encrypt Reference.payload) Reference.first_run in
  let cut :=
    {| iv := "4992db246db6ff4891da236cb5fe4790";
       data := "1bc30340474a53099c4b1009595e0b9da0e4fac2c9f5ea82a6e6d8ccaea1ccec2fae296a6176247d93783d27627822a39d8d80f1e1c8c3aacaccf8a996d9bcda45dc";
       tag := "d0d0d0d0";
       v := 2 |} in
  result (decrypt (Some cut)) m = Ok Reference.payload.
Proof.
  intros m cut.
  pose (key := "2972bb044d96df2871ba034c95de2770b9024b94dd266fb8014a93dc256eb700").
  pose (text := default EmptyString (Reference.print_json Reference.payload)).
  destruct (truncated_tag_is_accepted m key (fromHex "4992db246db6ff4891da236cb5fe4790")
              Reference.payload text 4) as [_ Hr].
  - exact reference_tag_128.
  - vm_compute. reflexivity.
  - vm_compute. discriminate.
  - vm_compute. reflexivity.
  - vm_compute. reflexivity.
  - reflexivity.
  - assert (Hcut : cut =
        {| iv := iv (seal_envelope key (fromHex "4992db246db6ff4891da236cb5fe4790") text);
           data := data (seal_envelope key (fromHex "4992db246db6ff4891da236cb5fe4790") text);
           tag := toHex (take 4 (fromHex (tag (seal_envelope key
                     (fromHex "4992db246db6ff4891da236cb5fe4790") text))));
           v := v (seal_envelope key (fromHex "4992db246db6ff4891da236cb5fe4790") text) |})
      by (vm_compute; reflexivity).
    rewrite Hcut. exact Hr.
Defined.

Lemma clearAllData_nothing_to_clear_witness :
  clearAllData Reference.installed = (Ok true, Reference.installed).
Proof.
  apply clearAllData_nothing_to_clear; try (vm_compute; reflexivity).
  intros Hin. apply (bool_decide_eq_true_2 _) in Hin. vm_compute in Hin. discriminate.
Defined.

Lemma erase_then_restart_witness :
  let m := after (saveSettings (auto_lock_only 15)) (after getSessionKey Reference.first_run) in
  let m2 := after constructor (after clearAllData m) in
  autoLockMinutes (settings (self m)) = 15 /\
  is_Some (files (fs m) !! keyFile) /\
  result clearAllData m = Ok true /\
  settings (self m2) = default_settings /\
  files (fs m2) !! keyFile = None /\
  files (fs m2) !! configFile = None.
Proof.
  intros m m2.
  destruct (erase_then_restart m) as (Hr & _ & _ & Hset & Hkey & Hconfig).
  - apply calm_fault_free. reflexivity.
  - by_compute.
  - split; [vm_compute; reflexivity |].
    split; [eexists; vm_compute; reflexivity |].
    split; [exact Hr |]. split; [exact Hset |]. split; [exact Hkey | exact Hconfig].
Defined.

End StoreRuns.

Section MainProcessRuns.
Local Existing Instance Reference.runtime.

Lemma desk_consistent : consistent Examples.desk.
Proof. apply started_consistent. reflexivity. Qed.

Lemma lock_window_only_over_locked_session_witness :
  let inputs := [ LockSessionRequested; TrayOpen; IpcLockSession; MenuAutoLock 15;
                  KeyOrMouseInput; Idle 900000; WindowFocused; WindowMinimized ] in
  let s := run inputs Examples.desk in
  isLocked (self (session s)) = true /\
  lockWindow s = false /\
  (size (pending (loop (session s))) <= 1)%nat.
Proof.
  intros inputs s.
  destruct (lock_window_only_over_locked_session Reference.installed Shown true true inputs)
    as (_ & Hsize & _); [reflexivity |].
  split; [vm_compute; reflexivity |]. split; [vm_compute; reflexivity | exact Hsize].
Defined.

Lemma lock_session_request_toggles_witness :
  let biometric :=
    {| p_requireBiometric := Some true; p_lockOnMinimize := None;
       p_autoLockMinutes := None; p_secureClipboard := None;
       p_preventScreenCapture := None |} in
  let s := lockSession (call (saveSettings biometric) Examples.desk) in
  requireBiometric (settings (self (session s))) = true /\
  isLocked (self (session s)) = true /\
  fst (ipc_lock_session s) = false /\
  isLocked (self (session (snd (ipc_lock_session s)))) = false /\
  prompts (ticks (session (snd (ipc_lock_session s)))) = 0%nat.
Proof.
  intros biometric s.
  assert (Hc : consistent s)
    by (apply lockSession_consistent, saveSettings_consistent, desk_consistent).
  assert (Hlocked : isLocked (self (session s)) = true) by (vm_compute; reflexivity).
  destruct (lock_session_request_toggles s Hc) as (Ha & Hl & _ & _ & Hp & _).
  rewrite Hlocked in Ha. cbn [negb] in Ha.
  split; [vm_compute; reflexivity |]. split; [exact Hlocked |]. split; [exact Ha |].
  split; [rewrite Hl; exact Ha |]. rewrite Hp. vm_compute. reflexivity.
Defined.

Lemma tray_open_shows_locked_session_witness :
  let s := step TrayOpen (lockSession Examples.desk) in
  mainWindow s = Some Shown /\ isLocked (self (session s)) = true /\ lockWindow s = true.
Proof.
  intros s.
  destruct (tray_open_shows_locked_session Examples.desk) as (_ & Hshown & Hlocked & Hlock).
  - discriminate.
  - reflexivity.
  - split; [exact Hshown |]. split; [exact Hlocked | exact Hlock].
Defined.

Lemma timeout_lock_opens_no_lock_window_witness :
  let s := step (Idle 1800000) Examples.desk in
  isLocked (self (session s)) = true /\
  lockWindow s = false /\
  mainWindow s = Some Shown /\
  fst (ipc_lock_session s) = false.
Proof.
  intros s.
  destruct (timeout_lock_opens_no_lock_window Reference.installed Shown true true)
    as (Hl & Hw & Hm & Ha & _); [reflexivity |].
  split; [exact Hl |]. split; [exact Hw |]. split; [exact Hm | exact Ha].
Defined.

Lemma clear_session_hides_failure_witness :
  let s := with_session
             (fun _ => Reference.keyed (utf8_encode Reference.session_key) Reference.failing)
             Examples.desk in
  result clearAllData (session s) = Ok false /\
  fst (ipc_clear_session true s) = Ok true /\
  files (fs (session (snd (ipc_clear_session true s)))) !! keyFile
  = Some (utf8_encode Reference.session_key).
Proof.
  intros s.
  apply (clear_session_hides_failure s (utf8_encode Reference.session_key)).
  - vm_compute. reflexivity.
  - reflexivity.
Defined.

Lemma never_lasts_until_next_activity_witness :
  let s1 := step MenuAutoLockNever Examples.desk in
  pending (loop (session s1)) = ∅ /\
  isLocked (self (session (step (Idle 86400000) s1))) = false /\
  isLocked (self (session (step (Idle 1) (step KeyOrMouseInput s1)))) = true.
Proof.
  intros s1.
  destruct (never_lasts_until_next_activity Examples.desk desk_consistent)
    as (Hempty & Hidle & _ & Hkey).
  - discriminate.
  - reflexivity.
  - split; [exact Hempty |]. split; [| exact Hkey].
    subst s1. rewrite Hidle. vm_compute. reflexivity.
Defined.

Lemma lock_on_minimize_takes_effect_witness :
  let s1 := step WindowMinimized (step (MenuLockOnMinimize true) Examples.desk) in
  isLocked (self (session s1)) = true /\ lockWindow s1 = true /\
  mainWindow s1 = Some Hidden.
Proof.
  intros s1.
  apply (lock_on_minimize_takes_effect Examples.desk true).
  - discriminate.
  - reflexivity.
Defined.

End MainProcessRuns.

Section ScriptRuns.
Local Existing Instance Reference.runtime.
Local Existing Instance Examples.browser.
Local Existing Instance Examples.project.

Lemma allow_list_accepts_any_extension_witness :
  let url := "https://calendar.google.com.evil.example/login" in
  URL_hostname url = Some "calendar.google.com.evil.example" /\
  existsb (endsWith "calendar.google.com.evil.example") googleDomains = false /\
  isAllowedUrl url = true /\
  will_navigate url = NavigateInWindow.
Proof.
  intros url.
  destruct (allow_list_accepts_any_extension "https://calendar.google.com"
              ".evil.example/login" "calendar.google.com.evil.example")
    as (Hallowed & Hnav & _).
  - left. reflexivity.
  - reflexivity.
  - split; [reflexivity |]. split; [reflexivity |]. split; [exact Hallowed | exact Hnav].
Defined.

Lemma afternoon_valid : valid_time Examples.afternoon.
Proof. unfold valid_time. cbn. lia. Qed.

Lemma morning_valid : valid_time Examples.morning.
Proof. unfold valid_time. cbn. lia. Qed.

Lemma version_has_three_fields_witness :
  getTimestampVersion Examples.morning = "2026.0105.0907" /\
  split_on "." (getTimestampVersion Examples.morning) = ["2026"; "0105"; "0907"] /\
  String.prefix "0" "0105" = true.
Proof.
  destruct (version_has_three_fields Examples.morning morning_valid)
    as (Hfields & _ & _ & Hzero & _).
  split; [vm_compute; reflexivity |]. split; [rewrite Hfields; vm_compute; reflexivity |].
  apply Hzero. cbn. lia.
Defined.

Lemma version_determines_the_minute_witness :
  getTimestampVersion Examples.afternoon = "2025.1223.1430" /\
  getTimestampVersion Examples.afternoon <> getTimestampVersion Examples.morning.
Proof.
  split; [vm_compute; reflexivity |].
  intros Hsame.
  pose proof (version_determines_the_minute _ _ afternoon_valid morning_valid Hsame) as Heq.
  discriminate Heq.
Defined.

Lemma updateVersion_stamps_only_version_witness :
  let m := Examples.workspace in
  let m' := after (updateVersion Examples.afternoon) m in
  result (updateVersion Examples.afternoon) m = Ok "2025.1223.1430" /\
  utf8_decode <$> files (fs m') !! packagePath =
    Some (String.append
            (default EmptyString
               (Reference.print_json
                  (VObj [("name", VStr "wlfryt-google-calendar");
                         ("version", VStr "2025.1223.1430");
                         ("main", VStr "src/main.js")])))
            (String "010" EmptyString)).
Proof.
  intros m m'.
  pose (raw := utf8_encode (default EmptyString
                              (Reference.print_json (VObj Examples.manifest)))).
  pose (text := default EmptyString
                  (Reference.print_json
                     (VObj (set_field "version"
                              (VStr (getTimestampVersion Examples.afternoon))
                              Examples.manifest)))).
  destruct (updateVersion_stamps_only_version m Examples.afternoon raw
              Examples.manifest text) as (Hr & Hfiles & _).
  - vm_compute. reflexivity.
  - vm_compute. reflexivity.
  - vm_compute. reflexivity.
  - by_compute.
  - reflexivity.
  - reflexivity.
  - split; [rewrite Hr; vm_compute; reflexivity |].
    subst m'. rewrite Hfiles, lookup_insert_eq. vm_compute. reflexivity.
Defined.

Lemma updateVersion_fails_without_writing_witness :
  (exists e, result (updateVersion Examples.afternoon) Reference.installed = Throw e) /\
  fs (after (updateVersion Examples.afternoon) Reference.installed) = fs Reference.installed.
Proof.
  destruct (updateVersion_fails_without_writing Reference.installed Examples.afternoon)
    as (Hthrow & Hfs & _).
  - left. vm_compute. reflexivity.
  - split; [exact Hthrow | exact Hfs].
Defined.

End ScriptRuns.
